(** * A shallow embedding of the platformer game loop of [game.py]

    The physics and session core of the game is translated function by
    function.  Conventions of the embedding:

    - Python integers are [Z]; [vx] is one of them, since the program only
      ever stores the integers 0, 4, -4, 2 and -2 in it, and so are the
      coordinates of the coins of the level.
    - Python floats ([vy], the timers, [dt]) are exact rationals [Q].  Every
      float the program computes from its constants ([0.5], [15], [-12],
      [2.0]) is a multiple of one half, so the arithmetic on them is exact.
      The timers add or subtract the caller-supplied [dt]: one such step and
      the comparison after it behave on floats as on rationals, but a sum
      over several frames does not, so nothing below is stated about
      accumulated time; [Countdown] replays the invincibility countdown on
      binary64 floats where the difference matters.
    - [pygame.Rect] stores integers: assigning a float to a coordinate
      rounds it to the nearest integer, halves away from zero ([Qround]).
    - Sound and music triggers are recorded in an output log; the
      sprite lists used only by the drawing routines are left out. *)

From Stdlib Require Import ZArith QArith Qminmax Bool List String Lia.
From Stdlib Require Import Reals R_sqrt.
From Stdlib Require Lra Lqa.
From Stdlib Require DecimalString.
From Stdlib Require PrimFloat FloatOps SpecFloat.
Import ListNotations.

#[local] Open Scope Z_scope.

(** ** Numeric prelude *)

(** [a > b] on floats, as a boolean. *)
Definition Qgtb (a b : Q) : bool :=
  match Qcompare a b with Gt => true | _ => false end.

(** [a < b] on floats. *)
Definition Qltb (a b : Q) : bool :=
  match Qcompare a b with Lt => true | _ => false end.

(** [a >= b] on floats. *)
Definition Qgeb (a b : Q) : bool := negb (Qltb a b).

(** Conversion of a float to a C [int], as done by the [pygame.Rect]
    setters: rounding to the nearest integer, halves away from zero. *)
Definition Qround (q : Q) : Z :=
  let n := Qnum q in
  let d := Zpos (Qden q) in
  if 0 <=? n then (2 * n + d) / (2 * d) else - ((2 * (- n) + d) / (2 * d)).

(** ** Game constants *)

Definition WIDTH : Z := 800.
Definition HEIGHT : Z := 600.
Definition GRAVITY : Q := 1 # 2.
Definition JUMP_STRENGTH : Q := inject_Z (-12).
Definition MAX_FALL : Q := inject_Z 15.

(** ** [pygame.Rect] *)

Module Rect.

Record t : Type := mk { x : Z; y : Z; w : Z; h : Z }.

Definition left (r : t) : Z := x r.
Definition top (r : t) : Z := y r.
Definition right (r : t) : Z := x r + w r.
Definition bottom (r : t) : Z := y r + h r.
Definition centerx (r : t) : Z := x r + Z.shiftr (w r) 1.
Definition centery (r : t) : Z := y r + Z.shiftr (h r) 1.

Definition set_x (v : Z) (r : t) : t := mk v (y r) (w r) (h r).
Definition set_y (v : Z) (r : t) : t := mk (x r) v (w r) (h r).
Definition set_left (v : Z) (r : t) : t := set_x v r.
Definition set_top (v : Z) (r : t) : t := set_y v r.
Definition set_right (v : Z) (r : t) : t := set_x (v - w r) r.
Definition set_bottom (v : Z) (r : t) : t := set_y (v - h r) r.

(** [a.colliderect(b)]: strict overlap of the two (normalised) extents;
    a rectangle of zero width or height collides with nothing.  On
    rectangles of positive size, the only ones the game builds, this is the
    plain four-inequality test ([colliderect_positive] below). *)
Definition colliderect (a b : t) : bool :=
  if (w a =? 0) || (h a =? 0) || (w b =? 0) || (h b =? 0) then false
  else
    (Z.min (x a) (x a + w a) <? Z.max (x b) (x b + w b)) &&
    (Z.min (y a) (y a + h a) <? Z.max (y b) (y b + h b)) &&
    (Z.max (x a) (x a + w a) >? Z.min (x b) (x b + w b)) &&
    (Z.max (y a) (y a + h a) >? Z.min (y b) (y b + h b)).

(** [r.collidepoint(p)]. *)
Definition collidepoint (r : t) (p : Z * Z) : bool :=
  (x r <=? fst p) && (fst p <? x r + w r) &&
  (y r <=? snd p) && (snd p <? y r + h r).

End Rect.

(** ** [class AnimatedSprite] *)

Module AnimatedSprite.

Record t : Type := mk {
  rect : Rect.t;
  vx : Z;
  vy : Q;
  on_ground : bool;
  animation_frame : Z;
  animation_timer : Q;
  animation_speed : Q;
  facing_right : bool
}.

Definition init (x y width height : Z) : t :=
  mk (Rect.mk x y width height) 0 0%Q false 0 0%Q (3 # 20) true.

Definition set_rect (v : Rect.t) (s : t) : t :=
  mk v (vx s) (vy s) (on_ground s) (animation_frame s)
     (animation_timer s) (animation_speed s) (facing_right s).
Definition set_vx (v : Z) (s : t) : t :=
  mk (rect s) v (vy s) (on_ground s) (animation_frame s)
     (animation_timer s) (animation_speed s) (facing_right s).
Definition set_vy (v : Q) (s : t) : t :=
  mk (rect s) (vx s) v (on_ground s) (animation_frame s)
     (animation_timer s) (animation_speed s) (facing_right s).
Definition set_on_ground (v : bool) (s : t) : t :=
  mk (rect s) (vx s) (vy s) v (animation_frame s)
     (animation_timer s) (animation_speed s) (facing_right s).
Definition set_animation (frame : Z) (timer : Q) (s : t) : t :=
  mk (rect s) (vx s) (vy s) (on_ground s) frame
     timer (animation_speed s) (facing_right s).
Definition set_facing_right (v : bool) (s : t) : t :=
  mk (rect s) (vx s) (vy s) (on_ground s) (animation_frame s)
     (animation_timer s) (animation_speed s) v.

(** [update_animation(dt)] *)
Definition update_animation (dt : Q) (s : t) : t :=
  let timer := (animation_timer s + dt)%Q in
  if Qgeb timer (animation_speed s)
  then set_animation (animation_frame s + 1) 0%Q s
  else set_animation (animation_frame s) timer s.

(** [apply_gravity()] *)
Definition apply_gravity (s : t) : t :=
  if negb (on_ground s) then
    let v := (vy s + GRAVITY)%Q in
    if Qgtb v MAX_FALL then set_vy MAX_FALL s else set_vy v s
  else s.

(** One iteration of the loop of [check_collision_x]. *)
Definition collide_x (s : t) (platform : Rect.t) : t :=
  if Rect.colliderect (rect s) platform then
    if vx s >? 0 then set_rect (Rect.set_right (Rect.left platform) (rect s)) s
    else if vx s <? 0 then set_rect (Rect.set_left (Rect.right platform) (rect s)) s
    else s
  else s.

Definition check_collision_x (platforms : list Rect.t) (s : t) : t :=
  fold_left collide_x platforms s.

(** The body of the branch taken when falling onto a platform. *)
Definition land_on (platform : Rect.t) (s : t) : t :=
  set_on_ground true
    (set_vy 0%Q (set_rect (Rect.set_bottom (Rect.top platform) (rect s)) s)).

(** The body of the branch taken when rising into a platform. *)
Definition bump_under (platform : Rect.t) (s : t) : t :=
  set_vy 0%Q (set_rect (Rect.set_top (Rect.bottom platform) (rect s)) s).

(** One iteration of the loop of [check_collision_y]. *)
Definition collide_y (s : t) (platform : Rect.t) : t :=
  if Rect.colliderect (rect s) platform then
    if Qgtb (vy s) 0 then land_on platform s
    else if Qltb (vy s) 0 then bump_under platform s
    else s
  else s.

Definition check_collision_y (platforms : list Rect.t) (s : t) : t :=
  fold_left collide_y platforms (set_on_ground false s).

(** [self.rect.x += self.vx] *)
Definition displace_x (s : t) : t :=
  set_rect (Rect.set_x (Rect.x (rect s) + vx s) (rect s)) s.

(** [self.rect.y += self.vy]: the float sum is rounded by the setter. *)
Definition displace_y (s : t) : t :=
  set_rect (Rect.set_y (Qround (inject_Z (Rect.y (rect s)) + vy s)) (rect s)) s.

(** The first three statements of [move]: the body as it enters the
    vertical collision pass. *)
Definition displaced (platforms : list Rect.t) (s : t) : t :=
  displace_y (check_collision_x platforms (displace_x s)).

(** [move(platforms)] *)
Definition move (platforms : list Rect.t) (s : t) : t :=
  check_collision_y platforms (displaced platforms s).

End AnimatedSprite.

(** ** Audio collaborator

    Calls to [sounds.*.play()], [music.play] and [music.stop] are
    fire-and-forget; the embedding records them in an output log. *)

Inductive audio : Type :=
| SndJump | SndCoin | SndHit | MusicPlay | MusicStop.

(** ** [class Player(AnimatedSprite)] *)

Module Player.

Record t : Type := mk {
  sprite : AnimatedSprite.t;
  jump_requested : bool;
  move_left : bool;
  move_right : bool;
  alive : bool;
  invincible : bool;
  invincible_timer : Q
}.

Definition init (x y : Z) : t :=
  mk (AnimatedSprite.init x y 40 50) false false false true false 0%Q.

Definition set_sprite (v : AnimatedSprite.t) (p : t) : t :=
  mk v (jump_requested p) (move_left p) (move_right p) (alive p)
     (invincible p) (invincible_timer p).
Definition set_jump_requested (v : bool) (p : t) : t :=
  mk (sprite p) v (move_left p) (move_right p) (alive p)
     (invincible p) (invincible_timer p).
Definition set_move (l r : bool) (p : t) : t :=
  mk (sprite p) (jump_requested p) l r (alive p)
     (invincible p) (invincible_timer p).
Definition set_alive (v : bool) (p : t) : t :=
  mk (sprite p) (jump_requested p) (move_left p) (move_right p) v
     (invincible p) (invincible_timer p).
Definition set_invincible (v : bool) (timer : Q) (p : t) : t :=
  mk (sprite p) (jump_requested p) (move_left p) (move_right p) (alive p)
     v timer.

Definition rect (p : t) : Rect.t := AnimatedSprite.rect (sprite p).
Definition vx (p : t) : Z := AnimatedSprite.vx (sprite p).
Definition vy (p : t) : Q := AnimatedSprite.vy (sprite p).
Definition on_ground (p : t) : bool := AnimatedSprite.on_ground (sprite p).
Definition animation_timer (p : t) : Q := AnimatedSprite.animation_timer (sprite p).
Definition animation_frame (p : t) : Z := AnimatedSprite.animation_frame (sprite p).

(** Invincibility countdown. *)
Definition tick_invincibility (dt : Q) (p : t) : t :=
  if invincible p then
    let timer := (invincible_timer p - dt)%Q in
    if Qle_bool timer 0 then set_invincible false timer p
    else set_invincible true timer p
  else p.

(** Horizontal input: [move_right] is tested last and overrides. *)
Definition steer (p : t) : t :=
  let s0 := AnimatedSprite.set_vx 0 (sprite p) in
  let s1 := if move_left p
            then AnimatedSprite.set_facing_right false (AnimatedSprite.set_vx (-4) s0)
            else s0 in
  let s2 := if move_right p
            then AnimatedSprite.set_facing_right true (AnimatedSprite.set_vx 4 s1)
            else s1 in
  set_sprite s2 p.

(** Jump, executed only when requested and on the ground. *)
Definition try_jump (sounds_enabled : bool) (p : t) : t * list audio :=
  if jump_requested p && on_ground p then
    (set_jump_requested false
       (set_sprite (AnimatedSprite.set_vy JUMP_STRENGTH (sprite p)) p),
     if sounds_enabled then [SndJump] else [])
  else (p, []).

(** Gravity followed by move-and-collide. *)
Definition physics (platforms : list Rect.t) (p : t) : t :=
  set_sprite
    (AnimatedSprite.move platforms (AnimatedSprite.apply_gravity (sprite p))) p.

(** Animation: advanced only if moving horizontally or airborne. *)
Definition animate (dt : Q) (p : t) : t :=
  if negb (vx p =? 0) || negb (on_ground p)
  then set_sprite (AnimatedSprite.update_animation dt (sprite p)) p
  else p.

(** Death by falling below the screen. *)
Definition check_fall (p : t) : t :=
  if Rect.y (rect p) >? HEIGHT + 100 then set_alive false p else p.

(** [update(dt, platforms)]; [sounds_enabled] is the global it reads. *)
Definition update (sounds_enabled : bool) (dt : Q) (platforms : list Rect.t)
    (p : t) : t * list audio :=
  if negb (alive p) then (p, [])
  else
    let '(p1, log) := try_jump sounds_enabled (steer (tick_invincibility dt p)) in
    (check_fall (animate dt (physics platforms p1)), log).

(** [take_damage()]: the returned flag and the player afterwards. *)
Definition take_damage (p : t) : bool * t :=
  if negb (invincible p) then (true, set_invincible true (2 # 1) p)
  else (false, p).

End Player.

(** ** [class Enemy(AnimatedSprite)] *)

Module Enemy.

Record t : Type := mk {
  sprite : AnimatedSprite.t;
  patrol_left : Z;
  patrol_right : Z;
  speed : Z
}.

Definition init (x y patrol_left patrol_right : Z) : t :=
  mk (AnimatedSprite.set_vx 2 (AnimatedSprite.init x y 35 40))
     patrol_left patrol_right 2.

Definition set_sprite (v : AnimatedSprite.t) (e : t) : t :=
  mk v (patrol_left e) (patrol_right e) (speed e).

Definition rect (e : t) : Rect.t := AnimatedSprite.rect (sprite e).
Definition vx (e : t) : Z := AnimatedSprite.vx (sprite e).
Definition facing_right (e : t) : bool := AnimatedSprite.facing_right (sprite e).

(** Direction reversal at the patrol boundaries. *)
Definition steer (e : t) : t :=
  if Rect.left (rect e) <=? patrol_left e then
    set_sprite (AnimatedSprite.set_facing_right true
                  (AnimatedSprite.set_vx (speed e) (sprite e))) e
  else if Rect.right (rect e) >=? patrol_right e then
    set_sprite (AnimatedSprite.set_facing_right false
                  (AnimatedSprite.set_vx (- speed e) (sprite e))) e
  else e.

(** [update(dt, platforms)] *)
Definition update (dt : Q) (platforms : list Rect.t) (e : t) : t :=
  let e1 := steer e in
  set_sprite
    (AnimatedSprite.update_animation dt
       (AnimatedSprite.move platforms
          (AnimatedSprite.apply_gravity (sprite e1)))) e1.

End Enemy.

(** ** [class Coin] *)

(** The test [math.sqrt(n) < t] on an integer sum of squares [n] and an
    integer bound [t], decided without leaving the integers;
    [sqrt_ltb_spec] below relates it to the real square root. *)
Definition sqrt_ltb (n t : Z) : bool := (0 <? t) && (n <? t * t).

Module Coin.

Record t : Type := mk {
  x : Z;
  y : Z;
  radius : Z;
  collected : bool;
  animation_frame : Q
}.

Definition init (x y : Z) : t := mk x y 12 false 0%Q.

Definition set_collected (v : bool) (c : t) : t :=
  mk (x c) (y c) (radius c) v (animation_frame c).

(** [update(dt)] *)
Definition update (dt : Q) (c : t) : t :=
  mk (x c) (y c) (radius c) (collected c)
     (animation_frame c + dt * inject_Z 5)%Q.

(** The argument of [math.sqrt] in [check_collision]. *)
Definition dist2 (c : t) (player : Player.t) : Z :=
  (x c - Rect.centerx (Player.rect player)) ^ 2 +
  (y c - Rect.centery (Player.rect player)) ^ 2.

(** [check_collision(player)]: the returned flag and the coin afterwards. *)
Definition check_collision (player : Player.t) (c : t) : bool * t :=
  if collected c then (false, c)
  else if sqrt_ltb (dist2 c player) (radius c + 20)
       then (true, set_collected true c)
       else (false, c).

End Coin.

(** ** [class Button] *)

Module Button.

Record t : Type := mk { rect : Rect.t; text : string; hovered : bool }.

Definition init (x y width height : Z) (text : string) : t :=
  mk (Rect.mk x y width height) text false.

Definition update (mouse_pos : Z * Z) (b : t) : t :=
  mk (rect b) (text b) (Rect.collidepoint (rect b) mouse_pos).

Definition is_clicked (mouse_pos : Z * Z) (b : t) : bool :=
  Rect.collidepoint (rect b) mouse_pos.

End Button.

(** ** Session: the module-level globals *)

Inductive game_state_t : Type := Menu | Playing | GameOver | Win.

Definition game_state_eqb (a b : game_state_t) : bool :=
  match a, b with
  | Menu, Menu | Playing, Playing | GameOver, GameOver | Win, Win => true
  | _, _ => false
  end.

Record Session : Type := mkSession {
  game_state : game_state_t;
  music_enabled : bool;
  sounds_enabled : bool;
  score : Z;
  lives : Z;
  game_over_message : string;
  music_started : bool;
  player : Player.t;
  enemies : list Enemy.t;
  coins : list Coin.t;
  platforms : list Rect.t;
  buttons : list Button.t;
  mouse_pos : Z * Z;
  audio_log : list audio
}.

Definition set_game_state (v : game_state_t) (s : Session) : Session :=
  mkSession v (music_enabled s) (sounds_enabled s) (score s) (lives s)
    (game_over_message s) (music_started s) (player s) (enemies s) (coins s)
    (platforms s) (buttons s) (mouse_pos s) (audio_log s).
Definition set_music (enabled started : bool) (s : Session) : Session :=
  mkSession (game_state s) enabled (sounds_enabled s) (score s) (lives s)
    (game_over_message s) started (player s) (enemies s) (coins s)
    (platforms s) (buttons s) (mouse_pos s) (audio_log s).
Definition set_sounds_enabled (v : bool) (s : Session) : Session :=
  mkSession (game_state s) (music_enabled s) v (score s) (lives s)
    (game_over_message s) (music_started s) (player s) (enemies s) (coins s)
    (platforms s) (buttons s) (mouse_pos s) (audio_log s).
Definition set_score (v : Z) (s : Session) : Session :=
  mkSession (game_state s) (music_enabled s) (sounds_enabled s) v (lives s)
    (game_over_message s) (music_started s) (player s) (enemies s) (coins s)
    (platforms s) (buttons s) (mouse_pos s) (audio_log s).
Definition set_lives (v : Z) (s : Session) : Session :=
  mkSession (game_state s) (music_enabled s) (sounds_enabled s) (score s) v
    (game_over_message s) (music_started s) (player s) (enemies s) (coins s)
    (platforms s) (buttons s) (mouse_pos s) (audio_log s).
Definition set_game_over_message (v : string) (s : Session) : Session :=
  mkSession (game_state s) (music_enabled s) (sounds_enabled s) (score s)
    (lives s) v (music_started s) (player s) (enemies s) (coins s)
    (platforms s) (buttons s) (mouse_pos s) (audio_log s).
Definition set_player (v : Player.t) (s : Session) : Session :=
  mkSession (game_state s) (music_enabled s) (sounds_enabled s) (score s)
    (lives s) (game_over_message s) (music_started s) v (enemies s) (coins s)
    (platforms s) (buttons s) (mouse_pos s) (audio_log s).
Definition set_enemies (v : list Enemy.t) (s : Session) : Session :=
  mkSession (game_state s) (music_enabled s) (sounds_enabled s) (score s)
    (lives s) (game_over_message s) (music_started s) (player s) v (coins s)
    (platforms s) (buttons s) (mouse_pos s) (audio_log s).
Definition set_coins (v : list Coin.t) (s : Session) : Session :=
  mkSession (game_state s) (music_enabled s) (sounds_enabled s) (score s)
    (lives s) (game_over_message s) (music_started s) (player s) (enemies s) v
    (platforms s) (buttons s) (mouse_pos s) (audio_log s).
Definition set_platforms (v : list Rect.t) (s : Session) : Session :=
  mkSession (game_state s) (music_enabled s) (sounds_enabled s) (score s)
    (lives s) (game_over_message s) (music_started s) (player s) (enemies s)
    (coins s) v (buttons s) (mouse_pos s) (audio_log s).
Definition set_buttons (v : list Button.t) (s : Session) : Session :=
  mkSession (game_state s) (music_enabled s) (sounds_enabled s) (score s)
    (lives s) (game_over_message s) (music_started s) (player s) (enemies s)
    (coins s) (platforms s) v (mouse_pos s) (audio_log s).
Definition set_mouse_pos (v : Z * Z) (s : Session) : Session :=
  mkSession (game_state s) (music_enabled s) (sounds_enabled s) (score s)
    (lives s) (game_over_message s) (music_started s) (player s) (enemies s)
    (coins s) (platforms s) (buttons s) v (audio_log s).
Definition emit (evs : list audio) (s : Session) : Session :=
  mkSession (game_state s) (music_enabled s) (sounds_enabled s) (score s)
    (lives s) (game_over_message s) (music_started s) (player s) (enemies s)
    (coins s) (platforms s) (buttons s) (mouse_pos s) (audio_log s ++ evs).

(** The module-level initial values. *)
Definition initial : Session :=
  mkSession Menu true true 0 3 EmptyString false (Player.init 100 400)
    [] [] []
    [ Button.init 300 200 200 50 "Start Game";
      Button.init 300 280 200 50 "Toggle Music";
      Button.init 300 360 200 50 "Toggle Sounds";
      Button.init 300 440 200 50 "Exit" ]
    (0, 0) [].

(** The fixed level layout. *)
Definition level_platforms : list Rect.t :=
  [ Rect.mk 0 550 800 50; Rect.mk 150 450 200 20; Rect.mk 450 400 200 20;
    Rect.mk 200 300 150 20; Rect.mk 500 250 180 20; Rect.mk 300 175 150 20 ].

Definition level_enemies : list Enemy.t :=
  [ Enemy.init 160 400 150 330; Enemy.init 460 350 450 630;
    Enemy.init 510 200 500 660 ].

Definition level_coins : list Coin.t :=
  [ Coin.init 250 420; Coin.init 550 370; Coin.init 275 270;
    Coin.init 590 220; Coin.init 375 150; Coin.init 700 500 ].

(** [init_level()]: the lists are cleared and refilled, the counters reset. *)
Definition init_level (s : Session) : Session :=
  let s := set_player (Player.init 100 400) s in
  let s := set_enemies [] s in
  let s := set_coins [] s in
  let s := set_platforms [] s in
  let s := set_score 0 s in
  let s := set_lives 3 s in
  let s := set_game_over_message EmptyString s in
  let s := set_platforms (platforms s ++ level_platforms) s in
  let s := set_enemies (enemies s ++ level_enemies) s in
  set_coins (coins s ++ level_coins) s.

(** ** The frame driver's inputs *)

(** What one call of [update(dt)] reads from its collaborators: the elapsed
    time, the four polled keys, and whether [music.play] succeeds (a
    failure is swallowed by the [try]). *)
Record tick_input : Type := mkTick {
  dt : Q;
  key_left : bool;
  key_a : bool;
  key_right : bool;
  key_d : bool;
  music_ok : bool
}.

(** [f"{score}"] *)
Definition str_of_int (n : Z) : string :=
  DecimalString.NilZero.string_of_int (Z.to_int n).

Definition win_message (score : Z) : string :=
  ("You Won! Score: " ++ str_of_int score)%string.

Definition lose_message : string := "Game Over! No lives left!".

(** [music.play("background")] inside [try]; [music_started] is set only
    when the call returns. *)
Definition play_music (ok : bool) (s : Session) : Session :=
  if ok then emit [MusicPlay] (set_music (music_enabled s) true s) else s.

(** ** [update(dt)] *)

(** Background music is started once, if enabled. *)
Definition update_music (i : tick_input) (s : Session) : Session :=
  if negb (music_started s) && music_enabled s
  then play_music (music_ok i) s else s.

(** Keyboard polling, in the playing state only. *)
Definition poll_keys (i : tick_input) (s : Session) : Session :=
  if game_state_eqb (game_state s) Playing
  then set_player (Player.set_move (key_left i || key_a i)
                                   (key_right i || key_d i) (player s)) s
  else s.

(** [player.update(dt, platforms)] *)
Definition update_player (i : tick_input) (s : Session) : Session :=
  let '(p, log) := Player.update (sounds_enabled s) (dt i) (platforms s) (player s) in
  emit log (set_player p s).

(** [for enemy in enemies: enemy.update(dt, platforms)] *)
Definition update_enemies (i : tick_input) (s : Session) : Session :=
  set_enemies (map (Enemy.update (dt i) (platforms s)) (enemies s)) s.

(** The body of the coin loop, for one coin: the coin afterwards and the
    session with the score awarded. *)
Definition collect_coin (i : tick_input) (s : Session) (c : Coin.t)
  : Session * Coin.t :=
  let '(got, c') := Coin.check_collision (player s) (Coin.update (dt i) c) in
  if got
  then (emit (if sounds_enabled s then [SndCoin] else [])
             (set_score (score s + 10) s), c')
  else (s, c').

(** The coin loop over a list of coins, left to right. *)
Fixpoint collect_coins (i : tick_input) (s : Session) (cs : list Coin.t)
  : Session * list Coin.t :=
  match cs with
  | [] => (s, [])
  | c :: rest =>
      let '(s1, c') := collect_coin i s c in
      let '(s2, rest') := collect_coins i s1 rest in
      (s2, c' :: rest')
  end.

Definition update_coins (i : tick_input) (s : Session) : Session :=
  let '(s', cs) := collect_coins i s (coins s) in set_coins cs s'.

(** The body of the player-enemy loop, for one enemy. *)
Definition hit_by (s : Session) (enemy : Enemy.t) : Session :=
  if Rect.colliderect (Player.rect (player s)) (Enemy.rect enemy) then
    let '(hurt, p) := Player.take_damage (player s) in
    let s := set_player p s in
    if hurt then
      let s := set_lives (lives s - 1) s in
      let s := emit (if sounds_enabled s then [SndHit] else []) s in
      if lives s <=? 0
      then set_game_over_message lose_message
             (set_player (Player.set_alive false (player s)) s)
      else s
    else s
  else s.

(** Player-enemy collision, only if the player is alive on entry. *)
Definition check_enemies (s : Session) : Session :=
  if Player.alive (player s) then fold_left hit_by (enemies s) s else s.

Definition all_collected (cs : list Coin.t) : bool :=
  forallb Coin.collected cs.

(** Win condition. *)
Definition check_win (s : Session) : Session :=
  if all_collected (coins s) && Player.alive (player s)
  then set_game_over_message (win_message (score s)) (set_game_state Win s)
  else s.

(** Game over when the player is dead. *)
Definition check_game_over (s : Session) : Session :=
  if negb (Player.alive (player s)) then set_game_state GameOver s else s.

(** The [elif game_state == "playing"] branch. *)
Definition update_playing (i : tick_input) (s : Session) : Session :=
  check_game_over
    (check_win
       (check_enemies
          (update_coins i (update_enemies i (update_player i s))))).

(** The [if game_state == "menu"] branch. *)
Definition update_menu (s : Session) : Session :=
  set_buttons (map (Button.update (mouse_pos s)) (buttons s)) s.

Definition update (i : tick_input) (s : Session) : Session :=
  let s := poll_keys i (update_music i s) in
  match game_state s with
  | Menu => update_menu s
  | Playing => update_playing i s
  | _ => s
  end.

(** ** Input handlers *)

Inductive key_t : Type := SPACE | UP | OtherKey.

(** [on_key_down(key)] *)
Definition on_key_down (key : key_t) (s : Session) : Session :=
  match game_state s with
  | Playing =>
      match key with
      | SPACE | UP => set_player (Player.set_jump_requested true (player s)) s
      | OtherKey => s
      end
  | GameOver | Win =>
      match key with
      | SPACE => set_game_state Menu s
      | _ => s
      end
  | Menu => s
  end.

(** The action of the menu button of index [n]; [None] is [exit()]. *)
Definition press_button (ok : bool) (n : nat) (s : Session) : option Session :=
  match n with
  | 0%nat =>
      let s := set_game_state Playing (init_level s) in
      Some (if music_enabled s && negb (music_started s)
            then play_music ok s else s)
  | 1%nat =>
      let s := set_music (negb (music_enabled s)) (music_started s) s in
      Some (if music_enabled s then play_music ok s
            else emit [MusicStop] (set_music (music_enabled s) false s))
  | 2%nat => Some (set_sounds_enabled (negb (sounds_enabled s)) s)
  | 3%nat => None
  | _ => Some s
  end.

(** [for i, button in enumerate(buttons)], from index [n] on. *)
Fixpoint click_buttons (ok : bool) (pos : Z * Z) (n : nat)
    (bs : list Button.t) (s : Session) : option Session :=
  match bs with
  | [] => Some s
  | b :: rest =>
      if Button.is_clicked pos b then
        match press_button ok n s with
        | Some s' => click_buttons ok pos (S n) rest s'
        | None => None
        end
      else click_buttons ok pos (S n) rest s
  end.

(** [on_mouse_down(pos)] *)
Definition on_mouse_down (ok : bool) (pos : Z * Z) (s : Session)
  : option Session :=
  match game_state s with
  | Menu => click_buttons ok pos 0 (buttons s) s
  | _ => Some s
  end.

(** [on_mouse_move(pos)] *)
Definition on_mouse_move (pos : Z * Z) (s : Session) : Session :=
  set_mouse_pos pos s.

(** The events delivered by the frame driver and one step of the program;
    [None] means the program has exited. *)
Inductive event : Type :=
| EvUpdate (i : tick_input)
| EvKeyDown (key : key_t)
| EvMouseDown (ok : bool) (pos : Z * Z)
| EvMouseMove (pos : Z * Z).

Definition step (s : Session) (e : event) : option Session :=
  match e with
  | EvUpdate i => Some (update i s)
  | EvKeyDown key => Some (on_key_down key s)
  | EvMouseDown ok pos => on_mouse_down ok pos s
  | EvMouseMove pos => Some (on_mouse_move pos s)
  end.

(** Sessions reachable from the initial one. *)
Inductive reachable : Session -> Prop :=
| reach_initial : reachable initial
| reach_step s e s' : reachable s -> step s e = Some s' -> reachable s'.

(** A run of consecutive frames. *)
Definition run_ticks (ticks : list tick_input) (s : Session) : Session :=
  fold_left (fun s i => update i s) ticks s.

(** ** The invincibility countdown on binary64 floats

    [invincible_timer] and [dt] are Python floats.  [Countdown] replays the
    countdown of [Player.update] (lines 146-149) with IEEE 754 double
    arithmetic, for what depends on the rounding of the repeated
    subtraction. *)

Module Countdown.

Import PrimFloat.

(** [if self.invincible: self.invincible_timer -= dt; if
    self.invincible_timer <= 0: self.invincible = False], on the pair of
    the flag and the timer. *)
Definition step (dt : float) (st : bool * float) : bool * float :=
  let '(invincible, timer) := st in
  if invincible then
    let timer := (timer - dt)%float in
    if (timer <=? 0)%float then (false, timer) else (true, timer)
  else (invincible, timer).






End Countdown.

(** What the coin loop does not touch. *)
Definition coins_frame (s s' : Session) : Prop :=
  player s' = player s /\ lives s' = lives s /\
  game_state s' = game_state s /\ sounds_enabled s' = sounds_enabled s /\
  enemies s' = enemies s /\ platforms s' = platforms s /\
  game_over_message s' = game_over_message s.

(** The Euclidean distance between the coin's centre and the centre of
    the player's rectangle, as a real number. *)
Definition distance (c : Coin.t) (p : Player.t) : R :=
  sqrt ((IZR (Coin.x c) - IZR (Rect.centerx (Player.rect p))) ^ 2 +
        (IZR (Coin.y c) - IZR (Rect.centery (Player.rect p))) ^ 2)%R.

(** The coin loop body applied to the same coin once per frame. *)
Definition recheck (ticks : list tick_input) (s : Session) (c : Coin.t)
  : Session * Coin.t :=
  fold_left (fun sc i => collect_coin i (fst sc) (snd sc)) ticks (s, c).

(** [check_collision] called again and again, by one player after another. *)
Definition recollide (players : list Player.t) (c : Coin.t) : Coin.t :=
  fold_left (fun c p => snd (Coin.check_collision p c)) players c.

(** What gravity and collision resolution never touch: the horizontal
    velocity, the facing and the animation state. *)
Definition same_drive (s s' : AnimatedSprite.t) : Prop :=
  AnimatedSprite.vx s' = AnimatedSprite.vx s /\
  AnimatedSprite.facing_right s' = AnimatedSprite.facing_right s /\
  AnimatedSprite.animation_frame s' = AnimatedSprite.animation_frame s /\
  AnimatedSprite.animation_timer s' = AnimatedSprite.animation_timer s /\
  AnimatedSprite.animation_speed s' = AnimatedSprite.animation_speed s.

(** No frame of the run starts with the player on the ground. *)
Fixpoint airborne_during (ticks : list tick_input) (s : Session) : Prop :=
  match ticks with
  | [] => True
  | i :: rest =>
      Player.on_ground (player s) = false /\ airborne_during rest (update i s)
  end.

(** ** Sample bodies and sessions

    Concrete inputs on which the statements below are exercised. *)

(** A 40x50 body at [(x, y)] with vertical velocity [v]. *)
Definition body_at (x y : Z) (v : Q) (grounded : bool) : AnimatedSprite.t :=
  AnimatedSprite.mk (Rect.mk x y 40 50) 0 v grounded 0 0%Q (3 # 20) true.

(** Airborne and faster than the terminal velocity. *)
Definition falling_fast : AnimatedSprite.t := body_at 100 100 (20 # 1) false.

(** Resting on the ground platform of the level. *)
Definition resting : AnimatedSprite.t := body_at 100 500 0%Q true.

(** Touching the ground platform, at rest, as the vertical pass leaves a
    body one frame after a landing: not reported on the ground. *)
Definition touching_down : AnimatedSprite.t := body_at 100 500 0%Q false.

(** Airborne, four units above the ground platform, falling at 5.5. *)
Definition about_to_land : AnimatedSprite.t := body_at 100 496 (11 # 2) false.

(** The level as the Start button leaves it. *)
Definition started : Session := set_game_state Playing (init_level initial).

(** An enemy standing on the player's starting position. *)
Definition enemy_on_start : Enemy.t := Enemy.init 120 410 50 330.

(** One frame at 60 frames per second with no key held. *)
Definition idle_frame : tick_input := mkTick (1 # 60) false false false false true.

(** The first coin of the level, already picked up. *)
Definition spent_coin : Coin.t := Coin.set_collected true (Coin.init 250 420).

(** A coin whose centre is 9 to the right of and 12 below the centre
    [(120, 425)] of the player's starting rectangle: distance 15. *)
Definition near_coin : Coin.t := Coin.init 129 437.

(** The first enemy of the level, moved to the right end of its patrol and
    still heading right. *)
Definition enemy_at_right_end : Enemy.t :=
  Enemy.set_sprite
    (AnimatedSprite.set_rect (Rect.mk 295 410 35 40)
       (Enemy.sprite (Enemy.init 160 400 150 330)))
    (Enemy.init 160 400 150 330).


(** A player about to land on the ground platform while holding right. *)
Definition walking_lander : Player.t :=
  Player.mk about_to_land false false true true false 0%Q.

(** The same player with no key held. *)
Definition silent_lander : Player.t :=
  Player.mk about_to_land false false false true false 0%Q.

(** A player in mid-air who has pressed jump. *)
Definition eager_faller : Player.t :=
  Player.mk about_to_land true false false true false 0%Q.

(** A player standing on the ground platform who has pressed jump. *)
Definition eager_stander : Player.t :=
  Player.mk resting true false false true false 0%Q.

(** The session after a click on the Start button of the menu. *)
Definition clicked_start : Session :=
  match on_mouse_down true (400, 220) initial with
  | Some s => s
  | None => initial
  end.

(** Jump pressed right after the start, while the player is still falling
    toward the ground platform. *)
Definition pressed_in_air : Session := on_key_down SPACE clicked_start.

(** The 20 frames the fall to the ground takes. *)
Definition fall_frames : list tick_input := repeat idle_frame 20.

(** One coin left, within reach of the player. *)
Definition last_coin_session : Session := set_coins [near_coin] started.

(** The same with one life left and an enemy on the player. *)
Definition last_coin_fatal : Session :=
  set_lives 1 (set_enemies [enemy_on_start] last_coin_session).

(** ** Notions used by the further properties *)

(** Within the vertical speed range of a body whose jumps start at [lo]:
    between [lo] and the terminal velocity, and at rest when grounded. *)
Definition velocity_ok (lo : Q) (s : AnimatedSprite.t) : Prop :=
  (lo <= AnimatedSprite.vy s)%Q /\
  (AnimatedSprite.vy s <= MAX_FALL)%Q /\
  (AnimatedSprite.on_ground s = true -> (AnimatedSprite.vy s == 0)%Q).


(** [sum(1 for c in coins if not c.collected)]: the number of coins left,
    as the HUD of [draw()] computes it. *)
Definition coins_left (cs : list Coin.t) : Z :=
  Z.of_nat (List.length (filter (fun c => negb (Coin.collected c)) cs)).

(** Where a coin lies and how big it is. *)
Definition coin_place (c : Coin.t) : Z * Z * Z :=
  (Coin.x c, Coin.y c, Coin.radius c).

(** The patrol data and the size of an enemy. *)
Definition enemy_setup (e : Enemy.t) : Z * Z * Z * Z * Z :=
  (Enemy.patrol_left e, Enemy.patrol_right e, Enemy.speed e,
   Rect.w (Enemy.rect e), Rect.h (Enemy.rect e)).

(** One coin after its turn in the coin loop, and whether it was taken. *)
Definition coin_after (d : Q) (p : Player.t) (c : Coin.t) : Coin.t :=
  snd (Coin.check_collision p (Coin.update d c)).
Definition coin_taken (d : Q) (p : Player.t) (c : Coin.t) : bool :=
  fst (Coin.check_collision p (Coin.update d c)).

(** The session [s] with new counters, message and player, and with [evs]
    appended to the audio log; everything else as in [s]. *)
Definition outcome (sc l : Z) (m : string) (p : Player.t) (evs : list audio)
    (s : Session) : Session :=
  mkSession (game_state s) (music_enabled s) (sounds_enabled s) sc l m
    (music_started s) p (enemies s) (coins s) (platforms s) (buttons s)
    (mouse_pos s) (audio_log s ++ evs).

(** The player after a successful hit that leaves [l] lives. *)
Definition hurt (l : Z) (p : Player.t) : Player.t :=
  let p' := Player.set_invincible true (2 # 1) p in
  if l <=? 0 then Player.set_alive false p' else p'.

(** The session as the three update loops of the playing branch leave it,
    before the enemy contacts are looked at: the player updated, every enemy
    updated, every coin tested against the updated player and the score
    raised by 10 for each coin taken; [evs] are the sounds played. *)
Definition after_loops (i : tick_input) (evs : list audio) (s : Session)
  : Session :=
  let p := fst (Player.update (sounds_enabled s) (dt i) (platforms s) (player s)) in
  let cs := map (coin_after (dt i) p) (coins s) in
  mkSession (game_state s) (music_enabled s) (sounds_enabled s)
    (score s + 10 * (coins_left (coins s) - coins_left cs))
    (lives s) (game_over_message s) (music_started s) p
    (map (Enemy.update (dt i) (platforms s)) (enemies s)) cs
    (platforms s) (buttons s) (mouse_pos s) (audio_log s ++ evs).

(** The enemies that overlap the player. *)
Definition touching (s : Session) : bool :=
  existsb (fun e => Rect.colliderect (Player.rect (player s)) (Enemy.rect e))
    (enemies s).

(** What holds of every session the program can reach. *)
Definition session_ok (s : Session) : Prop :=
  velocity_ok JUMP_STRENGTH (Player.sprite (player s)) /\
  Forall (fun e => velocity_ok 0 (Enemy.sprite e)) (enemies s) /\
  score s = 10 * (Z.of_nat (List.length (coins s)) - coins_left (coins s)) /\
  0 <= lives s <= 3 /\
  map Button.rect (buttons s) = map Button.rect (buttons initial) /\
  match game_state s with
  | Menu => True
  | Playing =>
      Player.alive (player s) = true /\ 1 <= lives s /\
      game_over_message s = EmptyString /\
      map coin_place (coins s) = map coin_place level_coins
  | Win =>
      Player.alive (player s) = true /\
      all_collected (coins s) = true /\
      game_over_message s = win_message (score s) /\
      map coin_place (coins s) = map coin_place level_coins
  | GameOver =>
      Player.alive (player s) = false /\
      map coin_place (coins s) = map coin_place level_coins /\
      ((lives s = 0 /\ game_over_message s = lose_message) \/
       (1 <= lives s /\ game_over_message s = EmptyString /\
        HEIGHT + 100 < Rect.y (Player.rect (player s))))
  end.

(** What holds between the update loops and the enemy contacts of a frame
    of the playing state. *)
Definition mid_tick_ok (s : Session) : Prop :=
  velocity_ok JUMP_STRENGTH (Player.sprite (player s)) /\
  Forall (fun e => velocity_ok 0 (Enemy.sprite e)) (enemies s) /\
  score s = 10 * (Z.of_nat (List.length (coins s)) - coins_left (coins s)) /\
  1 <= lives s <= 3 /\
  map Button.rect (buttons s) = map Button.rect (buttons initial) /\
  game_state s = Playing /\
  game_over_message s = EmptyString /\
  map coin_place (coins s) = map coin_place level_coins /\
  Player.alive (player s) = negb (Rect.y (Player.rect (player s)) >? HEIGHT + 100).

(** The session once [update] has dealt with the music and polled the
    keys of a frame of the playing state. *)
Definition polled (i : tick_input) (started : bool) (evs : list audio)
    (s : Session) : Session :=
  emit evs
    (set_music (music_enabled s) started
       (set_player
          (Player.set_move (key_left i || key_a i) (key_right i || key_d i)
             (player s)) s)).

(** Two sessions that differ at most in [music_started] and in the audio
    log. *)
Definition same_game (a b : Session) : Prop :=
  game_state a = game_state b /\ music_enabled a = music_enabled b /\
  sounds_enabled a = sounds_enabled b /\ score a = score b /\
  lives a = lives b /\ game_over_message a = game_over_message b /\
  player a = player b /\ enemies a = enemies b /\ coins a = coins b /\
  platforms a = platforms b /\ buttons a = buttons b /\
  mouse_pos a = mouse_pos b.

(** The same frame input with another outcome of [music.play]. *)
Definition with_music_ok (ok : bool) (i : tick_input) : tick_input :=
  mkTick (dt i) (key_left i) (key_a i) (key_right i) (key_d i) ok.

(** The player over a run of updates with the given elapsed times. *)
Definition run_player (snd_on : bool) (platforms : list Rect.t)
    (dts : list Q) (p : Player.t) : Player.t :=
  fold_left (fun p d => fst (Player.update snd_on d platforms p)) dts p.

(** A wall standing in front of a body at [(100, 500)]. *)
Definition wall : Rect.t := Rect.mk 130 480 50 70.

(** A grounded body walking right into the wall. *)
Definition pushing_right : AnimatedSprite.t :=
  AnimatedSprite.set_vx 4 (body_at 100 500 0%Q true).

(** A body rising at 3 units per tick. *)
Definition rising : AnimatedSprite.t := body_at 100 300 (inject_Z (-3)) false.


(** The session when the fall of [pressed_in_air] has just ended: the player
    stands on the ground platform. *)
Definition just_landed : Session := run_ticks fall_frames pressed_in_air.

(** A dead player lying below the screen, in a session still marked as
    playing. *)
Definition fallen_player : Player.t :=
  Player.set_alive false
    (Player.set_sprite (body_at 100 800 (inject_Z 15) false) (Player.init 100 400)).

(** A session still marked as playing whose player is already dead. *)
Definition wake : Session := set_player fallen_player started.

(** The player of the started level, just hurt by an enemy. *)
Definition hurt_player : Player.t := hurt 2 (player started).

(** The horizontal velocity and the facing that the held keys ask for;
    [right] is tested last and wins. *)
Definition steered_vx (left right : bool) : Z :=
  if right then 4 else if left then -4 else 0.

Definition steered_facing (left right facing : bool) : bool :=
  if right then true else if left then false else facing.

(** ** The music player *)

(** The music player after one more call: [music.play] starts it,
    [music.stop] stops it, the sounds leave it alone. *)
Definition music_after (playing : bool) (a : audio) : bool :=
  match a with
  | MusicPlay => true
  | MusicStop => false
  | _ => playing
  end.

(** Whether the music is playing after the calls of the log. *)
Definition music_playing (log : list audio) : bool :=
  fold_left music_after log false.

(** The flag [music_started] tells whether the music is playing, and it is
    playing only while the music is enabled. *)
Definition music_in_tune (s : Session) : Prop :=
  music_playing (audio_log s) = music_started s /\
  (music_started s = true -> music_enabled s = true).

(** A jump, coin or hit sound. *)
Definition is_sound (a : audio) : Prop :=
  a = SndJump \/ a = SndCoin \/ a = SndHit.

(** ** The patrols of the level *)

(** What of a body the physics reads and writes: the rectangle, the
    velocity and the ground flag, without the animation state and the
    facing. *)
Definition body_key (s : AnimatedSprite.t) : Rect.t * Z * Q * bool :=
  (AnimatedSprite.rect s, AnimatedSprite.vx s, AnimatedSprite.vy s,
   AnimatedSprite.on_ground s).

(** What of an enemy its own update reads. *)
Definition motion : Type := (Rect.t * Z * Q * bool) * Z * Z * Z.

Definition enemy_motion (e : Enemy.t) : motion :=
  (body_key (Enemy.sprite e), Enemy.patrol_left e, Enemy.patrol_right e,
   Enemy.speed e).

(** An enemy in a given motion, its animation at rest. *)
Definition enemy_in (m : motion) : Enemy.t :=
  let '(r, vx, vy, g, pl, pr, sp) := m in
  Enemy.mk (AnimatedSprite.mk r vx vy g 0 0%Q (3 # 20) true) pl pr sp.

(** The motion one frame later, among the platforms of the level. *)
Definition next_motion (m : motion) : motion :=
  enemy_motion (Enemy.update 0 level_platforms (enemy_in m)).

(** The first [n] motions of an enemy that starts in [m]. *)
Fixpoint motions (n : nat) (m : motion) : list motion :=
  match n with
  | O => []
  | S n => m :: motions n (next_motion m)
  end.

Definition Q_eqb (a b : Q) : bool :=
  (Qnum a =? Qnum b) && Pos.eqb (Qden a) (Qden b).

Definition rect_eqb (a b : Rect.t) : bool :=
  (Rect.x a =? Rect.x b) && (Rect.y a =? Rect.y b) &&
  (Rect.w a =? Rect.w b) && (Rect.h a =? Rect.h b).

Definition motion_eqb (a b : motion) : bool :=
  let '(r, vx, vy, g, pl, pr, sp) := a in
  let '(r', vx', vy', g', pl', pr', sp') := b in
  rect_eqb r r' && (vx =? vx') && Q_eqb vy vy' && Bool.eqb g g' &&
  (pl =? pl') && (pr =? pr') && (sp =? sp').

(** The number of frames after which each enemy of the level is back in a
    motion it has been in. *)
Definition patrol_frames : nat := 460.

Definition patrol_motions : list motion :=
  flat_map (fun e => motions patrol_frames (enemy_motion e)) level_enemies.

(** The rectangle [r] is above the platform [pl], inside its width, its
    bottom edge at most 10 above the platform's top and not below it. *)
Definition stands_over (r pl : Rect.t) : bool :=
  (Rect.left pl <=? Rect.left r) && (Rect.right r <=? Rect.right pl) &&
  (Rect.top pl - 10 <=? Rect.bottom r) && (Rect.bottom r <=? Rect.top pl).

(** An enemy on its patrol: moving at its speed one way or the other,
    between its patrol bounds (one pixel over on the right at most), over a
    platform of the level. *)
Definition on_patrol (e : Enemy.t) : Prop :=
  (Enemy.vx e = Enemy.speed e \/ Enemy.vx e = - Enemy.speed e) /\
  Enemy.patrol_left e <= Rect.left (Enemy.rect e) /\
  Rect.right (Enemy.rect e) <= Enemy.patrol_right e + 1 /\
  exists pl, In pl level_platforms /\ stands_over (Enemy.rect e) pl = true.

Definition on_patrolb (m : motion) : bool :=
  let '(r, vx, vy, g, pl, pr, sp) := m in
  ((vx =? sp) || (vx =? - sp)) && (pl <=? Rect.left r) &&
  (Rect.right r <=? pr + 1) && existsb (stands_over r) level_platforms.

(** What the patrols need of a session: the platforms are those of the
    level as soon as there are enemies, and every enemy is in one of the
    motions of the level. *)
Definition patrols_ok (s : Session) : Prop :=
  (enemies s = [] \/ platforms s = level_platforms) /\
  Forall (fun e => In (enemy_motion e) patrol_motions) (enemies s).

(** * Properties *)

(** ** Comparisons and rounding *)

Lemma Qgtb_true (a b : Q) : Qgtb a b = true <-> (b < a)%Q.
Proof.
  unfold Qgtb. change (b < a)%Q with (a > b)%Q. rewrite Qgt_alt.
  destruct (a ?= b)%Q; split; intro H; try reflexivity; discriminate.
Qed.

Lemma Qgtb_false (a b : Q) : Qgtb a b = false <-> (a <= b)%Q.
Proof.
  unfold Qgtb. rewrite Qle_alt.
  destruct (a ?= b)%Q; split; intro H; try reflexivity; try discriminate.
  exfalso; apply H; reflexivity.
Qed.

Lemma Qltb_true (a b : Q) : Qltb a b = true <-> (a < b)%Q.
Proof.
  unfold Qltb. rewrite Qlt_alt.
  destruct (a ?= b)%Q; split; intro H; try reflexivity; discriminate.
Qed.



(** Rounding never exceeds an integer upper bound. *)
Lemma Qround_le (q : Q) (z : Z) : (q <= inject_Z z)%Q -> Qround q <= z.
Proof.
  destruct q as [n d]. unfold Qle, Qround; simpl Qnum; simpl Qden. intro H.
  rewrite Z.mul_1_r in H.
  destruct (0 <=? n) eqn:E.
  - apply Z.lt_succ_r. apply Z.div_lt_upper_bound; [lia|nia].
  - assert (- z <= (2 * - n + Z.pos d) / (2 * Z.pos d)); [|lia].
    apply Z.div_le_lower_bound; [lia|nia].
Qed.

(** Rounding never drops below an integer lower bound. *)
Lemma Qround_ge (q : Q) (z : Z) : (inject_Z z <= q)%Q -> z <= Qround q.
Proof.
  destruct q as [n d]. unfold Qle, Qround; simpl Qnum; simpl Qden. intro H.
  rewrite Z.mul_1_r in H.
  destruct (0 <=? n) eqn:E.
  - apply Z.div_le_lower_bound; [lia|nia].
  - assert ((2 * - n + Z.pos d) / (2 * Z.pos d) < - z + 1); [|lia].
    apply Z.div_lt_upper_bound; [lia|nia].
Qed.

Lemma Qround_inject_Z (z : Z) : Qround (inject_Z z) = z.
Proof.
  apply Z.le_antisymm; [apply Qround_le|apply Qround_ge]; apply Qle_refl.
Qed.

(** ** Rectangles *)

Lemma colliderect_positive (a b : Rect.t) :
  0 < Rect.w a -> 0 < Rect.h a -> 0 < Rect.w b -> 0 < Rect.h b ->
  Rect.colliderect a b =
    (Rect.left a <? Rect.right b) && (Rect.top a <? Rect.bottom b) &&
    (Rect.right a >? Rect.left b) && (Rect.bottom a >? Rect.top b).
Proof.
  intros Hwa Hha Hwb Hhb.
  unfold Rect.colliderect, Rect.left, Rect.right, Rect.top, Rect.bottom.
  replace (Rect.w a =? 0) with false by (symmetry; apply Z.eqb_neq; lia).
  replace (Rect.h a =? 0) with false by (symmetry; apply Z.eqb_neq; lia).
  replace (Rect.w b =? 0) with false by (symmetry; apply Z.eqb_neq; lia).
  replace (Rect.h b =? 0) with false by (symmetry; apply Z.eqb_neq; lia).
  simpl.
  rewrite !Z.min_l, !Z.max_r by lia. reflexivity.
Qed.

(** ** Gravity *)

(** C2.  For an airborne body [apply_gravity] replaces [vy] by
    [min(vy + 0.5, 15)] and touches nothing else, so the new [vy] is at most
    15 whatever the old one was; for a grounded body it changes nothing. *)
Theorem apply_gravity_spec (s : AnimatedSprite.t) :
  (AnimatedSprite.on_ground s = false ->
   AnimatedSprite.apply_gravity s =
     AnimatedSprite.set_vy
       (Qmin (AnimatedSprite.vy s + (1 # 2)) (inject_Z 15)) s /\
   (AnimatedSprite.vy (AnimatedSprite.apply_gravity s) <= inject_Z 15)%Q) /\
  (AnimatedSprite.on_ground s = true ->
   AnimatedSprite.apply_gravity s = s /\
   AnimatedSprite.vy (AnimatedSprite.apply_gravity s) = AnimatedSprite.vy s).
Proof.
  unfold AnimatedSprite.apply_gravity. split; intros ->; simpl.
  - unfold Qmin, GenericMinMax.gmin, Qgtb, GRAVITY, MAX_FALL.
    destruct (AnimatedSprite.vy s + (1 # 2) ?= inject_Z 15)%Q eqn:E;
      (split; [reflexivity|]); simpl.
    + apply Qle_alt. rewrite E. discriminate.
    + apply Qle_alt. rewrite E. discriminate.
    + apply Qle_refl.
  - split; reflexivity.
Qed.

Lemma apply_gravity_spec_witness :
  (AnimatedSprite.vy (AnimatedSprite.apply_gravity falling_fast)
     <= inject_Z 15)%Q /\
  AnimatedSprite.apply_gravity resting = resting.
Proof.
  split.
  - apply (proj1 (apply_gravity_spec falling_fast)). reflexivity.
  - apply (proj2 (apply_gravity_spec resting)). reflexivity.
Defined.

(** ** Vertical collision *)

Section VerticalPass.

Import AnimatedSprite.

(** A body with no vertical velocity is left alone by every platform. *)
Lemma collide_y_still (s : t) (pl : Rect.t) :
  (vy s == 0)%Q -> collide_y s pl = s.
Proof.
  intro Hz. unfold collide_y.
  assert (G : Qgtb (vy s) 0 = false) by (apply Qgtb_false; rewrite Hz; apply Qle_refl).
  assert (L : Qltb (vy s) 0 = false).
  { destruct (Qltb (vy s) 0) eqn:E; [|reflexivity].
    apply Qltb_true in E. rewrite Hz in E. discriminate. }
  rewrite G, L. destruct (Rect.colliderect _ _); reflexivity.
Qed.

Lemma fold_collide_y_still (platforms : list Rect.t) (s : t) :
  (vy s == 0)%Q -> fold_left collide_y platforms s = s.
Proof.
  revert s. induction platforms as [|pl rest IH]; intros s Hz; simpl.
  - reflexivity.
  - rewrite (collide_y_still s pl Hz). apply IH, Hz.
Qed.

(** A falling body that overlaps some platform of the list ends the loop
    grounded and at rest. *)
Lemma fold_collide_y_lands (platforms : list Rect.t) (s : t) :
  (0 < vy s)%Q ->
  existsb (Rect.colliderect (rect s)) platforms = true ->
  on_ground (fold_left collide_y platforms s) = true /\
  vy (fold_left collide_y platforms s) = 0%Q.
Proof.
  revert s. induction platforms as [|pl rest IH]; intros s Hv Hex; simpl in *.
  - discriminate.
  - unfold collide_y at 2 4.
    destruct (Rect.colliderect (rect s) pl) eqn:C.
    + apply Qgtb_true in Hv. rewrite Hv.
      rewrite fold_collide_y_still by reflexivity. split; reflexivity.
    + apply IH; assumption.
Qed.

Lemma fold_collide_x_keeps (platforms : list Rect.t) (s : t) :
  let s' := fold_left collide_x platforms s in
  vy s' = vy s /\ Rect.y (rect s') = Rect.y (rect s) /\
  Rect.h (rect s') = Rect.h (rect s) /\ vx s' = vx s /\
  facing_right s' = facing_right s /\ on_ground s' = on_ground s.
Proof.
  revert s. induction platforms as [|pl rest IH]; intros s; simpl.
  - repeat split.
  - specialize (IH (collide_x s pl)). simpl in IH.
    destruct IH as (A & B & C & D & E & F).
    rewrite A, B, C, D, E, F. unfold collide_x.
    destruct (Rect.colliderect _ _); [|repeat split].
    destruct (vx s >? 0); [repeat split|].
    destruct (vx s <? 0); repeat split.
Qed.

Lemma fold_collide_x_free (platforms : list Rect.t) (s : t) :
  forallb (fun pl => negb (Rect.colliderect (rect s) pl)) platforms = true ->
  fold_left collide_x platforms s = s.
Proof.
  induction platforms as [|pl rest IH]; intro H; simpl in *; [reflexivity|].
  apply andb_true_iff in H. destruct H as [H1 H2].
  apply negb_true_iff in H1. unfold collide_x at 2. rewrite H1.
  apply IH, H2.
Qed.

Lemma fold_collide_y_x (platforms : list Rect.t) (s : t) :
  Rect.x (rect (fold_left collide_y platforms s)) = Rect.x (rect s).
Proof.
  revert s. induction platforms as [|pl rest IH]; intro s; simpl;
    [reflexivity|].
  rewrite IH. unfold collide_y. destruct (Rect.colliderect _ _); [|reflexivity].
  destruct (Qgtb _ _); [reflexivity|]. destruct (Qltb _ _); reflexivity.
Qed.

(** When the horizontal pass meets no platform, [move] shifts the body by
    exactly [vx]. *)
Lemma move_free_x (platforms : list Rect.t) (s : t) :
  forallb (fun pl => negb (Rect.colliderect (rect (displace_x s)) pl))
    platforms = true ->
  Rect.x (rect (move platforms s)) = Rect.x (rect s) + vx s.
Proof.
  intro H. unfold move, check_collision_y, displaced, check_collision_x.
  rewrite fold_collide_y_x, (fold_collide_x_free platforms (displace_x s) H).
  reflexivity.
Qed.

(** An airborne body is accelerated by gravity up to the terminal
    velocity. *)
Lemma apply_gravity_airborne (s : t) :
  on_ground s = false ->
  apply_gravity s = set_vy (Qmin (vy s + (1 # 2)) (inject_Z 15)) s.
Proof.
  intro Hg. unfold apply_gravity. rewrite Hg. cbn [negb].
  unfold Qmin, GenericMinMax.gmin, Qgtb, GRAVITY, MAX_FALL.
  destruct (vy s + (1 # 2) ?= inject_Z 15)%Q; reflexivity.
Qed.

(** A falling body that overlaps some platform of the list ends the loop
    standing on a platform of the list. *)
Lemma fold_collide_y_rests (platforms : list Rect.t) (s : t) :
  (0 < vy s)%Q ->
  existsb (Rect.colliderect (rect s)) platforms = true ->
  exists p, In p platforms /\
    Rect.bottom (rect (fold_left collide_y platforms s)) = Rect.top p.
Proof.
  revert s. induction platforms as [|pl rest IH]; intros s Hv Hex; simpl in *.
  - discriminate.
  - unfold collide_y at 2.
    destruct (Rect.colliderect (rect s) pl) eqn:C.
    + apply Qgtb_true in Hv. rewrite Hv.
      rewrite fold_collide_y_still by reflexivity.
      exists pl. split; [left; reflexivity|].
      unfold land_on, Rect.bottom, Rect.set_bottom, Rect.set_y.
      cbn [set_on_ground set_vy set_rect rect Rect.y Rect.h]. lia.
    + destruct (IH s Hv Hex) as (p & Hin & Hb).
      exists p. split; [right; exact Hin|exact Hb].
Qed.

(** C3.  The vertical pass clears [on_ground] and then visits the platforms
    in list order, each one acting on the body left by the previous ones: a
    platform that does not overlap changes nothing; an overlapping one, when
    [vy > 0], puts the body's bottom on the platform's top, zeroes [vy] and
    sets [on_ground]; when [vy < 0], puts the body's top on the platform's
    bottom and zeroes [vy].  In particular, take a body and a platform of the
    list that lies below it.  Gravity makes the velocity of an airborne
    body [min(vy + 0.5, 15)] and leaves that of a grounded one; if the
    horizontal step meets no platform and the body, moved by [vx] and then
    down by that velocity (the new [y] rounded by the rectangle), reaches
    into the platform, then after [apply_gravity] and [move] the body is
    grounded with [vy = 0], its bottom on the top of a platform of the
    list. *)
Theorem check_collision_y_spec :
  (forall s, check_collision_y [] s = set_on_ground false s) /\
  (forall platforms pl s,
     check_collision_y (platforms ++ [pl]) s =
       collide_y (check_collision_y platforms s) pl) /\
  (forall s pl,
     Rect.colliderect (rect s) pl = false -> collide_y s pl = s) /\
  (forall s pl,
     Rect.colliderect (rect s) pl = true -> (0 < vy s)%Q ->
     let s' := collide_y s pl in
     Rect.bottom (rect s') = Rect.top pl /\ vy s' = 0%Q /\
     on_ground s' = true /\ Rect.x (rect s') = Rect.x (rect s)) /\
  (forall s pl,
     Rect.colliderect (rect s) pl = true -> (vy s < 0)%Q ->
     let s' := collide_y s pl in
     Rect.top (rect s') = Rect.bottom pl /\ vy s' = 0%Q /\
     on_ground s' = on_ground s /\ Rect.x (rect s') = Rect.x (rect s)) /\
  (forall s platforms pl,
     In pl platforms ->
     0 < Rect.w (rect s) -> 0 < Rect.h (rect s) ->
     0 < Rect.w pl -> 0 < Rect.h pl ->
     Rect.bottom (rect s) <= Rect.top pl ->
     let g := if on_ground s then vy s
              else Qmin (vy s + (1 # 2)) (inject_Z 15) in
     let x' := Rect.x (rect s) + vx s in
     let y' := Qround (inject_Z (Rect.y (rect s)) + g) in
     forallb
       (fun p => negb (Rect.colliderect (Rect.set_x x' (rect s)) p))
       platforms = true ->
     Rect.left pl < x' + Rect.w (rect s) -> x' < Rect.right pl ->
     Rect.top pl < y' + Rect.h (rect s) -> y' < Rect.bottom pl ->
     let s' := move platforms (apply_gravity s) in
     on_ground s' = true /\ vy s' = 0%Q /\
     exists p, In p platforms /\ Rect.bottom (rect s') = Rect.top p).
Proof.
  split; [reflexivity|].
  split; [intros; unfold check_collision_y; apply fold_left_app|].
  split; [intros s pl C; unfold collide_y; rewrite C; reflexivity|].
  split.
  { intros s pl C Hv. unfold collide_y. rewrite C.
    apply Qgtb_true in Hv. rewrite Hv.
    unfold land_on, Rect.bottom, Rect.top; simpl. repeat split. lia. }
  split.
  { intros s pl C Hv. unfold collide_y. rewrite C.
    assert (G : Qgtb (vy s) 0 = false)
      by (apply Qgtb_false, Qlt_le_weak, Hv).
    apply Qltb_true in Hv. rewrite G, Hv. repeat split. }
  intros s platforms pl Hin Hw Hh Hpw Hph Hbelow g x' y' Hfree Hl Hr Ht Hb.
  assert (Hs1 : rect (apply_gravity s) = rect s /\
                vx (apply_gravity s) = vx s /\ vy (apply_gravity s) = g).
  { unfold g. destruct (on_ground s) eqn:Hg.
    - unfold apply_gravity. rewrite Hg. repeat split.
    - rewrite (apply_gravity_airborne s Hg). repeat split. }
  destruct Hs1 as (Sr & Sx & Sv).
  set (s1 := apply_gravity s) in *.
  unfold move, check_collision_y, displaced, check_collision_x.
  rewrite (fold_collide_x_free platforms (displace_x s1))
    by (unfold displace_x; cbn [set_rect rect]; rewrite Sr, Sx; exact Hfree).
  set (b := set_on_ground false (displace_y (displace_x s1))).
  assert (Eb : rect b = Rect.mk x' y' (Rect.w (rect s)) (Rect.h (rect s))).
  { unfold b, displace_y, displace_x.
    cbn [set_on_ground set_rect rect vy vx Rect.set_x Rect.set_y
         Rect.x Rect.y Rect.w Rect.h].
    rewrite Sr, Sx, Sv. reflexivity. }
  assert (Ev : vy b = g) by exact Sv.
  assert (Hpos : (0 < vy b)%Q).
  { rewrite Ev. apply Qnot_le_lt. intro Hle.
    assert (T : y' <= Rect.y (rect s)).
    { apply Qround_le.
      rewrite <- (Qplus_0_r (inject_Z (Rect.y (rect s)))) at 2.
      apply Qplus_le_r. exact Hle. }
    unfold Rect.bottom, Rect.top in Hbelow, Ht. lia. }
  assert (Hov : Rect.colliderect (rect b) pl = true).
  { rewrite colliderect_positive by (rewrite ?Eb; assumption).
    rewrite Eb. unfold Rect.left, Rect.right, Rect.top, Rect.bottom in *.
    cbn [Rect.x Rect.y Rect.w Rect.h].
    rewrite !andb_true_iff, !Z.ltb_lt, !Z.gtb_lt. lia. }
  assert (Hex : existsb (Rect.colliderect (rect b)) platforms = true).
  { apply existsb_exists. exists pl. split; assumption. }
  destruct (fold_collide_y_lands platforms b Hpos Hex) as [Hg Hz].
  split; [exact Hg|]. split; [exact Hz|].
  exact (fold_collide_y_rests platforms b Hpos Hex).
Qed.

End VerticalPass.

Lemma check_collision_y_spec_witness :
  AnimatedSprite.on_ground
    (AnimatedSprite.move level_platforms
       (AnimatedSprite.apply_gravity touching_down)) = true /\
  AnimatedSprite.vy
    (AnimatedSprite.move level_platforms
       (AnimatedSprite.apply_gravity touching_down)) = 0%Q /\
  exists p, In p level_platforms /\
    Rect.bottom
      (AnimatedSprite.rect
         (AnimatedSprite.move level_platforms
            (AnimatedSprite.apply_gravity touching_down))) = Rect.top p.
Proof.
  apply (proj2 (proj2 (proj2 (proj2 (proj2 check_collision_y_spec))))
           touching_down level_platforms (Rect.mk 0 550 800 50));
    try (vm_compute; reflexivity).
  - left. reflexivity.
  - vm_compute. discriminate.
Defined.

(** ** The player controller *)

Section PlayerFacts.

Variables (snd_on : bool) (d : Q) (platforms : list Rect.t).

(** The stages after the invincibility countdown leave the damage state
    machine alone. *)
Lemma update_invincibility (p : Player.t) :
  Player.alive p = true ->
  let p' := fst (Player.update snd_on d platforms p) in
  Player.invincible p' = Player.invincible (Player.tick_invincibility d p) /\
  Player.invincible_timer p' =
    Player.invincible_timer (Player.tick_invincibility d p).
Proof.
  intro Ha. unfold Player.update. rewrite Ha. simpl.
  set (q := Player.steer (Player.tick_invincibility d p)).
  assert (Hq : Player.invincible q = Player.invincible (Player.tick_invincibility d p) /\
               Player.invincible_timer q =
                 Player.invincible_timer (Player.tick_invincibility d p))
    by (split; reflexivity).
  clearbody q. destruct Hq as [<- <-].
  unfold Player.try_jump.
  destruct (Player.jump_requested q && Player.on_ground q); simpl;
    unfold Player.check_fall, Player.animate;
    repeat match goal with
           | |- context [if ?c then _ else _] => destruct c
           end; split; reflexivity.
Qed.

Lemma update_dead (p : Player.t) :
  Player.alive p = false -> Player.update snd_on d platforms p = (p, []).
Proof. intro Ha. unfold Player.update. rewrite Ha. reflexivity. Qed.


End PlayerFacts.

(** ** Stages of the playing branch *)

Lemma session_eta (s : Session) : set_player (player s) s = s.
Proof. destruct s; reflexivity. Qed.

Lemma coins_frame_refl (s : Session) : coins_frame s s.
Proof. repeat split. Qed.

Lemma coins_frame_trans (a b c : Session) :
  coins_frame a b -> coins_frame b c -> coins_frame a c.
Proof.
  unfold coins_frame.
  intros (A1 & A2 & A3 & A4 & A5 & A6 & A7) (B1 & B2 & B3 & B4 & B5 & B6 & B7).
  repeat split; congruence.
Qed.

Lemma collect_coin_frame (i : tick_input) (s : Session) (c : Coin.t) :
  coins_frame s (fst (collect_coin i s c)).
Proof.
  unfold collect_coin.
  destruct (Coin.check_collision _ _) as [[|] c']; simpl; repeat split.
Qed.

Lemma collect_coins_frame (i : tick_input) (cs : list Coin.t) (s : Session) :
  coins_frame s (fst (collect_coins i s cs)) /\
  List.length (snd (collect_coins i s cs)) = List.length cs.
Proof.
  revert s. induction cs as [|c rest IH]; intro s; simpl.
  - split; [apply coins_frame_refl | reflexivity].
  - pose proof (collect_coin_frame i s c) as F.
    destruct (collect_coin i s c) as [s1 c'] eqn:E1. simpl in F.
    specialize (IH s1).
    destruct (collect_coins i s1 rest) as [s2 rest'] eqn:E2. simpl in *.
    destruct IH as [F2 L]. split.
    + eapply coins_frame_trans; eassumption.
    + now rewrite L.
Qed.

Lemma update_coins_frame (i : tick_input) (s : Session) :
  coins_frame s (update_coins i s).
Proof.
  unfold update_coins.
  pose proof (collect_coins_frame i (coins s) s) as [F _].
  destruct (collect_coins i s (coins s)) as [s' cs]. simpl in F.
  destruct F as (A1 & A2 & A3 & A4 & A5 & A6 & A7).
  repeat split; simpl; assumption.
Qed.

(** An invincible player passes through an enemy untouched. *)
Lemma hit_by_invincible (s : Session) (e : Enemy.t) :
  Player.invincible (player s) = true -> hit_by s e = s.
Proof.
  intro Hi. unfold hit_by, Player.take_damage. rewrite Hi. simpl.
  destruct (Rect.colliderect _ _); [apply session_eta | reflexivity].
Qed.

Lemma fold_hit_by_invincible (es : list Enemy.t) (s : Session) :
  Player.invincible (player s) = true -> fold_left hit_by es s = s.
Proof.
  intro Hi. induction es as [|e rest IH]; simpl.
  - reflexivity.
  - rewrite hit_by_invincible by exact Hi. exact IH.
Qed.

(** The first overlapping enemy hurts a vulnerable player. *)
Lemma hit_by_vulnerable (s : Session) (e : Enemy.t) :
  Player.invincible (player s) = false ->
  Rect.colliderect (Player.rect (player s)) (Enemy.rect e) = true ->
  lives (hit_by s e) = lives s - 1 /\
  Player.invincible (player (hit_by s e)) = true /\
  Player.invincible_timer (player (hit_by s e)) = (2 # 1)%Q /\
  Player.alive (player (hit_by s e)) =
    (if lives s - 1 <=? 0 then false else Player.alive (player s)) /\
  score (hit_by s e) = score s /\ coins (hit_by s e) = coins s /\
  game_state (hit_by s e) = game_state s.
Proof.
  intros Hi Hc. unfold hit_by, Player.take_damage. rewrite Hc, Hi. simpl.
  destruct (lives s - 1 <=? 0); repeat split.
Qed.

Lemma check_win_frame (s : Session) :
  player (check_win s) = player s /\ lives (check_win s) = lives s /\
  coins (check_win s) = coins s /\ score (check_win s) = score s.
Proof. unfold check_win. destruct (_ && _); repeat split. Qed.

Lemma check_game_over_frame (s : Session) :
  player (check_game_over s) = player s /\
  lives (check_game_over s) = lives s /\
  coins (check_game_over s) = coins s /\
  score (check_game_over s) = score s /\
  game_over_message (check_game_over s) = game_over_message s.
Proof. unfold check_game_over. destruct (negb _); repeat split. Qed.

Lemma update_player_frame (i : tick_input) (s : Session) :
  player (update_player i s) =
    fst (Player.update (sounds_enabled s) (dt i) (platforms s) (player s)) /\
  lives (update_player i s) = lives s /\
  coins (update_player i s) = coins s /\
  score (update_player i s) = score s /\
  enemies (update_player i s) = enemies s /\
  platforms (update_player i s) = platforms s /\
  sounds_enabled (update_player i s) = sounds_enabled s /\
  game_state (update_player i s) = game_state s.
Proof.
  unfold update_player. destruct (Player.update _ _ _ _); repeat split.
Qed.

Lemma polled_frame (i : tick_input) (s : Session) :
  let s0 := poll_keys i (update_music i s) in
  game_state s0 = game_state s /\ lives s0 = lives s /\
  score s0 = score s /\ coins s0 = coins s /\
  Player.invincible (player s0) = Player.invincible (player s) /\
  Player.invincible_timer (player s0) = Player.invincible_timer (player s) /\
  Player.alive (player s0) = Player.alive (player s) /\
  Player.sprite (player s0) = Player.sprite (player s) /\
  Player.jump_requested (player s0) = Player.jump_requested (player s).
Proof.
  unfold poll_keys, update_music, play_music.
  destruct (negb (music_started s) && music_enabled s);
    [destruct (music_ok i)|]; simpl;
    destruct (game_state_eqb (game_state s) Playing); repeat split.
Qed.


(** ** Damage and invincibility *)

(** However many enemies overlap a vulnerable player within one pass of the
    loop, exactly one life is lost. *)
Lemma fold_hit_by_once (es : list Enemy.t) (s : Session) :
  Player.invincible (player s) = false ->
  existsb (fun e => Rect.colliderect (Player.rect (player s)) (Enemy.rect e))
    es = true ->
  lives (fold_left hit_by es s) = lives s - 1.
Proof.
  revert s. induction es as [|e rest IH]; intros s Hi Hex; simpl in *.
  - discriminate.
  - destruct (Rect.colliderect (Player.rect (player s)) (Enemy.rect e)) eqn:C.
    + destruct (hit_by_vulnerable s e Hi C) as (L & I & _).
      rewrite fold_hit_by_invincible by exact I. exact L.
    + assert (E : hit_by s e = s) by (unfold hit_by; rewrite C; reflexivity).
      rewrite E. apply IH; assumption.
Qed.




(** ** Coins *)

(** The integer test agrees with the comparison of the real square root. *)
Lemma sqrt_ltb_spec (n t : Z) :
  0 <= n -> sqrt_ltb n t = true <-> (sqrt (IZR n) < IZR t)%R.
Proof.
  intro Hn. unfold sqrt_ltb. rewrite andb_true_iff, !Z.ltb_lt.
  assert (Hn' : (0 <= IZR n)%R) by (apply IZR_le; exact Hn).
  split.
  - intros [Ht Hlt].
    assert (Ht' : (0 <= IZR t)%R) by (apply IZR_le; lia).
    rewrite <- (sqrt_square (IZR t) Ht'), <- mult_IZR.
    apply sqrt_lt_1_alt. split; [exact Hn' | apply IZR_lt; exact Hlt].
  - intro H. pose proof (sqrt_pos (IZR n)) as Hp.
    assert (Ht : 0 < t) by (apply lt_IZR; Lra.lra).
    split; [exact Ht|].
    destruct (Z_lt_le_dec n (t * t)) as [|Hge]; [assumption|exfalso].
    assert (Ht' : (0 <= IZR t)%R) by (apply IZR_le; lia).
    apply IZR_le in Hge. rewrite mult_IZR in Hge.
    apply sqrt_le_1_alt in Hge. rewrite (sqrt_square _ Ht') in Hge.
    Lra.lra.
Qed.

Lemma dist2_distance (c : Coin.t) (p : Player.t) :
  sqrt (IZR (Coin.dist2 c p)) = distance c p.
Proof.
  unfold distance, Coin.dist2. f_equal.
  rewrite plus_IZR, !Z.pow_2_r, !mult_IZR, !minus_IZR. simpl. ring.
Qed.

Lemma dist2_nonneg (c : Coin.t) (p : Player.t) : 0 <= Coin.dist2 c p.
Proof. unfold Coin.dist2. nia. Qed.

Lemma update_keeps_distance (d : Q) (c : Coin.t) (p : Player.t) :
  Coin.dist2 (Coin.update d c) p = Coin.dist2 c p /\
  Coin.radius (Coin.update d c) = Coin.radius c /\
  Coin.collected (Coin.update d c) = Coin.collected c.
Proof. repeat split. Qed.

(** The pickup test, in terms of the real distance. *)
Lemma check_collision_decides (p : Player.t) (c : Coin.t) :
  Coin.collected c = false ->
  ((distance c p < IZR (Coin.radius c + 20))%R ->
   Coin.check_collision p c = (true, Coin.set_collected true c)) /\
  (~ (distance c p < IZR (Coin.radius c + 20))%R ->
   Coin.check_collision p c = (false, c)).
Proof.
  intro Hc. unfold Coin.check_collision. rewrite Hc.
  rewrite <- dist2_distance.
  pose proof (sqrt_ltb_spec (Coin.dist2 c p) (Coin.radius c + 20)
                (dist2_nonneg c p)) as S.
  destruct (sqrt_ltb _ _).
  - split; [reflexivity|]. intro N. exfalso. apply N, S. reflexivity.
  - split; [|reflexivity]. intro H. apply S in H. discriminate.
Qed.

(** C6.  For an uncollected coin, [check_collision] collects it (sets
    [collected] and returns true, upon which the coin loop adds 10 to the
    score) exactly when the Euclidean distance between the coin's centre
    and the centre of the player's rectangle is strictly below the coin's
    radius plus 20; otherwise it returns false and changes neither the coin
    nor the session.  A player at distance 15 of a coin of radius 12 collects
    it. *)
Theorem check_collision_spec (p : Player.t) (c : Coin.t) :
  Coin.collected c = false ->
  (fst (Coin.check_collision p c) = true <->
   (distance c p < IZR (Coin.radius c + 20))%R) /\
  ((distance c p < IZR (Coin.radius c + 20))%R ->
   Coin.check_collision p c = (true, Coin.set_collected true c) /\
   forall i s, player s = p ->
     score (fst (collect_coin i s c)) = score s + 10 /\
     Coin.collected (snd (collect_coin i s c)) = true) /\
  (~ (distance c p < IZR (Coin.radius c + 20))%R ->
   Coin.check_collision p c = (false, c) /\
   forall i s, player s = p ->
     fst (collect_coin i s c) = s /\
     snd (collect_coin i s c) = Coin.update (dt i) c) /\
  (Coin.radius c = 12 -> distance c p = 15%R ->
   Coin.check_collision p c = (true, Coin.set_collected true c)).
Proof.
  intro Hc.
  destruct (check_collision_decides p c Hc) as [Hyes Hno].
  assert (Hloop : forall i s, player s = p ->
            collect_coin i s c =
              let '(got, c') := Coin.check_collision p (Coin.update (dt i) c) in
              if got
              then (emit (if sounds_enabled s then [SndCoin] else [])
                         (set_score (score s + 10) s), c')
              else (s, c')).
  { intros i s <-. reflexivity. }
  split; [|split; [|split]].
  - split.
    + intro H. destruct (Rlt_dec (distance c p) (IZR (Coin.radius c + 20)))
        as [L|N]; [exact L|].
      rewrite (Hno N) in H. discriminate.
    + intro L. rewrite (Hyes L). reflexivity.
  - intro L. split; [exact (Hyes L)|]. intros i s Hp.
    rewrite (Hloop i s Hp).
    destruct (check_collision_decides p (Coin.update (dt i) c) Hc) as [Hy _].
    rewrite Hy by exact L. split; reflexivity.
  - intro N. split; [exact (Hno N)|]. intros i s Hp.
    rewrite (Hloop i s Hp).
    destruct (check_collision_decides p (Coin.update (dt i) c) Hc) as [_ Hn].
    rewrite Hn by exact N. split; reflexivity.
  - intros Hr Hd. apply Hyes. rewrite Hd, Hr. apply IZR_lt. reflexivity.
Qed.

Lemma near_coin_distance : distance near_coin (player started) = 15%R.
Proof.
  unfold distance.
  change (Rect.centerx (Player.rect (player started))) with 120.
  change (Rect.centery (Player.rect (player started))) with 425.
  change (Coin.x near_coin) with 129. change (Coin.y near_coin) with 437.
  replace ((129 - 120) ^ 2 + (437 - 425) ^ 2)%R with (15 * 15)%R by Lra.lra.
  apply sqrt_square. Lra.lra.
Qed.

Lemma check_collision_spec_witness :
  Coin.check_collision (player started) near_coin
    = (true, Coin.set_collected true near_coin) /\
  score (fst (collect_coin idle_frame started near_coin)) = 10.
Proof.
  pose proof (check_collision_spec (player started) near_coin eq_refl)
    as (_ & Hyes & _ & H15).
  split.
  - apply H15; [reflexivity | exact near_coin_distance].
  - apply Hyes; [|reflexivity].
    rewrite near_coin_distance. apply IZR_lt. reflexivity.
Defined.

Lemma hit_by_frame (s : Session) (e : Enemy.t) :
  coins (hit_by s e) = coins s /\ score (hit_by s e) = score s /\
  game_state (hit_by s e) = game_state s /\
  (Player.alive (player s) = false -> Player.alive (player (hit_by s e)) = false) /\
  Player.sprite (player (hit_by s e)) = Player.sprite (player s) /\
  Player.jump_requested (player (hit_by s e)) = Player.jump_requested (player s).
Proof.
  unfold hit_by, Player.take_damage.
  destruct (Rect.colliderect _ _); [|repeat split; auto].
  destruct (negb (Player.invincible (player s))); simpl; [|repeat split; auto].
  destruct (lives s - 1 <=? 0); repeat split; auto.
Qed.

Lemma check_enemies_frame (s : Session) :
  coins (check_enemies s) = coins s /\ score (check_enemies s) = score s /\
  game_state (check_enemies s) = game_state s /\
  Player.sprite (player (check_enemies s)) = Player.sprite (player s) /\
  Player.jump_requested (player (check_enemies s)) =
    Player.jump_requested (player s).
Proof.
  unfold check_enemies. destruct (Player.alive (player s)); [|repeat split].
  generalize (enemies s) as es. intro es. revert s.
  induction es as [|e rest IH]; intro s; simpl; [repeat split|].
  destruct (IH (hit_by s e)) as (A & B & C & D & E).
  destruct (hit_by_frame s e) as (A' & B' & C' & _ & D' & E').
  repeat split; congruence.
Qed.

(** The coin loop never clears a [collected] flag. *)
Lemma collect_coins_monotone (i : tick_input) (cs : list Coin.t) (s : Session) :
  Forall2 (fun c c' => Coin.collected c = true -> Coin.collected c' = true)
    cs (snd (collect_coins i s cs)).
Proof.
  revert s. induction cs as [|c rest IH]; intro s; simpl; [constructor|].
  unfold collect_coin at 1. unfold Coin.check_collision at 1.
  change (Coin.collected (Coin.update (dt i) c)) with (Coin.collected c).
  destruct (Coin.collected c) eqn:Hc.
  - specialize (IH s). destruct (collect_coins i s rest). simpl.
    constructor; [intros _; exact Hc | exact IH].
  - destruct (sqrt_ltb _ _).
    + match goal with
      | |- context [collect_coins i ?s1 rest] => specialize (IH s1);
          destruct (collect_coins i s1 rest)
      end. simpl. constructor; [intros _; reflexivity | exact IH].
    + specialize (IH s). destruct (collect_coins i s rest). simpl.
      constructor; [intro H; congruence | exact IH].
Qed.

Lemma Forall2_collected_refl (cs : list Coin.t) :
  Forall2 (fun c c' => Coin.collected c = true -> Coin.collected c' = true)
    cs cs.
Proof. induction cs; constructor; auto. Qed.

Lemma update_coins_coins (i : tick_input) (s : Session) :
  coins (update_coins i s) = snd (collect_coins i s (coins s)).
Proof.
  unfold update_coins. destruct (collect_coins i s (coins s)); reflexivity.
Qed.

Lemma update_monotone (i : tick_input) (s : Session) :
  Forall2 (fun c c' => Coin.collected c = true -> Coin.collected c' = true)
    (coins s) (coins (update i s)).
Proof.
  unfold update.
  destruct (polled_frame i s) as (_ & _ & _ & Pc & _).
  set (s0 := poll_keys i (update_music i s)) in *.
  rewrite <- Pc. clearbody s0.
  destruct (game_state s0); simpl; try apply Forall2_collected_refl.
  unfold update_playing.
  destruct (check_game_over_frame
              (check_win (check_enemies
                 (update_coins i (update_enemies i (update_player i s0))))))
    as (_ & _ & -> & _).
  destruct (check_win_frame
              (check_enemies
                 (update_coins i (update_enemies i (update_player i s0)))))
    as (_ & _ & -> & _).
  destruct (check_enemies_frame
              (update_coins i (update_enemies i (update_player i s0))))
    as (-> & _).
  rewrite update_coins_coins. simpl.
  destruct (update_player_frame i s0) as (_ & _ & -> & _).
  apply collect_coins_monotone.
Qed.

(** C5.  The [collected] flag only ever goes from false to true: neither
    [Coin.update], nor [check_collision], nor a whole frame of the session
    clears it, and the key and mouse-move handlers do not touch the coins.  On a coin that is already collected, [check_collision]
    returns false and leaves the coin unchanged for every player, however
    often it is repeated, and the coin loop leaves the session, hence the
    score, unchanged. *)
Theorem collected_monotone :
  (forall d c, Coin.collected (Coin.update d c) = Coin.collected c) /\
  (forall p c, Coin.collected c = true ->
     Coin.collected (snd (Coin.check_collision p c)) = true) /\
  (forall i s,
     Forall2 (fun c c' => Coin.collected c = true -> Coin.collected c' = true)
       (coins s) (coins (update i s))) /\
  (forall key pos s,
     coins (on_key_down key s) = coins s /\
     coins (on_mouse_move pos s) = coins s) /\
  (forall p c, Coin.collected c = true ->
     Coin.check_collision p c = (false, c)) /\
  (forall players c, Coin.collected c = true -> recollide players c = c) /\
  (forall ticks s c, Coin.collected c = true ->
     fst (recheck ticks s c) = s /\
     score (fst (recheck ticks s c)) = score s /\
     Coin.collected (snd (recheck ticks s c)) = true).
Proof.
  assert (Hno : forall p c, Coin.collected c = true ->
                  Coin.check_collision p c = (false, c)).
  { intros p c Hc. unfold Coin.check_collision. rewrite Hc. reflexivity. }
  split; [reflexivity|].
  split; [intros p c Hc; rewrite (Hno p c Hc); exact Hc|].
  split; [exact update_monotone|].
  split.
  { intros key pos s. split; [|reflexivity].
    unfold on_key_down. destruct (game_state s), key; reflexivity. }
  split; [exact Hno|].
  split.
  - intros players c Hc. unfold recollide.
    induction players as [|p rest IH]; simpl; [reflexivity|].
    rewrite (Hno p c Hc). exact IH.
  - intros ticks s c Hc. unfold recheck. revert c Hc.
    induction ticks as [|i rest IH]; intros c Hc; simpl.
    + repeat split. exact Hc.
    + unfold collect_coin at 2 4 6.
      rewrite (Hno (player s) (Coin.update (dt i) c) Hc). simpl.
      apply IH. exact Hc.
Qed.

Lemma collected_monotone_witness :
  Coin.check_collision (player started) spent_coin = (false, spent_coin) /\
  recollide [player started; player initial] spent_coin = spent_coin /\
  score (fst (recheck [idle_frame; idle_frame] started spent_coin)) = 0.
Proof.
  destruct collected_monotone as (_ & _ & _ & _ & Hno & Hrep & Hloop).
  split; [|split].
  - apply Hno. reflexivity.
  - apply Hrep. reflexivity.
  - apply (Hloop [idle_frame; idle_frame] started spent_coin). reflexivity.
Defined.

(** ** What [move] preserves *)

Section Drive.

Import AnimatedSprite.

Lemma same_drive_refl (s : t) : same_drive s s.
Proof. repeat split. Qed.

Lemma same_drive_trans (a b c : t) :
  same_drive a b -> same_drive b c -> same_drive a c.
Proof.
  unfold same_drive. intros (A1 & A2 & A3 & A4 & A5) (B1 & B2 & B3 & B4 & B5).
  repeat split; congruence.
Qed.

Lemma apply_gravity_drive (s : t) : same_drive s (apply_gravity s).
Proof.
  unfold apply_gravity. destruct (negb (on_ground s)); [|apply same_drive_refl].
  destruct (Qgtb _ _); repeat split.
Qed.

Lemma collide_x_drive (s : t) (pl : Rect.t) : same_drive s (collide_x s pl).
Proof.
  unfold collide_x. destruct (Rect.colliderect _ _); [|apply same_drive_refl].
  destruct (vx s >? 0); [repeat split|].
  destruct (vx s <? 0); repeat split.
Qed.

Lemma collide_y_drive (s : t) (pl : Rect.t) : same_drive s (collide_y s pl).
Proof.
  unfold collide_y. destruct (Rect.colliderect _ _); [|apply same_drive_refl].
  destruct (Qgtb _ _); [repeat split|].
  destruct (Qltb _ _); repeat split.
Qed.

Lemma fold_drive (f : t -> Rect.t -> t) (platforms : list Rect.t) :
  (forall s pl, same_drive s (f s pl)) ->
  forall s, same_drive s (fold_left f platforms s).
Proof.
  intro Hf. induction platforms as [|pl rest IH]; intro s; simpl.
  - apply same_drive_refl.
  - eapply same_drive_trans; [apply Hf | apply IH].
Qed.

Lemma move_drive (platforms : list Rect.t) (s : t) :
  same_drive s (move platforms s).
Proof.
  unfold move, check_collision_y, displaced, check_collision_x.
  eapply same_drive_trans; [|apply fold_drive, collide_y_drive].
  eapply same_drive_trans with (b := fold_left collide_x platforms (displace_x s));
    [|repeat split].
  eapply same_drive_trans; [|apply fold_drive, collide_x_drive].
  repeat split.
Qed.

(** The vertical pass leaves [vy] as it was or zeroes it. *)
Lemma fold_collide_y_vy (platforms : list Rect.t) (s : t) :
  vy (fold_left collide_y platforms s) = vy s \/
  vy (fold_left collide_y platforms s) = 0%Q.
Proof.
  revert s. induction platforms as [|pl rest IH]; intro s; simpl.
  - left; reflexivity.
  - destruct (IH (collide_y s pl)) as [E|E]; rewrite E; [|right; reflexivity].
    unfold collide_y. destruct (Rect.colliderect _ _); [|left; reflexivity].
    destruct (Qgtb _ _); [right; reflexivity|].
    destruct (Qltb _ _); [right|left]; reflexivity.
Qed.

End Drive.

(** ** The patrol controller *)




(** ** Level initialisation *)

(** C9.  [init_level] called twice in a row leaves the session exactly as
    one call does: both times the platforms, the enemies (positions, sizes,
    patrol bounds) and the coins are the fixed layout in the same order, the
    score is 0, the lives are 3 and the end-of-game message is empty;
    the contents do not depend on the session the call started from. *)
Theorem init_level_twice (s : Session) :
  init_level (init_level s) = init_level s /\
  platforms (init_level s) = level_platforms /\
  enemies (init_level s) = level_enemies /\
  coins (init_level s) = level_coins /\
  score (init_level s) = 0 /\
  lives (init_level s) = 3 /\
  game_over_message (init_level s) = EmptyString /\
  player (init_level s) = Player.init 100 400 /\
  platforms (init_level (init_level s)) = platforms (init_level s) /\
  enemies (init_level (init_level s)) = enemies (init_level s) /\
  coins (init_level (init_level s)) = coins (init_level s) /\
  score (init_level (init_level s)) = 0 /\
  lives (init_level (init_level s)) = 3 /\
  game_over_message (init_level (init_level s)) = EmptyString /\
  map Enemy.rect (enemies (init_level s)) =
    [Rect.mk 160 400 35 40; Rect.mk 460 350 35 40; Rect.mk 510 200 35 40] /\
  map (fun e => (Enemy.patrol_left e, Enemy.patrol_right e))
      (enemies (init_level s)) = [(150, 330); (450, 630); (500, 660)] /\
  map (fun c => (Coin.x c, Coin.y c)) (coins (init_level s)) =
    [(250, 420); (550, 370); (275, 270); (590, 220); (375, 150); (700, 500)].
Proof. destruct s. vm_compute. repeat split. Qed.

(** A level that has been played is reset to the same contents. *)
Lemma init_level_forgets (s1 s2 : Session) :
  platforms (init_level s1) = platforms (init_level s2) /\
  enemies (init_level s1) = enemies (init_level s2) /\
  coins (init_level s1) = coins (init_level s2) /\
  score (init_level s1) = score (init_level s2) /\
  lives (init_level s1) = lives (init_level s2) /\
  player (init_level s1) = player (init_level s2).
Proof. repeat split. Qed.

(** ** The player's animation *)

Section PlayerStages.

Variables (snd_on : bool) (d : Q) (platforms : list Rect.t).

(** The body on which the animation test is made. *)
Lemma update_stages (p : Player.t) :
  Player.alive p = true ->
  fst (Player.update snd_on d platforms p) =
    Player.check_fall
      (Player.animate d
         (Player.physics platforms
            (fst (Player.try_jump snd_on
                    (Player.steer (Player.tick_invincibility d p)))))).
Proof.
  intro Ha. unfold Player.update. rewrite Ha. simpl.
  destruct (Player.try_jump _ _). reflexivity.
Qed.

Lemma tick_invincibility_sprite (p : Player.t) :
  Player.sprite (Player.tick_invincibility d p) = Player.sprite p /\
  Player.move_left (Player.tick_invincibility d p) = Player.move_left p /\
  Player.move_right (Player.tick_invincibility d p) = Player.move_right p /\
  Player.jump_requested (Player.tick_invincibility d p) = Player.jump_requested p /\
  Player.alive (Player.tick_invincibility d p) = Player.alive p.
Proof.
  unfold Player.tick_invincibility.
  destruct (Player.invincible p); [|repeat split].
  destruct (Qle_bool _ _); repeat split.
Qed.

(** Before the animation step only [vx] and the facing have been driven by
    the input; the animation state is still that of the previous tick. *)
Lemma physics_drive (p : Player.t) :
  let r := Player.physics platforms
             (fst (Player.try_jump snd_on
                     (Player.steer (Player.tick_invincibility d p)))) in
  Player.vx r =
    (if Player.move_right p then 4 else if Player.move_left p then -4 else 0) /\
  AnimatedSprite.animation_timer (Player.sprite r) =
    AnimatedSprite.animation_timer (Player.sprite p) /\
  AnimatedSprite.animation_frame (Player.sprite r) =
    AnimatedSprite.animation_frame (Player.sprite p) /\
  AnimatedSprite.animation_speed (Player.sprite r) =
    AnimatedSprite.animation_speed (Player.sprite p).
Proof.
  intro r. unfold r, Player.physics, Player.vx. simpl.
  match goal with
  | |- context [AnimatedSprite.move platforms (AnimatedSprite.apply_gravity ?s)] =>
      pose proof (same_drive_trans _ _ _ (apply_gravity_drive s)
                    (move_drive platforms (AnimatedSprite.apply_gravity s)))
        as (Dvx & _ & Dfm & Dtm & Dsp);
      rewrite Dvx, Dfm, Dtm, Dsp
  end.
  destruct (tick_invincibility_sprite p) as (Ts & Tl & Tr & _).
  unfold Player.try_jump, Player.steer.
  rewrite Tl, Tr, Ts.
  destruct (_ && _); simpl;
    destruct (Player.move_right p), (Player.move_left p); repeat split.
Qed.

End PlayerStages.

(** C7, as the code has it.  In an update tick of a living player the
    horizontal velocity is the one chosen from the input flags, and the
    animation is advanced by [update_animation] exactly when that velocity is
    non-zero or the player is airborne once [move] has run; otherwise the
    animation timer and the frame counter keep their values. *)
Theorem player_animation_spec (snd_on : bool) (d : Q)
    (platforms : list Rect.t) (p : Player.t) :
  Player.alive p = true ->
  let p' := fst (Player.update snd_on d platforms p) in
  Player.vx p' =
    (if Player.move_right p then 4 else if Player.move_left p then -4 else 0) /\
  (Player.vx p' <> 0 \/ Player.on_ground p' = false ->
   Player.animation_timer p' =
     AnimatedSprite.animation_timer
       (AnimatedSprite.update_animation d (Player.sprite p)) /\
   Player.animation_frame p' =
     AnimatedSprite.animation_frame
       (AnimatedSprite.update_animation d (Player.sprite p))) /\
  (Player.vx p' = 0 -> Player.on_ground p' = true ->
   Player.animation_timer p' = Player.animation_timer p /\
   Player.animation_frame p' = Player.animation_frame p).
Proof.
  intros Ha p'. unfold p'. rewrite (update_stages snd_on d platforms p Ha).
  destruct (physics_drive snd_on d platforms p) as (Hvx & Ht & Hf & Hs).
  set (r := Player.physics platforms _) in *. clearbody r.
  assert (Hfall : forall q, Player.sprite (Player.check_fall q) = Player.sprite q).
  { intro q. unfold Player.check_fall. destruct (_ >? _); reflexivity. }
  unfold Player.vx, Player.on_ground, Player.animation_timer,
    Player.animation_frame in *.
  rewrite Hfall.
  assert (Hup : AnimatedSprite.animation_timer
                  (AnimatedSprite.update_animation d (Player.sprite r)) =
                AnimatedSprite.animation_timer
                  (AnimatedSprite.update_animation d (Player.sprite p)) /\
                AnimatedSprite.animation_frame
                  (AnimatedSprite.update_animation d (Player.sprite r)) =
                AnimatedSprite.animation_frame
                  (AnimatedSprite.update_animation d (Player.sprite p)) /\
                AnimatedSprite.vx
                  (AnimatedSprite.update_animation d (Player.sprite r)) =
                AnimatedSprite.vx (Player.sprite r) /\
                AnimatedSprite.on_ground
                  (AnimatedSprite.update_animation d (Player.sprite r)) =
                AnimatedSprite.on_ground (Player.sprite r)).
  { unfold AnimatedSprite.update_animation. rewrite Ht, Hf, Hs.
    destruct (Qgeb _ _); repeat split. }
  destruct Hup as (Ut & Uf & Uvx & Uog).
  unfold Player.animate, Player.vx, Player.on_ground.
  destruct (AnimatedSprite.vx (Player.sprite r) =? 0) eqn:Ez;
    destruct (AnimatedSprite.on_ground (Player.sprite r)) eqn:Eg; simpl;
    rewrite ?Uvx, ?Uog, ?Eg.
  - apply Z.eqb_eq in Ez. split; [exact Hvx|]. split.
    + intros [N|N]; [contradiction | discriminate].
    + intros _ _. split; assumption.
  - split; [exact Hvx|]. split; [intros _; split; assumption|].
    intros _ N; discriminate.
  - apply Z.eqb_neq in Ez. split; [exact Hvx|].
    split; [intros _; split; assumption|]. intros N; contradiction.
  - split; [exact Hvx|]. split; [intros _; split; assumption|].
    intros _ N; discriminate.
Qed.

Lemma player_animation_spec_witness :
  Player.animation_timer
    (fst (Player.update true (1 # 60) level_platforms walking_lander)) =
  AnimatedSprite.animation_timer
    (AnimatedSprite.update_animation (1 # 60) (Player.sprite walking_lander)) /\
  Player.animation_timer
    (fst (Player.update true (1 # 60) level_platforms silent_lander)) =
  Player.animation_timer silent_lander.
Proof.
  split.
  - apply (proj1 (proj2 (player_animation_spec true (1 # 60) level_platforms
                           walking_lander eq_refl))).
    left. vm_compute. discriminate.
  - apply (proj2 (proj2 (player_animation_spec true (1 # 60) level_platforms
                           silent_lander eq_refl))); reflexivity.
Defined.

(** The claim with [vy] in place of [vx] fails on the code.  A player who
    lands while walking ends the tick with [vy = 0] and on the ground, yet
    its animation timer has moved; a player who lands without walking starts
    the tick airborne with [vy <> 0], yet its animation is frozen. *)
Lemma animation_vy_counterexample :
  (Player.alive walking_lander = true /\
   let p' := fst (Player.update true (1 # 60) level_platforms walking_lander) in
   (Player.vy p' == 0)%Q /\ Player.on_ground p' = true /\
   ~ (Player.animation_timer p' == Player.animation_timer walking_lander)%Q) /\
  (Player.alive silent_lander = true /\
   ~ (Player.vy silent_lander == 0)%Q /\
   Player.on_ground silent_lander = false /\
   let q' := fst (Player.update true (1 # 60) level_platforms silent_lander) in
   Player.animation_timer q' = Player.animation_timer silent_lander /\
   Player.animation_frame q' = Player.animation_frame silent_lander).
Proof.
  split.
  - split; [reflexivity|]. vm_compute. repeat split; discriminate.
  - split; [reflexivity|]. vm_compute. repeat split; discriminate.
Qed.

(** ** Jump buffering *)

Lemma steer_keeps (p : Player.t) :
  Player.jump_requested (Player.steer p) = Player.jump_requested p /\
  Player.on_ground (Player.steer p) = Player.on_ground p /\
  AnimatedSprite.vy (Player.sprite (Player.steer p)) = Player.vy p /\
  Player.rect (Player.steer p) = Player.rect p.
Proof.
  unfold Player.steer. destruct (Player.move_left p), (Player.move_right p);
    repeat split.
Qed.

Lemma tail_keeps_jump (d : Q) (platforms : list Rect.t) (q : Player.t) :
  Player.jump_requested
    (Player.check_fall (Player.animate d (Player.physics platforms q))) =
  Player.jump_requested q.
Proof.
  unfold Player.check_fall, Player.animate.
  destruct (_ >? _); destruct (_ || _); reflexivity.
Qed.

Lemma update_jump_flag (snd_on : bool) (d : Q) (platforms : list Rect.t)
    (p : Player.t) :
  Player.jump_requested (fst (Player.update snd_on d platforms p)) =
    if Player.alive p
    then Player.jump_requested p && negb (Player.on_ground p)
    else Player.jump_requested p.
Proof.
  destruct (Player.alive p) eqn:Ha; [|rewrite update_dead by exact Ha; reflexivity].
  rewrite (update_stages snd_on d platforms p Ha), tail_keeps_jump.
  destruct (tick_invincibility_sprite d p) as (Ts & _ & _ & Tj & _).
  destruct (steer_keeps (Player.tick_invincibility d p)) as (Sj & Sg & _).
  unfold Player.try_jump. rewrite Sj, Sg, Tj.
  unfold Player.on_ground. rewrite Ts.
  destruct (Player.jump_requested p) eqn:Ej,
           (AnimatedSprite.on_ground (Player.sprite p)); simpl;
    try reflexivity; congruence.
Qed.

(** While the game is being played the player is alive. *)
Lemma playing_alive (s : Session) :
  reachable s -> game_state s = Playing -> Player.alive (player s) = true.
Proof.
  induction 1 as [|s e s' Hr IH Hstep]; [discriminate|].
  destruct e as [i|key|ok pos|pos]; simpl in Hstep.
  - injection Hstep as <-. unfold update.
    destruct (polled_frame i s) as (Pg & _).
    set (s0 := poll_keys i (update_music i s)) in *. clearbody s0.
    destruct (game_state s0) eqn:G0.
    + simpl. rewrite G0. discriminate.
    + unfold update_playing.
      set (x := check_win _). unfold check_game_over.
      destruct (Player.alive (player x)) eqn:E; simpl;
        [intros _; exact E | discriminate].
    + rewrite G0. discriminate.
    + rewrite G0. discriminate.
  - injection Hstep as <-. unfold on_key_down.
    destruct (game_state s) eqn:G; destruct key; simpl;
      try discriminate; try (rewrite G; discriminate);
      intros _; apply IH; reflexivity.
  - unfold on_mouse_down in Hstep.
    destruct (game_state s) eqn:G;
      try (injection Hstep as <-; rewrite G; discriminate);
      try (injection Hstep as <-; intros _; apply IH; reflexivity).
    assert (Loop : forall bs n a a',
              (game_state a = Playing -> Player.alive (player a) = true) ->
              click_buttons ok pos n bs a = Some a' ->
              game_state a' = Playing -> Player.alive (player a') = true).
    { induction bs as [|b rest IHb]; intros n a a' Inv Hc; simpl in Hc.
      - injection Hc as <-. exact Inv.
      - destruct (Button.is_clicked pos b); [|eapply IHb; eassumption].
        destruct (press_button ok n a) as [a1|] eqn:P; [|discriminate].
        eapply IHb; [|exact Hc].
        clear Hc IHb. unfold press_button in P.
        destruct n as [|[|[|[|n]]]]; try discriminate;
          injection P as <-; unfold play_music;
          repeat match goal with
                 | |- context [if ?c then _ else _] => destruct c
                 end; simpl; solve [intros _; reflexivity | exact Inv]. }
    eapply Loop; [|exact Hstep]. rewrite G. discriminate.
  - injection Hstep as <-. simpl. exact IH.
Qed.

(** The jump flag across one frame of the session. *)
Lemma update_jump_session (i : tick_input) (s : Session) :
  Player.jump_requested (player (update i s)) =
    if game_state_eqb (game_state s) Playing && Player.alive (player s)
    then Player.jump_requested (player s) && negb (Player.on_ground (player s))
    else Player.jump_requested (player s).
Proof.
  unfold update.
  destruct (polled_frame i s) as (Pg & _ & _ & _ & _ & _ & Pa & Ps & Pj).
  set (s0 := poll_keys i (update_music i s)) in *.
  unfold Player.on_ground. rewrite <- Pg, <- Pa, <- Ps, <- Pj. clearbody s0.
  destruct (game_state s0); simpl; try reflexivity.
  unfold update_playing.
  destruct (check_game_over_frame
              (check_win (check_enemies
                 (update_coins i (update_enemies i (update_player i s0))))))
    as (-> & _).
  destruct (check_win_frame
              (check_enemies
                 (update_coins i (update_enemies i (update_player i s0)))))
    as (-> & _).
  destruct (check_enemies_frame
              (update_coins i (update_enemies i (update_player i s0))))
    as (_ & _ & _ & _ & ->).
  destruct (update_coins_frame i (update_enemies i (update_player i s0)))
    as (-> & _).
  simpl.
  destruct (update_player_frame i s0) as (-> & _).
  apply update_jump_flag.
Qed.

Lemma tail_keeps_vy (d : Q) (q : Player.t) :
  Player.vy (Player.check_fall (Player.animate d q)) = Player.vy q /\
  Player.rect (Player.check_fall (Player.animate d q)) = Player.rect q.
Proof.
  unfold Player.check_fall, Player.animate, Player.vy, Player.rect.
  destruct (_ || _); simpl.
  - unfold AnimatedSprite.update_animation.
    destruct (Qgeb _ _); simpl; destruct (_ >? _); split; reflexivity.
  - destruct (_ >? _); split; reflexivity.
Qed.

(** C10.  A jump requested in mid-air is not discarded: the update of an
    airborne player leaves [jump_requested] set, and it stays set over any
    run of frames that all start with the player airborne.  On the first
    frame that starts with the (living) player on the ground the jump is
    executed: [vy] is set to -12, the flag is cleared, and the move of that
    frame is made with the new velocity (which a platform overhead may zero). *)
Theorem jump_is_buffered :
  (forall snd_on d platforms p,
     Player.jump_requested p = true -> Player.on_ground p = false ->
     Player.jump_requested (fst (Player.update snd_on d platforms p)) = true) /\
  (forall snd_on d platforms p,
     Player.alive p = true ->
     Player.jump_requested p = true -> Player.on_ground p = true ->
     let q := Player.steer (Player.tick_invincibility d p) in
     let launched :=
       Player.set_jump_requested false
         (Player.set_sprite
            (AnimatedSprite.set_vy (inject_Z (-12)) (Player.sprite q)) q) in
     let p' := fst (Player.update snd_on d platforms p) in
     Player.update snd_on d platforms p =
       (Player.check_fall (Player.animate d (Player.physics platforms launched)),
        if snd_on then [SndJump] else []) /\
     Player.jump_requested p' = false /\
     (Player.vy p' = inject_Z (-12) \/ Player.vy p' = 0%Q) /\
     (platforms = [] ->
      Player.vy p' = inject_Z (-12) /\
      Rect.y (Player.rect p') = Rect.y (Player.rect p) - 12)) /\
  (forall ticks s,
     Player.jump_requested (player s) = true ->
     airborne_during ticks s ->
     Player.jump_requested (player (run_ticks ticks s)) = true) /\
  (forall i s,
     reachable s -> game_state s = Playing ->
     Player.jump_requested (player s) = true ->
     Player.on_ground (player s) = true ->
     Player.jump_requested (player (update i s)) = false).
Proof.
  split; [|split; [|split]].
  - intros snd_on d platforms p Hj Hg.
    rewrite update_jump_flag, Hj, Hg. destruct (Player.alive p); reflexivity.
  - intros snd_on d platforms p Ha Hj Hg q launched p'.
    destruct (tick_invincibility_sprite d p) as (Ts & _ & _ & Tj & _).
    destruct (steer_keeps (Player.tick_invincibility d p)) as (Sj & Sg & Svy & Sr).
    assert (Hq : Player.jump_requested q && Player.on_ground q = true).
    { unfold q. rewrite Sj, Sg, Tj. unfold Player.on_ground in *.
      rewrite Ts, Hj, Hg. reflexivity. }
    assert (Hup : Player.update snd_on d platforms p =
                  (Player.check_fall
                     (Player.animate d (Player.physics platforms launched)),
                   if snd_on then [SndJump] else [])).
    { unfold Player.update. rewrite Ha. simpl. unfold Player.try_jump.
      fold q. rewrite Hq. reflexivity. }
    split; [exact Hup|].
    unfold p'. rewrite Hup. simpl.
    split; [apply tail_keeps_jump|].
    destruct (tail_keeps_vy d (Player.physics platforms launched)) as [-> ->].
    assert (Hog : AnimatedSprite.on_ground (Player.sprite launched) = true).
    { unfold launched; simpl. apply andb_true_iff in Hq. apply Hq. }
    assert (Hgrav : AnimatedSprite.apply_gravity (Player.sprite launched)
                    = Player.sprite launched).
    { unfold AnimatedSprite.apply_gravity. rewrite Hog. reflexivity. }
    unfold Player.vy, Player.rect.
    change (Player.sprite (Player.physics platforms launched))
      with (AnimatedSprite.move platforms
              (AnimatedSprite.apply_gravity (Player.sprite launched))).
    rewrite Hgrav.
    split.
    + unfold AnimatedSprite.move, AnimatedSprite.check_collision_y.
      destruct (fold_collide_y_vy platforms
                  (AnimatedSprite.set_on_ground false
                     (AnimatedSprite.displaced platforms (Player.sprite launched))))
        as [E|E]; [left|right; exact E].
      rewrite E.
      destruct (fold_collide_x_keeps platforms
                  (AnimatedSprite.displace_x (Player.sprite launched)))
        as (Kv & _).
      etransitivity; [exact Kv | reflexivity].
    + intros ->. split; [reflexivity|].
      assert (Hy : Rect.y (AnimatedSprite.rect (Player.sprite q)) =
                   Rect.y (AnimatedSprite.rect (Player.sprite p))).
      { unfold Player.rect in Sr. unfold q. rewrite Sr, Ts. reflexivity. }
      change (Rect.y (AnimatedSprite.rect
                        (AnimatedSprite.move [] (Player.sprite launched))))
        with (Qround (inject_Z (Rect.y (AnimatedSprite.rect (Player.sprite q)))
                      + inject_Z (-12))).
      rewrite Hy, <- inject_Z_plus.
      rewrite Qround_inject_Z. lia.
  - induction ticks as [|i rest IH]; intros s Hj Hair; simpl.
    + exact Hj.
    + destruct Hair as [Hg Hrest]. apply IH; [|exact Hrest].
      rewrite update_jump_session, Hj, Hg. destruct (_ && _); reflexivity.
  - intros i s Hr Hp Hj Hg.
    rewrite update_jump_session, Hp, (playing_alive s Hr Hp), Hj, Hg.
    reflexivity.
Qed.

Lemma reachable_run (ticks : list tick_input) (s : Session) :
  reachable s -> reachable (run_ticks ticks s).
Proof.
  revert s. induction ticks as [|i rest IH]; intros s Hr; simpl.
  - exact Hr.
  - apply IH. eapply reach_step with (e := EvUpdate i); [exact Hr | reflexivity].
Qed.

Lemma pressed_in_air_reachable : reachable pressed_in_air.
Proof.
  eapply reach_step with (e := EvKeyDown SPACE) (s := clicked_start);
    [|vm_compute; reflexivity].
  eapply reach_step with (e := EvMouseDown true (400, 220)) (s := initial);
    [apply reach_initial | vm_compute; reflexivity].
Qed.

Lemma jump_is_buffered_witness :
  Player.jump_requested
    (fst (Player.update true (1 # 60) level_platforms eager_faller)) = true /\
  Player.jump_requested
    (fst (Player.update true (1 # 60) level_platforms eager_stander)) = false /\
  Player.jump_requested (player (run_ticks fall_frames pressed_in_air)) = true /\
  Player.jump_requested
    (player (update idle_frame (run_ticks fall_frames pressed_in_air))) = false.
Proof.
  destruct jump_is_buffered as (Ha & Hb & Hc & Hd).
  split; [|split; [|split]].
  - apply Ha; reflexivity.
  - apply (Hb true (1 # 60) level_platforms eager_stander); reflexivity.
  - apply Hc; [vm_compute; reflexivity | vm_compute; repeat split].
  - apply Hd.
    + apply reachable_run, pressed_in_air_reachable.
    + vm_compute; reflexivity.
    + vm_compute; reflexivity.
    + vm_compute; reflexivity.
Defined.

(** ** Winning and losing *)

(** C1.  At the end of an update tick of the playing state in which every
    coin is collected: a living player has won, and the message is
    ["You Won! Score: "] followed by the final score in decimal; a dead
    player, whether dead from a fall or from the last life lost on this very
    tick, gets the game-over state and never the win. *)
Theorem win_or_game_over (i : tick_input) (s : Session) :
  game_state s = Playing ->
  all_collected (coins (update i s)) = true ->
  (Player.alive (player (update i s)) = true ->
   game_state (update i s) = Win /\
   game_over_message (update i s) =
     ("You Won! Score: " ++ str_of_int (score (update i s)))%string) /\
  (Player.alive (player (update i s)) = false ->
   game_state (update i s) = GameOver).
Proof.
  intro Hp. unfold update.
  destruct (polled_frame i s) as (Pg & _).
  set (s0 := poll_keys i (update_music i s)) in *.
  rewrite Hp in Pg. rewrite Pg. unfold update_playing.
  set (s4 := check_enemies _). clearbody s4.
  unfold check_game_over, check_win, win_message.
  destruct (all_collected (coins s4)) eqn:Hc,
           (Player.alive (player s4)) eqn:Ha; simpl;
    rewrite ?Ha, ?Hc; simpl; rewrite ?Ha, ?Hc;
    intros H; split; intro A; try discriminate; try congruence;
    repeat split.
Qed.

Lemma win_or_game_over_witness :
  (game_state (update idle_frame last_coin_session) = Win /\
   game_over_message (update idle_frame last_coin_session) =
     "You Won! Score: 10"%string) /\
  game_state (update idle_frame last_coin_fatal) = GameOver.
Proof.
  split.
  - destruct (win_or_game_over idle_frame last_coin_session)
      as [Hwin _]; [vm_compute; reflexivity | vm_compute; reflexivity |].
    destruct Hwin as [Hs Hm]; [vm_compute; reflexivity|].
    split; [exact Hs|]. rewrite Hm. vm_compute. reflexivity.
  - destruct (win_or_game_over idle_frame last_coin_fatal)
      as [_ Hdead]; [vm_compute; reflexivity | vm_compute; reflexivity |].
    apply Hdead. vm_compute; reflexivity.
Defined.

(** * Further properties of the physics core *)

(** ** Horizontal collision *)

Section HorizontalPass.

Import AnimatedSprite.

Lemma set_rect_x_eta (s : t) :
  set_rect (Rect.set_x (Rect.x (rect s)) (rect s)) s = s.
Proof. destruct s as [[x y w h] ? ? ? ? ? ? ?]. reflexivity. Qed.

Lemma fold_collide_x_only_x (platforms : list Rect.t) (s : t) :
  exists x', fold_left collide_x platforms s =
             set_rect (Rect.set_x x' (rect s)) s.
Proof.
  revert s. induction platforms as [|pl rest IH]; intro s; simpl.
  - exists (Rect.x (rect s)). symmetry. apply set_rect_x_eta.
  - destruct (IH (collide_x s pl)) as [x' E]. exists x'. rewrite E.
    unfold collide_x. destruct (Rect.colliderect _ _); [|reflexivity].
    destruct (vx s >? 0); [reflexivity|].
    destruct (vx s <? 0); reflexivity.
Qed.

(** X1.  The horizontal pass only ever changes the [x] coordinate of the
    body; it does nothing at all to a body with [vx = 0], even one that
    overlaps a platform; and when a moving body overlaps a platform (both of
    positive size) the snap puts the leading edge on the platform's near edge,
    after which the two no longer overlap. *)
Theorem check_collision_x_spec :
  (forall platforms s, exists x',
     check_collision_x platforms s = set_rect (Rect.set_x x' (rect s)) s) /\
  (forall platforms s, vx s = 0 -> check_collision_x platforms s = s) /\
  (forall s pl,
     0 < Rect.w (rect s) -> 0 < Rect.h (rect s) ->
     0 < Rect.w pl -> 0 < Rect.h pl ->
     Rect.colliderect (rect s) pl = true ->
     (0 < vx s ->
      Rect.right (rect (collide_x s pl)) = Rect.left pl /\
      Rect.colliderect (rect (collide_x s pl)) pl = false) /\
     (vx s < 0 ->
      Rect.left (rect (collide_x s pl)) = Rect.right pl /\
      Rect.colliderect (rect (collide_x s pl)) pl = false)).
Proof.
  split; [intros; apply fold_collide_x_only_x|].
  split.
  - intros platforms s Hz. unfold check_collision_x.
    induction platforms as [|pl rest IH]; simpl; [reflexivity|].
    assert (E : collide_x s pl = s).
    { unfold collide_x. rewrite Hz. simpl.
      destruct (Rect.colliderect _ _); reflexivity. }
    rewrite E. exact IH.
  - intros s pl Hw Hh Hpw Hph Hc. split; intro Hv; unfold collide_x; rewrite Hc.
    + replace (vx s >? 0) with true by (symmetry; apply Z.gtb_lt; lia).
      split.
      * unfold Rect.right, Rect.left; simpl. lia.
      * rewrite colliderect_positive by (simpl; assumption).
        unfold Rect.right, Rect.left, Rect.top, Rect.bottom; simpl.
        apply andb_false_iff. left. apply andb_false_iff. right.
        rewrite Z.gtb_ltb. apply Z.ltb_ge. lia.
    + replace (vx s >? 0) with false
        by (symmetry; rewrite Z.gtb_ltb; apply Z.ltb_ge; lia).
      replace (vx s <? 0) with true by (symmetry; apply Z.ltb_lt; lia).
      split.
      * reflexivity.
      * rewrite colliderect_positive by (simpl; assumption).
        unfold Rect.right, Rect.left, Rect.top, Rect.bottom; simpl.
        apply andb_false_iff. left. apply andb_false_iff. left.
        apply andb_false_iff. left. apply Z.ltb_ge. lia.
Qed.

End HorizontalPass.

Lemma check_collision_x_spec_witness :
  AnimatedSprite.check_collision_x [wall] resting = resting /\
  Rect.right (AnimatedSprite.rect (AnimatedSprite.collide_x pushing_right wall))
    = 130 /\
  Rect.colliderect
    (AnimatedSprite.rect (AnimatedSprite.collide_x pushing_right wall)) wall
    = false.
Proof.
  destruct check_collision_x_spec as (_ & Hstill & Hsnap).
  split.
  - apply Hstill. reflexivity.
  - apply (Hsnap pushing_right wall); vm_compute; reflexivity.
Defined.

(** ** Grounding *)

Section Grounding.

Import AnimatedSprite.

Lemma fold_collide_y_grounded (platforms : list Rect.t) (s : t) :
  on_ground (fold_left collide_y platforms s) = true ->
  on_ground s = true \/
  ((0 < vy s)%Q /\ vy (fold_left collide_y platforms s) = 0%Q).
Proof.
  revert s. induction platforms as [|pl rest IH]; intros s Hg; simpl in *.
  - left; exact Hg.
  - destruct (IH _ Hg) as [G|[Hpos Hz]].
    + unfold collide_y in G |- *.
      destruct (Rect.colliderect (rect s) pl); [|left; exact G].
      destruct (Qgtb (vy s) 0) eqn:E.
      * right. split; [apply Qgtb_true; exact E|].
        rewrite fold_collide_y_still by reflexivity. reflexivity.
      * destruct (Qltb (vy s) 0); left; exact G.
    + right. unfold collide_y in Hpos, Hz |- *.
      destruct (Rect.colliderect (rect s) pl); [|split; assumption].
      destruct (Qgtb (vy s) 0); [discriminate Hpos|].
      destruct (Qltb (vy s) 0); [discriminate Hpos|]. split; assumption.
Qed.

(** X2.  The vertical pass reports a body grounded only when it landed in
    that very pass: the body entered with [vy > 0] and leaves with [vy = 0].
    A body that enters at rest or rising is never grounded, whatever it
    touches; and after a landing or a bump on a platform (both of positive
    size) the body no longer overlaps that platform. *)
Theorem grounded_only_by_landing :
  (forall platforms s,
     on_ground (check_collision_y platforms s) = true ->
     (0 < vy s)%Q /\ vy (check_collision_y platforms s) = 0%Q) /\
  (forall platforms s,
     (vy s <= 0)%Q -> on_ground (check_collision_y platforms s) = false) /\
  (forall s pl,
     0 < Rect.w (rect s) -> 0 < Rect.h (rect s) ->
     0 < Rect.w pl -> 0 < Rect.h pl ->
     Rect.colliderect (rect s) pl = true ->
     ~ (vy s == 0)%Q ->
     Rect.colliderect (rect (collide_y s pl)) pl = false).
Proof.
  assert (H1 : forall platforms s,
            on_ground (check_collision_y platforms s) = true ->
            (0 < vy s)%Q /\ vy (check_collision_y platforms s) = 0%Q).
  { intros platforms s Hg. unfold check_collision_y in *.
    destruct (fold_collide_y_grounded _ _ Hg) as [G|H]; [discriminate G|exact H]. }
  split; [exact H1|]. split.
  - intros platforms s Hv.
    destruct (on_ground (check_collision_y platforms s)) eqn:G; [|reflexivity].
    destruct (H1 _ _ G) as [Hpos _]. exfalso.
    apply (Qlt_irrefl 0). eapply Qlt_le_trans; eassumption.
  - intros s pl Hw Hh Hpw Hph Hc Hnz. unfold collide_y. rewrite Hc.
    destruct (Qgtb (vy s) 0) eqn:G.
    + rewrite colliderect_positive by (simpl; assumption).
      apply andb_false_iff. right. rewrite Z.gtb_ltb. apply Z.ltb_ge.
      unfold land_on, Rect.bottom, Rect.top, Rect.set_bottom; simpl. lia.
    + destruct (Qltb (vy s) 0) eqn:L.
      * rewrite colliderect_positive by (simpl; assumption).
        apply andb_false_iff. left. apply andb_false_iff. left.
        apply andb_false_iff. right. apply Z.ltb_ge.
        unfold bump_under, Rect.bottom, Rect.top, Rect.set_top; simpl. lia.
      * exfalso. apply Hnz. apply Qle_antisym.
        -- apply Qgtb_false. exact G.
        -- apply Qnot_lt_le. intro H. apply Qltb_true in H. congruence.
Qed.

End Grounding.

Lemma grounded_only_by_landing_witness :
  AnimatedSprite.vy
    (AnimatedSprite.check_collision_y level_platforms
       (AnimatedSprite.displaced level_platforms
          (AnimatedSprite.apply_gravity about_to_land))) = 0%Q /\
  AnimatedSprite.on_ground
    (AnimatedSprite.check_collision_y level_platforms rising) = false.
Proof.
  destruct grounded_only_by_landing as (Hland & Hrise & _).
  split.
  - apply Hland. vm_compute. reflexivity.
  - apply Hrise. vm_compute. discriminate.
Defined.

(** ** Animation timing *)



(** ** Velocity bounds *)

Section Velocity.

Import AnimatedSprite.

Lemma update_animation_body (d : Q) (s : t) :
  rect (update_animation d s) = rect s /\ vx (update_animation d s) = vx s /\
  vy (update_animation d s) = vy s /\
  on_ground (update_animation d s) = on_ground s /\
  facing_right (update_animation d s) = facing_right s /\
  animation_speed (update_animation d s) = animation_speed s.
Proof. unfold update_animation. destruct (Qgeb _ _); repeat split. Qed.

Lemma apply_gravity_range (lo : Q) (s : t) :
  (lo <= 0)%Q -> (lo <= vy s)%Q -> (vy s <= MAX_FALL)%Q ->
  (lo <= vy (apply_gravity s))%Q /\ (vy (apply_gravity s) <= MAX_FALL)%Q.
Proof.
  intros Hlo Hl Hu. unfold apply_gravity.
  destruct (negb (on_ground s)); [|split; assumption].
  destruct (Qgtb (vy s + GRAVITY) MAX_FALL) eqn:E; simpl.
  - split; [|apply Qle_refl].
    apply Qle_trans with (y := 0%Q); [exact Hlo | discriminate].
  - apply Qgtb_false in E. split; [|exact E].
    unfold GRAVITY. Lqa.lra.
Qed.

(** Gravity followed by [move] keeps a body inside its speed range and
    leaves it grounded only at rest. *)
Lemma physics_velocity (lo : Q) (platforms : list Rect.t) (s : t) :
  (lo <= 0)%Q -> (lo <= vy s)%Q -> (vy s <= MAX_FALL)%Q ->
  velocity_ok lo (move platforms (apply_gravity s)).
Proof.
  intros Hlo Hl Hu.
  destruct (apply_gravity_range lo s Hlo Hl Hu) as [Gl Gu].
  set (g := apply_gravity s) in *. clearbody g.
  unfold move, check_collision_y.
  assert (Hd : vy (set_on_ground false (displaced platforms g)) = vy g).
  { destruct (fold_collide_x_keeps platforms (displace_x g)) as (Kv & _).
    etransitivity; [exact Kv | reflexivity]. }
  set (b := set_on_ground false (displaced platforms g)) in *.
  assert (Hb : on_ground b = false) by reflexivity. clearbody b.
  unfold velocity_ok.
  destruct (fold_collide_y_vy platforms b) as [E|E].
  - rewrite E, Hd. split; [exact Gl|]. split; [exact Gu|].
    intro G. destruct (fold_collide_y_grounded platforms b G) as [G'|[_ Z]];
      [congruence|]. rewrite <- Hd, <- E, Z. reflexivity.
  - rewrite E. split; [exact Hlo|]. split; [discriminate|]. reflexivity.
Qed.

End Velocity.

Lemma player_update_velocity (snd_on : bool) (d : Q)
    (platforms : list Rect.t) (p : Player.t) :
  velocity_ok JUMP_STRENGTH (Player.sprite p) ->
  velocity_ok JUMP_STRENGTH
    (Player.sprite (fst (Player.update snd_on d platforms p))).
Proof.
  intros Hok.
  destruct (Player.alive p) eqn:Ha;
    [|rewrite update_dead by exact Ha; exact Hok].
  rewrite (update_stages snd_on d platforms p Ha).
  destruct Hok as (Hl & Hu & _).
  destruct (tick_invincibility_sprite d p) as (Ts & _).
  destruct (steer_keeps (Player.tick_invincibility d p)) as (_ & _ & Svy & _).
  set (q := Player.steer (Player.tick_invincibility d p)) in *.
  assert (Hq : AnimatedSprite.vy (Player.sprite q) = AnimatedSprite.vy (Player.sprite p)).
  { rewrite Svy. unfold Player.vy. rewrite Ts. reflexivity. }
  clearbody q.
  set (p1 := fst (Player.try_jump snd_on q)).
  assert (H1 : (JUMP_STRENGTH <= AnimatedSprite.vy (Player.sprite p1))%Q /\
               (AnimatedSprite.vy (Player.sprite p1) <= MAX_FALL)%Q).
  { unfold p1, Player.try_jump. destruct (_ && _); simpl.
    - split; [apply Qle_refl | discriminate].
    - rewrite Hq. split; assumption. }
  clearbody p1. destruct H1 as [L1 U1].
  pose proof (physics_velocity JUMP_STRENGTH platforms (Player.sprite p1)
                ltac:(discriminate) L1 U1) as V.
  assert (E : Player.sprite
                (Player.check_fall (Player.animate d (Player.physics platforms p1)))
              = Player.sprite (Player.animate d (Player.physics platforms p1))).
  { unfold Player.check_fall. destruct (_ >? _); reflexivity. }
  rewrite E. unfold Player.animate, Player.physics.
  destruct (_ || _); simpl; [|exact V].
  destruct (update_animation_body d
              (AnimatedSprite.move platforms
                 (AnimatedSprite.apply_gravity (Player.sprite p1))))
    as (_ & _ & Ev & Eg & _).
  unfold velocity_ok. rewrite Ev, Eg. exact V.
Qed.

Lemma enemy_update_velocity (d : Q) (platforms : list Rect.t) (e : Enemy.t) :
  velocity_ok 0 (Enemy.sprite e) ->
  velocity_ok 0 (Enemy.sprite (Enemy.update d platforms e)).
Proof.
  intros (Hl & Hu & _).
  assert (Hs : AnimatedSprite.vy (Enemy.sprite (Enemy.steer e)) =
               AnimatedSprite.vy (Enemy.sprite e)).
  { unfold Enemy.steer. destruct (_ <=? _); [reflexivity|].
    destruct (_ >=? _); reflexivity. }
  pose proof (physics_velocity 0 platforms (Enemy.sprite (Enemy.steer e))
                ltac:(apply Qle_refl)
                ltac:(rewrite Hs; exact Hl) ltac:(rewrite Hs; exact Hu)) as V.
  unfold Enemy.update. simpl.
  destruct (update_animation_body d
              (AnimatedSprite.move platforms
                 (AnimatedSprite.apply_gravity (Enemy.sprite (Enemy.steer e)))))
    as (_ & _ & Ev & Eg & _).
  unfold velocity_ok. rewrite Ev, Eg. exact V.
Qed.

(** * Further properties of the session *)

(** ** The shape of the loops *)

(** Reduction of the session setters and projections, leaving arithmetic
    as it is written. *)
Ltac session_red :=
  unfold update_enemies;
  unfold outcome, emit, set_game_state, set_music, set_sounds_enabled,
    set_score, set_lives, set_game_over_message, set_player, set_enemies,
    set_coins, set_platforms, set_buttons, set_mouse_pos;
  cbn [game_state music_enabled sounds_enabled score lives game_over_message
       music_started player enemies coins platforms buttons mouse_pos
       audio_log fst snd].

Lemma outcome_same (s : Session) :
  outcome (score s) (lives s) (game_over_message s) (player s) [] s = s.
Proof. destruct s. unfold outcome. simpl. rewrite app_nil_r. reflexivity. Qed.

Lemma outcome_outcome (sc l sc' l' : Z) (m m' : string) (p p' : Player.t)
    (evs evs' : list audio) (s : Session) :
  outcome sc' l' m' p' evs' (outcome sc l m p evs s) =
  outcome sc' l' m' p' (evs ++ evs') s.
Proof. unfold outcome. simpl. rewrite app_assoc. reflexivity. Qed.

(** The coin loop in closed form: every coin is tested against the same
    player, each coin taken is worth 10, and only coin sounds are played. *)
Lemma collect_coins_closed (i : tick_input) (cs : list Coin.t) (s : Session) :
  snd (collect_coins i s cs) = map (coin_after (dt i) (player s)) cs /\
  exists evs,
    fst (collect_coins i s cs) =
      outcome (score s +
               10 * Z.of_nat (List.length
                                (filter (coin_taken (dt i) (player s)) cs)))
              (lives s) (game_over_message s) (player s) evs s /\
    Forall (fun a => a = SndCoin) evs /\
    (sounds_enabled s = false -> evs = []).
Proof.
  revert s. induction cs as [|c rest IH]; intro s.
  - simpl. split; [reflexivity|]. exists []. split; [|split; [constructor|reflexivity]].
    rewrite Z.add_0_r. symmetry. apply outcome_same.
  - cbn [collect_coins map filter].
    unfold collect_coin, coin_taken at 1, coin_after at 1.
    destruct (Coin.check_collision (player s) (Coin.update (dt i) c))
      as [got c'] eqn:E. cbn [fst snd].
    destruct got.
    + assert (E1 : emit (if sounds_enabled s then [SndCoin] else [])
                        (set_score (score s + 10) s) =
                   outcome (score s + 10) (lives s) (game_over_message s)
                     (player s) (if sounds_enabled s then [SndCoin] else []) s)
        by reflexivity.
      rewrite E1.
      set (s1 := outcome (score s + 10) (lives s) (game_over_message s)
                   (player s) (if sounds_enabled s then [SndCoin] else []) s).
      destruct (IH s1) as [Hs (evs & Hf & Ha & Hq)].
      destruct (collect_coins i s1 rest) as [s2 rest'] eqn:E2.
      cbn [fst snd] in Hs, Hf |- *. split; [rewrite Hs; reflexivity|].
      exists ((if sounds_enabled s then [SndCoin] else []) ++ evs).
      split; [|split].
      * rewrite Hf.
        change (score s1) with (score s + 10).
        change (lives s1) with (lives s).
        change (game_over_message s1) with (game_over_message s).
        change (player s1) with (player s).
        unfold s1. rewrite outcome_outcome.
        f_equal. cbn [List.length]. rewrite Nat2Z.inj_succ. lia.
      * apply Forall_app. split; [|exact Ha].
        destruct (sounds_enabled s); repeat constructor.
      * intro Hoff. rewrite Hoff. simpl. apply Hq. exact Hoff.
    + destruct (IH s) as [Hs (evs & Hf & Ha & Hq)].
      destruct (collect_coins i s rest) as [s2 rest'] eqn:E2.
      cbn [fst snd] in Hs, Hf |- *. split; [rewrite Hs; reflexivity|].
      exists evs. split; [exact Hf|]. split; assumption.
Qed.

Lemma coin_step_cases (d : Q) (p : Player.t) (c : Coin.t) :
  (Coin.collected c = true /\ coin_taken d p c = false /\
   Coin.collected (coin_after d p c) = true) \/
  (Coin.collected c = false /\ coin_taken d p c = true /\
   Coin.collected (coin_after d p c) = true) \/
  (Coin.collected c = false /\ coin_taken d p c = false /\
   Coin.collected (coin_after d p c) = false).
Proof.
  unfold coin_taken, coin_after, Coin.check_collision.
  change (Coin.collected (Coin.update d c)) with (Coin.collected c).
  destruct (Coin.collected c) eqn:Hc.
  - left. repeat split. exact Hc.
  - right. destruct (sqrt_ltb _ _); [left|right]; repeat split. exact Hc.
Qed.

(** Each coin leaves the loop with one fewer coin left if it was taken. *)
Lemma coins_left_after (d : Q) (p : Player.t) (cs : list Coin.t) :
  coins_left cs =
    Z.of_nat (List.length (filter (coin_taken d p) cs)) +
    coins_left (map (coin_after d p) cs).
Proof.
  unfold coins_left. induction cs as [|c rest IH]; [reflexivity|].
  cbn [filter map].
  destruct (coin_step_cases d p c) as [(A & B & C)|[(A & B & C)|(A & B & C)]];
    rewrite A, B, C; cbn [negb List.length]; rewrite ?Nat2Z.inj_succ; lia.
Qed.

Lemma coin_after_place (d : Q) (p : Player.t) (cs : list Coin.t) :
  map coin_place (map (coin_after d p) cs) = map coin_place cs.
Proof.
  induction cs as [|c rest IH]; [reflexivity|]. simpl. rewrite IH. f_equal.
  unfold coin_after, Coin.check_collision.
  destruct (Coin.collected _); [reflexivity|].
  destruct (sqrt_ltb _ _); reflexivity.
Qed.

(** One enemy either leaves the session alone or hurts a vulnerable player
    it overlaps. *)
Lemma hit_by_shape (s : Session) (e : Enemy.t) :
  hit_by s e = s \/
  (Player.invincible (player s) = false /\
   Rect.colliderect (Player.rect (player s)) (Enemy.rect e) = true /\
   hit_by s e =
     outcome (score s) (lives s - 1)
       (if lives s - 1 <=? 0 then lose_message else game_over_message s)
       (hurt (lives s - 1) (player s))
       (if sounds_enabled s then [SndHit] else []) s).
Proof.
  destruct (Player.invincible (player s)) eqn:Hi;
    [left; apply hit_by_invincible; exact Hi|].
  unfold hit_by, Player.take_damage. rewrite Hi.
  destruct (Rect.colliderect _ _); [right|left; reflexivity].
  split; [reflexivity|]. split; [reflexivity|].
  unfold outcome, hurt. cbn.
  destruct (lives s - 1 <=? 0); reflexivity.
Qed.

Lemma fold_hit_by_shape (es : list Enemy.t) (s : Session) :
  fold_left hit_by es s = s \/
  (Player.invincible (player s) = false /\
   existsb (fun e => Rect.colliderect (Player.rect (player s)) (Enemy.rect e))
     es = true /\
   fold_left hit_by es s =
     outcome (score s) (lives s - 1)
       (if lives s - 1 <=? 0 then lose_message else game_over_message s)
       (hurt (lives s - 1) (player s))
       (if sounds_enabled s then [SndHit] else []) s).
Proof.
  induction es as [|e rest IH]; [left; reflexivity|]. cbn [fold_left existsb].
  destruct (hit_by_shape s e) as [E|(Hi & Hc & E)]; rewrite E.
  - destruct IH as [IH|(Hi & Hex & IH)]; [left; exact IH|right].
    split; [exact Hi|]. split; [rewrite Hex; apply orb_true_r|exact IH].
  - right. split; [exact Hi|]. split; [rewrite Hc; reflexivity|].
    apply fold_hit_by_invincible. unfold outcome, hurt. cbn.
    destruct (lives s - 1 <=? 0); reflexivity.
Qed.

(** The enemy loop either changes nothing or costs a living, vulnerable
    player that touches an enemy exactly one life. *)
Lemma check_enemies_shape (s : Session) :
  check_enemies s = s \/
  (Player.alive (player s) = true /\
   Player.invincible (player s) = false /\ touching s = true /\
   check_enemies s =
     outcome (score s) (lives s - 1)
       (if lives s - 1 <=? 0 then lose_message else game_over_message s)
       (hurt (lives s - 1) (player s))
       (if sounds_enabled s then [SndHit] else []) s).
Proof.
  unfold check_enemies, touching.
  destruct (Player.alive (player s)) eqn:Ha; [|left; reflexivity].
  destruct (fold_hit_by_shape (enemies s) s) as [E|(Hi & Hex & E)];
    [left; exact E|right]. repeat split; assumption.
Qed.

(** The three update loops of the playing branch, in closed form. *)
Lemma loops_shape (i : tick_input) (s : Session) :
  exists evs,
    update_coins i (update_enemies i (update_player i s)) = after_loops i evs s /\
    Forall (fun a => a = SndJump \/ a = SndCoin) evs /\
    (sounds_enabled s = false -> evs = []).
Proof.
  unfold update_player, after_loops.
  assert (Hlog : snd (Player.update (sounds_enabled s) (dt i) (platforms s) (player s))
                 = [] \/
                 (sounds_enabled s = true /\
                  snd (Player.update (sounds_enabled s) (dt i) (platforms s) (player s))
                  = [SndJump])).
  { unfold Player.update. destruct (negb _); [left; reflexivity|].
    unfold Player.try_jump. destruct (_ && _); [|left; reflexivity].
    destruct (sounds_enabled s); [right; split; reflexivity | left; reflexivity]. }
  destruct (Player.update (sounds_enabled s) (dt i) (platforms s) (player s))
    as [p log]. cbn [fst snd] in *.
  set (s2 := update_enemies i (emit log (set_player p s))).
  unfold update_coins.
  destruct (collect_coins_closed i (coins s2) s2) as [Hs (evs & Hf & Ha & Hq)].
  destruct (collect_coins i s2 (coins s2)) as [s3 cs]. cbn [fst snd] in Hs, Hf.
  exists (log ++ evs). split; [|split].
  - rewrite Hf, Hs. unfold s2. session_red.
    rewrite <- app_assoc.
    rewrite (coins_left_after (dt i) p (coins s)).
    f_equal. lia.
  - apply Forall_app. split.
    + destruct Hlog as [->|[_ ->]]; repeat constructor.
    + eapply Forall_impl; [|exact Ha]. intros a ->. right; reflexivity.
  - intro Hoff. rewrite (Hq Hoff), app_nil_r.
    destruct Hlog as [->|[Hon _]]; [reflexivity|congruence].
Qed.

(** ** Reachable sessions *)

(** A property of the initial session that every handler preserves holds
    of every reachable session. *)
Lemma reachable_invariant (P : Session -> Prop) :
  P initial ->
  (forall i s, P s -> P (update i s)) ->
  (forall key s, P s -> P (on_key_down key s)) ->
  (forall ok n s s', P s -> press_button ok n s = Some s' -> P s') ->
  (forall pos s, P s -> P (on_mouse_move pos s)) ->
  forall s, reachable s -> P s.
Proof.
  intros H0 Hu Hk Hb Hm s Hr.
  induction Hr as [|s e s' Hr IH Hstep]; [exact H0|].
  destruct e as [i|key|ok pos|pos]; simpl in Hstep.
  - injection Hstep as <-. apply Hu, IH.
  - injection Hstep as <-. apply Hk, IH.
  - unfold on_mouse_down in Hstep.
    assert (Loop : forall bs n a a',
              P a -> click_buttons ok pos n bs a = Some a' -> P a').
    { induction bs as [|b rest IHb]; intros n a a' Pa Hc; simpl in Hc.
      - injection Hc as <-. exact Pa.
      - destruct (Button.is_clicked pos b); [|eapply IHb; eassumption].
        destruct (press_button ok n a) as [a1|] eqn:E; [|discriminate].
        eapply IHb; [|exact Hc]. eapply Hb; eassumption. }
    destruct (game_state s).
    + eapply Loop; eassumption.
    + injection Hstep as <-. exact IH.
    + injection Hstep as <-. exact IH.
    + injection Hstep as <-. exact IH.
  - injection Hstep as <-. apply Hm, IH.
Qed.

(** The player survives its update exactly when it has not fallen more than
    100 units below the screen. *)
Lemma update_alive (snd_on : bool) (d : Q) (platforms : list Rect.t)
    (p : Player.t) :
  Player.alive p = true ->
  let p' := fst (Player.update snd_on d platforms p) in
  Player.alive p' = negb (Rect.y (Player.rect p') >? HEIGHT + 100).
Proof.
  intros Ha p'. unfold p'. rewrite (update_stages snd_on d platforms p Ha).
  destruct (tick_invincibility_sprite d p) as (_ & _ & _ & _ & Ta).
  set (q := Player.steer (Player.tick_invincibility d p)).
  assert (Hq : Player.alive q = true) by (unfold q; simpl; congruence).
  clearbody q.
  set (p1 := fst (Player.try_jump snd_on q)).
  assert (H1 : Player.alive p1 = true).
  { unfold p1, Player.try_jump. destruct (_ && _); simpl; exact Hq. }
  clearbody p1.
  set (r := Player.animate d (Player.physics platforms p1)).
  assert (Hr : Player.alive r = true).
  { unfold r, Player.animate. destruct (_ || _); simpl; exact H1. }
  clearbody r. unfold Player.check_fall.
  destruct (Rect.y (Player.rect r) >? HEIGHT + 100) eqn:E.
  - change (Player.rect (Player.set_alive false r)) with (Player.rect r).
    rewrite E. reflexivity.
  - rewrite E. exact Hr.
Qed.

(** [session_ok] only looks at the state of the game, the counters, the
    message, the player's body and life, the enemies, the coins and the
    buttons. *)
Lemma session_ok_core (s t : Session) :
  game_state t = game_state s -> score t = score s -> lives t = lives s ->
  game_over_message t = game_over_message s ->
  Player.sprite (player t) = Player.sprite (player s) ->
  Player.alive (player t) = Player.alive (player s) ->
  enemies t = enemies s -> coins t = coins s -> buttons t = buttons s ->
  session_ok s -> session_ok t.
Proof.
  unfold session_ok, Player.rect.
  intros -> -> -> -> -> -> -> -> -> H. exact H.
Qed.

(** Music and key polling leave all of that alone. *)
Lemma polled_core (i : tick_input) (s : Session) :
  let t := poll_keys i (update_music i s) in
  game_state t = game_state s /\ score t = score s /\ lives t = lives s /\
  game_over_message t = game_over_message s /\
  Player.sprite (player t) = Player.sprite (player s) /\
  Player.alive (player t) = Player.alive (player s) /\
  enemies t = enemies s /\ coins t = coins s /\ buttons t = buttons s.
Proof.
  destruct s as [gs me se sc li ms mst pl en co plat bu mp al].
  unfold poll_keys, update_music, play_music.
  cbn [music_started music_enabled negb].
  destruct mst, me; cbn [negb andb]; try destruct (music_ok i);
    destruct gs; cbn; repeat split.
Qed.

Lemma session_ok_polled (i : tick_input) (s : Session) :
  session_ok s -> session_ok (poll_keys i (update_music i s)).
Proof.
  destruct (polled_core i s) as (A & B & C & D & E & F & G & H & I).
  apply session_ok_core; assumption.
Qed.

Lemma mid_tick_after_loops (i : tick_input) (evs : list audio) (s : Session) :
  session_ok s -> game_state s = Playing -> mid_tick_ok (after_loops i evs s).
Proof.
  intros (Hv & He & Hs & Hl & Hb & Hg) Hp. rewrite Hp in Hg.
  destruct Hg as (Ha & Hl1 & Hm & Hc).
  unfold mid_tick_ok, after_loops.
  cbn [game_state score lives game_over_message player enemies coins buttons].
  split; [apply player_update_velocity; exact Hv|].
  split.
  { apply Forall_map. eapply Forall_impl; [|exact He].
    intros e. apply enemy_update_velocity. }
  split.
  { rewrite Hs, length_map. lia. }
  split; [lia|]. split; [exact Hb|]. split; [exact Hp|]. split; [exact Hm|].
  split; [rewrite coin_after_place; exact Hc|].
  apply update_alive. exact Ha.
Qed.

Lemma fallen_dead (p : Player.t) :
  false = negb (Rect.y (Player.rect p) >? HEIGHT + 100) ->
  HEIGHT + 100 < Rect.y (Player.rect p).
Proof.
  intros E. symmetry in E. apply negb_false_iff in E.
  apply Z.gtb_lt in E. exact E.
Qed.

(** The five components of [session_ok] that do not depend on the state
    of the game, then the one that does. *)
Ltac ok_common :=
  unfold session_ok; session_red;
  split; [assumption|]; split; [assumption|]; split; [assumption|];
  split; [lia|]; split; [assumption|].

(** From the state between the loops and the contacts to the end of the
    frame. *)
Lemma session_ok_finish (s : Session) :
  mid_tick_ok s ->
  session_ok (check_game_over (check_win (check_enemies s))).
Proof.
  intros (Hv & He & Hs & Hl & Hb & Hg & Hm & Hc & Hal).
  destruct (check_enemies_shape s) as [E|(Ha & Hi & Ht & E)]; rewrite E.
  - unfold check_game_over, check_win.
    destruct (all_collected (coins s)) eqn:Hall,
             (Player.alive (player s)) eqn:Ha;
      cbn [andb]; session_red; rewrite ?Ha; cbn [negb]; session_red;
      ok_common; rewrite ?Hg.
    + repeat split; assumption.
    + split; [assumption|]. split; [assumption|].
      right. split; [lia|]. split; [assumption|].
      apply fallen_dead; assumption.
    + repeat split; try assumption; lia.
    + split; [assumption|]. split; [assumption|].
      right. split; [lia|]. split; [assumption|].
      apply fallen_dead; assumption.
  - unfold check_game_over, check_win, hurt.
    destruct (lives s - 1 <=? 0) eqn:L.
    + apply Z.leb_le in L. session_red.
      cbn [Player.alive Player.set_alive]. rewrite andb_false_r.
      session_red. cbn [Player.alive Player.set_alive negb]. session_red.
      ok_common.
      split; [reflexivity|]. split; [assumption|].
      left. split; [lia|reflexivity].
    + apply Z.leb_gt in L. session_red.
      cbn [Player.alive Player.set_invincible]. rewrite Ha.
      destruct (all_collected (coins s)) eqn:Hall; cbn [andb]; session_red;
        cbn [Player.alive Player.set_invincible]; rewrite Ha; cbn [negb];
        ok_common; rewrite ?Hg;
        repeat split; try assumption; lia.
Qed.

Lemma session_ok_update (i : tick_input) (s : Session) :
  session_ok s -> session_ok (update i s).
Proof.
  intro H. unfold update.
  pose proof (session_ok_polled i s H) as H0.
  set (s0 := poll_keys i (update_music i s)) in *. clearbody s0.
  destruct (game_state s0) eqn:G; try exact H0.
  - destruct H0 as (Hv & He & Hs & Hl & Hb & _).
    unfold update_menu, session_ok. session_red. rewrite G.
    split; [exact Hv|]. split; [exact He|]. split; [exact Hs|].
    split; [exact Hl|]. split; [|exact I].
    rewrite map_map. exact Hb.
  - unfold update_playing.
    destruct (loops_shape i s0) as (evs & -> & _).
    apply session_ok_finish, mid_tick_after_loops; assumption.
Qed.

Lemma session_ok_initial : session_ok initial.
Proof.
  unfold session_ok. split; [|split; [|split; [|split; [|split]]]].
  - vm_compute. repeat split; discriminate.
  - constructor.
  - reflexivity.
  - vm_compute. split; discriminate.
  - reflexivity.
  - exact I.
Qed.

Lemma session_ok_key (key : key_t) (s : Session) :
  session_ok s -> session_ok (on_key_down key s).
Proof.
  destruct s as [gs me se sc li ms mst pl en co plat bu mp al].
  unfold on_key_down, session_ok. cbn.
  destruct gs, key; cbn; intros (Hv & He & Hs & Hl & Hb & Hg);
    (split; [exact Hv|]; split; [exact He|]; split; [exact Hs|];
     split; [exact Hl|]; split; [exact Hb|]); first [exact Hg | exact I].
Qed.

Lemma init_level_fields (s : Session) :
  player (init_level s) = Player.init 100 400 /\
  enemies (init_level s) = level_enemies /\
  coins (init_level s) = level_coins /\
  platforms (init_level s) = level_platforms /\
  score (init_level s) = 0 /\ lives (init_level s) = 3 /\
  game_over_message (init_level s) = EmptyString /\
  buttons (init_level s) = buttons s /\
  game_state (init_level s) = game_state s /\
  music_enabled (init_level s) = music_enabled s /\
  sounds_enabled (init_level s) = sounds_enabled s /\
  music_started (init_level s) = music_started s /\
  mouse_pos (init_level s) = mouse_pos s /\
  audio_log (init_level s) = audio_log s.
Proof. destruct s. vm_compute. repeat split. Qed.

Lemma session_ok_level (s : Session) :
  session_ok s -> session_ok (set_game_state Playing (init_level s)).
Proof.
  intros (_ & _ & _ & _ & Hb & _).
  destruct (init_level_fields s)
    as (Fp & Fe & Fc & _ & Fs & Fl & Fm & Fb & _).
  set (t := init_level s) in *. clearbody t.
  destruct t as [gs me se sc li ms mst pl en co plat bu mp al].
  cbn in Fp, Fe, Fc, Fs, Fl, Fm, Fb. subst.
  unfold session_ok, set_game_state.
  cbn [game_state score lives game_over_message player enemies coins buttons].
  split; [vm_compute; repeat split; discriminate|].
  split; [repeat constructor; vm_compute; discriminate|].
  split; [reflexivity|]. split; [vm_compute; split; discriminate|].
  split; [exact Hb|]. repeat split. vm_compute. discriminate.
Qed.

(** What a menu button leaves of the fields [session_ok] looks at. *)
Lemma press_button_core (ok : bool) (n : nat) (s s' : Session) :
  press_button ok n s = Some s' ->
  let t := match n with
           | 0%nat => set_game_state Playing (init_level s)
           | _ => s
           end in
  game_state s' = game_state t /\ score s' = score t /\ lives s' = lives t /\
  game_over_message s' = game_over_message t /\
  player s' = player t /\ enemies s' = enemies t /\ coins s' = coins t /\
  platforms s' = platforms t /\ buttons s' = buttons t /\
  mouse_pos s' = mouse_pos t.
Proof.
  intro E. unfold press_button in E.
  destruct n as [|[|[|[|n]]]]; try discriminate; injection E as <-.
  - cbv zeta. destruct (_ && _);
      set (t := set_game_state Playing (init_level s)); clearbody t;
      destruct t as [gs me se sc li ms mst pl en co plat bu mp al];
      unfold play_music; destruct ok; cbn; repeat split.
  - cbv zeta. destruct s as [gs me se sc li ms mst pl en co plat bu mp al].
    unfold play_music. cbn. destruct ok, me; cbn; repeat split.
  - destruct s as [gs me se sc li ms mst pl en co plat bu mp al].
    cbn. repeat split.
  - cbn. repeat split.
Qed.

Lemma session_ok_button (ok : bool) (n : nat) (s s' : Session) :
  session_ok s -> press_button ok n s = Some s' -> session_ok s'.
Proof.
  intros H E.
  destruct (press_button_core ok n s s' E)
    as (A & B & C & D & F & G & K & _ & L & _).
  eapply session_ok_core; try eassumption; try (rewrite F; reflexivity).
  destruct n; [apply session_ok_level|]; exact H.
Qed.

(** Every reachable session satisfies [session_ok]. *)
Lemma reachable_ok (s : Session) : reachable s -> session_ok s.
Proof.
  apply reachable_invariant.
  - exact session_ok_initial.
  - exact session_ok_update.
  - exact session_ok_key.
  - exact session_ok_button.
  - intros pos a H. exact H.
Qed.

Lemma just_landed_reachable : reachable just_landed.
Proof. apply reachable_run, pressed_in_air_reachable. Qed.

(** ** One frame on the ground *)

Lemma check_collision_y_rising (platforms : list Rect.t) (s : AnimatedSprite.t) :
  (AnimatedSprite.vy s <= 0)%Q ->
  AnimatedSprite.on_ground (AnimatedSprite.check_collision_y platforms s) = false.
Proof.
  intro Hv.
  destruct (AnimatedSprite.on_ground
              (AnimatedSprite.check_collision_y platforms s)) eqn:G;
    [|reflexivity].
  unfold AnimatedSprite.check_collision_y in G.
  destruct (fold_collide_y_grounded _ _ G) as [G'|[Hpos _]];
    [discriminate G'|].
  exfalso. apply (Qlt_irrefl 0). eapply Qlt_le_trans; [exact Hpos|exact Hv].
Qed.

Lemma update_leaves_ground (snd_on : bool) (d : Q) (platforms : list Rect.t)
    (p : Player.t) :
  Player.alive p = true -> Player.on_ground p = true ->
  (Player.vy p <= 0)%Q ->
  Player.on_ground (fst (Player.update snd_on d platforms p)) = false.
Proof.
  intros Ha Hg Hv. rewrite (update_stages snd_on d platforms p Ha).
  destruct (tick_invincibility_sprite d p) as (Ts & _).
  destruct (steer_keeps (Player.tick_invincibility d p)) as (_ & Sg & Svy & _).
  set (q := Player.steer (Player.tick_invincibility d p)) in *.
  assert (Hq : Player.on_ground q = true /\ (Player.vy q <= 0)%Q).
  { unfold Player.vy at 1. rewrite Sg, Svy. unfold Player.on_ground, Player.vy.
    rewrite Ts. split; assumption. }
  clearbody q. destruct Hq as [Qg Qv].
  set (p1 := fst (Player.try_jump snd_on q)).
  assert (H1 : Player.on_ground p1 = true /\ (Player.vy p1 <= 0)%Q).
  { unfold p1, Player.try_jump. destruct (_ && _); cbn [fst].
    - split; [exact Qg | discriminate].
    - split; assumption. }
  clearbody p1. destruct H1 as [G1 V1].
  assert (E : Player.on_ground
                (Player.check_fall (Player.animate d (Player.physics platforms p1)))
              = Player.on_ground (Player.physics platforms p1)).
  { unfold Player.check_fall, Player.animate, Player.on_ground.
    destruct (_ >? _); destruct (_ || _); cbn [Player.sprite Player.set_alive Player.set_sprite];
      try reflexivity;
      apply (update_animation_body d
               (Player.sprite (Player.physics platforms p1))). }
  rewrite E. unfold Player.physics, Player.on_ground. cbn [Player.sprite Player.set_sprite].
  assert (Hgr : AnimatedSprite.apply_gravity (Player.sprite p1) = Player.sprite p1).
  { unfold AnimatedSprite.apply_gravity. unfold Player.on_ground in G1.
    rewrite G1. reflexivity. }
  rewrite Hgr. unfold AnimatedSprite.move.
  apply check_collision_y_rising.
  destruct (fold_collide_x_keeps platforms
              (AnimatedSprite.displace_x (Player.sprite p1))) as (Kv & _).
  unfold AnimatedSprite.displaced.
  change (AnimatedSprite.vy
            (AnimatedSprite.displace_y
               (AnimatedSprite.check_collision_x platforms
                  (AnimatedSprite.displace_x (Player.sprite p1)))))
    with (AnimatedSprite.vy
            (fold_left AnimatedSprite.collide_x platforms
               (AnimatedSprite.displace_x (Player.sprite p1)))).
  rewrite Kv. exact V1.
Qed.

(** The player's body across one frame of the session. *)
Lemma update_player_sprite (i : tick_input) (s : Session) :
  game_state s = Playing ->
  Player.sprite (player (update i s)) =
    Player.sprite
      (fst (Player.update (sounds_enabled s) (dt i) (platforms s)
              (Player.set_move (key_left i || key_a i) (key_right i || key_d i)
                 (player s)))).
Proof.
  intro Hp. unfold update.
  assert (E0 : exists m st evs,
            poll_keys i (update_music i s) =
              emit evs (set_music m st
                (set_player (Player.set_move (key_left i || key_a i)
                               (key_right i || key_d i) (player s)) s))).
  { unfold poll_keys, update_music, play_music.
    destruct (negb (music_started s) && music_enabled s);
      [destruct (music_ok i)|]; session_red; rewrite Hp; cbn [game_state_eqb].
    - exists (music_enabled s), true, [MusicPlay]. reflexivity.
    - exists (music_enabled s), (music_started s), [].
      session_red. rewrite app_nil_r. reflexivity.
    - exists (music_enabled s), (music_started s), [].
      session_red. rewrite app_nil_r. reflexivity. }
  destruct E0 as (m & st & evs0 & E0). rewrite E0.
  set (s0 := emit evs0 _).
  change (game_state s0) with (game_state s). rewrite Hp.
  unfold update_playing.
  destruct (loops_shape i s0) as (evs & -> & _).
  destruct (check_game_over_frame (check_win (check_enemies (after_loops i evs s0))))
    as (-> & _).
  destruct (check_win_frame (check_enemies (after_loops i evs s0))) as (-> & _).
  destruct (check_enemies_frame (after_loops i evs s0)) as (_ & _ & _ & -> & _).
  reflexivity.
Qed.

(** X5.  Being on the ground lasts one frame.  A living player that starts
    a frame on the ground with [vy <= 0] ends it airborne, whether it jumps
    or not, because the vertical pass only grounds a falling body; in every
    reachable session, a frame of the playing state that starts with the
    player on the ground ends with the player off the ground. *)
Theorem grounded_for_one_frame :
  (forall snd_on d platforms p,
     Player.alive p = true -> Player.on_ground p = true ->
     (Player.vy p <= 0)%Q ->
     Player.on_ground (fst (Player.update snd_on d platforms p)) = false) /\
  (forall i s,
     reachable s -> game_state s = Playing ->
     Player.on_ground (player s) = true ->
     Player.on_ground (player (update i s)) = false).
Proof.
  split; [exact update_leaves_ground|].
  intros i s Hr Hp Hg.
  destruct (reachable_ok s Hr) as ((_ & _ & Hz) & _ & _ & _ & _ & Hst).
  rewrite Hp in Hst. destruct Hst as (Ha & _).
  unfold Player.on_ground at 1. rewrite (update_player_sprite i s Hp).
  apply update_leaves_ground.
  - exact Ha.
  - exact Hg.
  - unfold Player.vy. cbn [Player.sprite Player.set_move].
    rewrite (Hz Hg). apply Qle_refl.
Qed.

Lemma grounded_for_one_frame_witness :
  Player.on_ground
    (fst (Player.update true (1 # 60) level_platforms eager_stander)) = false /\
  Player.on_ground (player (update idle_frame just_landed)) = false.
Proof.
  destruct grounded_for_one_frame as [Hp Hs].
  split.
  - apply Hp; vm_compute; first [reflexivity | discriminate].
  - apply Hs; [exact just_landed_reachable | vm_compute; reflexivity ..].
Defined.

(** ** Velocities of reachable sessions *)

(** X3.  Vertical speed stays in range: the player's update keeps [vy]
    between the jump strength -12 and the terminal velocity 15, an enemy's
    update keeps it between 0 and 15, and after either update a body that is
    reported on the ground has [vy = 0]; hence all of this holds of the player
    and of every enemy in every reachable session. *)
Theorem velocity_stays_in_range :
  (forall snd_on d platforms p,
     velocity_ok JUMP_STRENGTH (Player.sprite p) ->
     velocity_ok JUMP_STRENGTH
       (Player.sprite (fst (Player.update snd_on d platforms p)))) /\
  (forall d platforms e,
     velocity_ok 0 (Enemy.sprite e) ->
     velocity_ok 0 (Enemy.sprite (Enemy.update d platforms e))) /\
  (forall s, reachable s ->
     velocity_ok JUMP_STRENGTH (Player.sprite (player s)) /\
     Forall (fun e => velocity_ok 0 (Enemy.sprite e)) (enemies s)).
Proof.
  split; [exact player_update_velocity|].
  split; [exact enemy_update_velocity|].
  intros s Hr. destruct (reachable_ok s Hr) as (Hv & He & _).
  split; assumption.
Qed.

Lemma velocity_stays_in_range_witness :
  velocity_ok JUMP_STRENGTH
    (Player.sprite (fst (Player.update true (1 # 60) level_platforms
                           eager_stander))) /\
  velocity_ok 0
    (Enemy.sprite (Enemy.update (1 # 60) level_platforms enemy_on_start)) /\
  velocity_ok JUMP_STRENGTH (Player.sprite (player just_landed)).
Proof.
  destruct velocity_stays_in_range as (Hp & He & Hr).
  split; [|split].
  - apply Hp. vm_compute. repeat split; discriminate.
  - apply He. vm_compute. repeat split; discriminate.
  - apply (Hr just_landed). exact just_landed_reachable.
Defined.

(** ** A frame of the playing state, in closed form *)

Lemma polled_shape (i : tick_input) (s : Session) :
  game_state s = Playing ->
  exists started evs0,
    poll_keys i (update_music i s) = polled i started evs0 s /\
    (evs0 = [] \/
     (evs0 = [MusicPlay] /\ music_started s = false /\
      music_enabled s = true /\ music_ok i = true)).
Proof.
  destruct s as [gs me se sc li ms mst pl en co plat bu mp al].
  cbn [game_state]. intros ->.
  unfold poll_keys, update_music, play_music, polled.
  cbn [music_started music_enabled].
  destruct mst, me; cbn [negb andb]; try destruct (music_ok i) eqn:Ho; cbn;
    first [ exists true, [MusicPlay]; split;
            [reflexivity | right; repeat split; reflexivity]
          | exists true, (@nil audio); session_red; rewrite app_nil_r; split;
            [reflexivity | left; reflexivity]
          | exists false, (@nil audio); session_red; rewrite app_nil_r; split;
            [reflexivity | left; reflexivity] ].
Qed.

Lemma update_playing_shape (i : tick_input) (s : Session) :
  game_state s = Playing ->
  exists started evs0 evs,
    update i s =
      check_game_over
        (check_win (check_enemies (after_loops i evs (polled i started evs0 s)))) /\
    (evs0 = [] \/
     (evs0 = [MusicPlay] /\ music_started s = false /\
      music_enabled s = true /\ music_ok i = true)) /\
    Forall (fun a => a = SndJump \/ a = SndCoin) evs /\
    (sounds_enabled s = false -> evs = []).
Proof.
  intro Hp. destruct (polled_shape i s Hp) as (st & evs0 & E0 & Hm).
  unfold update. rewrite E0.
  change (game_state (polled i st evs0 s)) with (game_state s). rewrite Hp.
  unfold update_playing.
  destruct (loops_shape i (polled i st evs0 s)) as (evs & -> & Ha & Hq).
  exists st, evs0, evs. repeat split; assumption.
Qed.

Lemma update_idle_shape (i : tick_input) (s : Session) :
  game_state s <> Playing ->
  exists started evs0,
    update i s =
      emit evs0
        (set_music (music_enabled s) started
           (match game_state s with
            | Menu => update_menu s
            | _ => s
            end)) /\
    (evs0 = [] \/
     (evs0 = [MusicPlay] /\ music_started s = false /\
      music_enabled s = true /\ music_ok i = true)).
Proof.
  destruct s as [gs me se sc li ms mst pl en co plat bu mp al].
  cbn [game_state music_started music_enabled]. intro Hp.
  unfold update, poll_keys, update_music, play_music, update_menu.
  cbn [music_started music_enabled].
  destruct mst, me; cbn [negb andb]; try destruct (music_ok i) eqn:Ho;
    destruct gs; try congruence; cbn;
    first [ exists true, [MusicPlay]; split;
            [reflexivity | right; repeat split; reflexivity]
          | exists true, (@nil audio); session_red; rewrite app_nil_r; split;
            [reflexivity | left; reflexivity]
          | exists false, (@nil audio); session_red; rewrite app_nil_r; split;
            [reflexivity | left; reflexivity] ].
Qed.

(** What the end of a frame does to the counters and the coins. *)
Lemma finish_frame (s : Session) :
  score (check_game_over (check_win (check_enemies s))) = score s /\
  coins (check_game_over (check_win (check_enemies s))) = coins s /\
  (lives (check_game_over (check_win (check_enemies s))) = lives s \/
   (Player.alive (player s) = true /\
    Player.invincible (player s) = false /\ touching s = true /\
    lives (check_game_over (check_win (check_enemies s))) = lives s - 1)).
Proof.
  destruct (check_game_over_frame (check_win (check_enemies s)))
    as (_ & -> & -> & -> & _).
  destruct (check_win_frame (check_enemies s)) as (_ & -> & -> & ->).
  destruct (check_enemies_frame s) as (-> & -> & _).
  split; [reflexivity|]. split; [reflexivity|].
  destruct (check_enemies_shape s) as [E|(Ha & Hi & Ht & E)]; rewrite E.
  - left; reflexivity.
  - right. repeat split; assumption.
Qed.

(** ** Score and lives *)

(** X6.  The score follows the coins.  Every frame raises the score by 10
    for each coin that leaves the HUD's count of coins left, and by nothing
    else; so in every reachable session the score is 10 times the number of
    collected coins, never negative and never above 10 per coin. *)
Theorem score_counts_coins :
  (forall i s,
     score (update i s) =
       score s + 10 * (coins_left (coins s) - coins_left (coins (update i s)))) /\
  (forall s, reachable s ->
     score s = 10 * (Z.of_nat (List.length (coins s)) - coins_left (coins s)) /\
     0 <= score s <= 10 * Z.of_nat (List.length (coins s))).
Proof.
  split.
  - intros i s. destruct (game_state s) eqn:G.
    2: { destruct (update_playing_shape i s G) as (st & evs0 & evs & -> & _).
         destruct (finish_frame (after_loops i evs (polled i st evs0 s)))
           as (-> & -> & _).
         reflexivity. }
    all: destruct (update_idle_shape i s ltac:(congruence)) as (st & evs0 & -> & _);
      rewrite G; unfold update_menu; session_red; lia.
  - intros s Hr. destruct (reachable_ok s Hr) as (_ & _ & Hs & _).
    split; [exact Hs|].
    assert (B : 0 <= coins_left (coins s) <= Z.of_nat (List.length (coins s))).
    { unfold coins_left. split; [lia|].
      apply Nat2Z.inj_le, filter_length_le. }
    lia.
Qed.

Lemma score_counts_coins_witness :
  score just_landed =
    10 * (Z.of_nat (List.length (coins just_landed)) -
          coins_left (coins just_landed)).
Proof.
  apply (proj2 score_counts_coins just_landed). exact just_landed_reachable.
Defined.

(** X7.  Lives are lost one at a time.  A frame never raises the lives and
    lowers them by at most one, and only in the playing state; in every
    reachable session the lives are between 0 and 3, and at least 1 while the
    game is being played. *)
Theorem lives_bounds :
  (forall i s,
     lives (update i s) = lives s \/
     (lives (update i s) = lives s - 1 /\ game_state s = Playing)) /\
  (forall s, reachable s ->
     0 <= lives s <= 3 /\ (game_state s = Playing -> 1 <= lives s)).
Proof.
  split.
  - intros i s. destruct (game_state s) eqn:G.
    2: { destruct (update_playing_shape i s G) as (st & evs0 & evs & -> & _).
         destruct (finish_frame (after_loops i evs (polled i st evs0 s)))
           as (_ & _ & [E|(_ & _ & _ & E)]); rewrite E;
           [left|right; split]; reflexivity. }
    all: left;
      destruct (update_idle_shape i s ltac:(congruence)) as (st & evs0 & -> & _);
      rewrite G; reflexivity.
  - intros s Hr. destruct (reachable_ok s Hr) as (_ & _ & _ & Hl & _ & Hg).
    split; [exact Hl|]. intro Hp. rewrite Hp in Hg. apply Hg.
Qed.

Lemma lives_bounds_witness :
  0 <= lives just_landed <= 3 /\ 1 <= lives just_landed.
Proof.
  destruct (proj2 lives_bounds just_landed just_landed_reachable) as [B P].
  split; [exact B|]. apply P. vm_compute. reflexivity.
Defined.

(** ** Death *)

(** X8.  Death is decided by the fall and is final.  A living player
    survives its update exactly when it ends no more than 100 units below the
    screen; a dead player is not updated, and a frame of the session leaves
    it dead, where it was, with the lives it had, and ends the playing
    state with a game over. *)
Theorem death_is_final :
  (forall snd_on d platforms p,
     Player.alive p = true ->
     let p' := fst (Player.update snd_on d platforms p) in
     Player.alive p' = true <-> Rect.y (Player.rect p') <= HEIGHT + 100) /\
  (forall snd_on d platforms p,
     Player.alive p = false -> Player.update snd_on d platforms p = (p, [])) /\
  (forall i s,
     Player.alive (player s) = false ->
     Player.alive (player (update i s)) = false /\
     Player.sprite (player (update i s)) = Player.sprite (player s) /\
     lives (update i s) = lives s /\
     (game_state s = Playing -> game_state (update i s) = GameOver)).
Proof.
  split; [|split].
  - intros snd_on d platforms p Ha p'.
    pose proof (update_alive snd_on d platforms p Ha) as E. fold p' in E.
    cbv zeta in E. rewrite E, negb_true_iff, Z.gtb_ltb, Z.ltb_ge. reflexivity.
  - intros. apply update_dead. assumption.
  - intros i s Hd. destruct (game_state s) eqn:G.
    2: { destruct (update_playing_shape i s G) as (st & evs0 & evs & -> & _).
         unfold after_loops.
         assert (Hd0 : Player.alive (player (polled i st evs0 s)) = false)
           by exact Hd.
         rewrite (update_dead _ _ _ _ Hd0). cbn [fst].
         set (s3 := mkSession _ _ _ _ _ _ _ _ _ _ _ _ _ _).
         assert (H3 : Player.alive (player s3) = false) by exact Hd.
         unfold check_enemies. rewrite H3.
         unfold check_win. rewrite H3, andb_false_r.
         unfold check_game_over. rewrite H3. cbn [negb].
         repeat split; try reflexivity. exact Hd. }
    all: destruct (update_idle_shape i s ltac:(congruence)) as (st & evs0 & -> & _);
      rewrite G; unfold update_menu; session_red;
      repeat split; try assumption; try reflexivity; discriminate.
Qed.

Lemma death_is_final_witness :
  Player.alive (player (update idle_frame wake)) = false /\
  game_state (update idle_frame wake) = GameOver /\
  (Player.alive (fst (Player.update true (1 # 60) level_platforms eager_stander))
     = true <->
   Rect.y (Player.rect
             (fst (Player.update true (1 # 60) level_platforms eager_stander)))
     <= HEIGHT + 100).
Proof.
  destruct death_is_final as (Hfall & _ & Hdead).
  destruct (Hdead idle_frame wake) as (A & _ & _ & G);
    [vm_compute; reflexivity|].
  split; [exact A|]. split; [apply G; vm_compute; reflexivity|].
  apply Hfall. vm_compute. reflexivity.
Defined.

(** ** How a game ends *)

(** X9.  In every reachable session: while the game is played the player
    is alive and the end-of-game message is empty; a won game has every one
    of the six coins collected, a living player, score 60 and the message
    ["You Won! Score: 60"]; a lost game has a dead player and either no life
    left with the message ["Game Over! No lives left!"], or at least one life
    left, a player more than 100 units below the screen and an empty
    message. *)
Theorem end_of_game :
  forall s, reachable s ->
    (game_state s = Playing ->
     Player.alive (player s) = true /\ game_over_message s = EmptyString) /\
    (game_state s = Win ->
     Player.alive (player s) = true /\ all_collected (coins s) = true /\
     List.length (coins s) = 6%nat /\ score s = 60 /\
     game_over_message s = "You Won! Score: 60"%string) /\
    (game_state s = GameOver ->
     Player.alive (player s) = false /\
     ((lives s = 0 /\ game_over_message s = "Game Over! No lives left!"%string) \/
      (1 <= lives s /\ game_over_message s = EmptyString /\
       HEIGHT + 100 < Rect.y (Player.rect (player s))))).
Proof.
  intros s Hr. destruct (reachable_ok s Hr) as (_ & _ & Hs & _ & _ & Hg).
  split; [|split]; intro G; rewrite G in Hg.
  - destruct Hg as (Ha & _ & Hm & _). split; assumption.
  - destruct Hg as (Ha & Hall & Hm & Hc).
    assert (Hlen : List.length (coins s) = 6%nat).
    { rewrite <- (length_map coin_place), Hc. reflexivity. }
    assert (Hleft : coins_left (coins s) = 0).
    { unfold coins_left. unfold all_collected in Hall.
      rewrite forallb_forall in Hall.
      replace (filter (fun c => negb (Coin.collected c)) (coins s)) with (@nil Coin.t);
        [reflexivity|].
      symmetry. generalize Hall. generalize (coins s) as cs.
      induction cs as [|c rest IH]; intro H; [reflexivity|].
      simpl. rewrite (H c (or_introl eq_refl)). simpl.
      apply IH. intros x Hx. apply H. right; exact Hx. }
    assert (H60 : score s = 60) by (rewrite Hs, Hlen, Hleft; reflexivity).
    repeat split; try assumption.
    rewrite Hm, H60. vm_compute. reflexivity.
  - destruct Hg as (Ha & _ & Hend). split; [exact Ha|exact Hend].
Qed.

Lemma end_of_game_witness :
  Player.alive (player just_landed) = true /\
  game_over_message just_landed = EmptyString.
Proof.
  apply (proj1 (end_of_game just_landed just_landed_reachable)).
  vm_compute. reflexivity.
Defined.

(** ** The level does not change *)

Section Sizes.

Import AnimatedSprite.

Lemma fold_size (f : t -> Rect.t -> t) (platforms : list Rect.t) :
  (forall s pl, Rect.w (rect (f s pl)) = Rect.w (rect s) /\
                Rect.h (rect (f s pl)) = Rect.h (rect s)) ->
  forall s, Rect.w (rect (fold_left f platforms s)) = Rect.w (rect s) /\
            Rect.h (rect (fold_left f platforms s)) = Rect.h (rect s).
Proof.
  intro Hf. induction platforms as [|pl rest IH]; intro s; simpl.
  - split; reflexivity.
  - destruct (IH (f s pl)) as [-> ->]. apply Hf.
Qed.

Lemma collide_x_size (s : t) (pl : Rect.t) :
  Rect.w (rect (collide_x s pl)) = Rect.w (rect s) /\
  Rect.h (rect (collide_x s pl)) = Rect.h (rect s).
Proof.
  unfold collide_x. destruct (Rect.colliderect _ _); [|split; reflexivity].
  destruct (vx s >? 0); [split; reflexivity|].
  destruct (vx s <? 0); split; reflexivity.
Qed.

Lemma collide_y_size (s : t) (pl : Rect.t) :
  Rect.w (rect (collide_y s pl)) = Rect.w (rect s) /\
  Rect.h (rect (collide_y s pl)) = Rect.h (rect s).
Proof.
  unfold collide_y. destruct (Rect.colliderect _ _); [|split; reflexivity].
  destruct (Qgtb _ _); [split; reflexivity|].
  destruct (Qltb _ _); split; reflexivity.
Qed.

(** Gravity and [move] never resize a body. *)
Lemma physics_size (platforms : list Rect.t) (s : t) :
  Rect.w (rect (move platforms (apply_gravity s))) = Rect.w (rect s) /\
  Rect.h (rect (move platforms (apply_gravity s))) = Rect.h (rect s).
Proof.
  assert (G : rect (apply_gravity s) = rect s).
  { unfold apply_gravity. destruct (negb _); [|reflexivity].
    destruct (Qgtb _ _); reflexivity. }
  rewrite <- G. set (g := apply_gravity s). clearbody g.
  unfold move, check_collision_y, displaced, check_collision_x.
  destruct (fold_size collide_y platforms collide_y_size
              (set_on_ground false
                 (displace_y (fold_left collide_x platforms (displace_x g)))))
    as [-> ->].
  destruct (fold_size collide_x platforms collide_x_size (displace_x g))
    as [Hw Hh].
  cbn [rect set_on_ground displace_y set_rect Rect.set_y Rect.w Rect.h].
  rewrite Hw, Hh. split; reflexivity.
Qed.

End Sizes.

Lemma enemy_update_setup (d : Q) (platforms : list Rect.t) (e : Enemy.t) :
  enemy_setup (Enemy.update d platforms e) = enemy_setup e.
Proof.
  unfold enemy_setup, Enemy.update, Enemy.rect.
  cbn [Enemy.sprite Enemy.set_sprite Enemy.patrol_left Enemy.patrol_right
       Enemy.speed].
  destruct (update_animation_body d
              (AnimatedSprite.move platforms
                 (AnimatedSprite.apply_gravity (Enemy.sprite (Enemy.steer e)))))
    as (-> & _).
  destruct (physics_size platforms (Enemy.sprite (Enemy.steer e))) as [-> ->].
  unfold Enemy.steer. destruct (_ <=? _); [reflexivity|].
  destruct (_ >=? _); reflexivity.
Qed.

Lemma finish_static (s : Session) :
  let t := check_game_over (check_win (check_enemies s)) in
  platforms t = platforms s /\ enemies t = enemies s /\
  buttons t = buttons s /\ coins t = coins s /\
  music_enabled t = music_enabled s /\ sounds_enabled t = sounds_enabled s /\
  music_started t = music_started s /\ mouse_pos t = mouse_pos s.
Proof.
  destruct (check_enemies_shape s) as [E|(_ & _ & _ & E)]; rewrite E;
    unfold check_game_over, check_win; try set (o := outcome _ _ _ _ _ s);
    repeat match goal with
           | |- context [if ?c then _ else _] => destruct c
           end; repeat split.
Qed.

(** X10.  The level is static during play: a frame changes neither the
    platforms, nor the number, order, size, patrol bounds and speed of the
    enemies, nor the number, order, place and radius of the coins, nor the
    rectangles and labels of the buttons, nor the music and sound switches. *)
Theorem level_is_static (i : tick_input) (s : Session) :
  platforms (update i s) = platforms s /\
  map enemy_setup (enemies (update i s)) = map enemy_setup (enemies s) /\
  map coin_place (coins (update i s)) = map coin_place (coins s) /\
  map Button.rect (buttons (update i s)) = map Button.rect (buttons s) /\
  map Button.text (buttons (update i s)) = map Button.text (buttons s) /\
  music_enabled (update i s) = music_enabled s /\
  sounds_enabled (update i s) = sounds_enabled s.
Proof.
  destruct (game_state s) eqn:G.
  2: { destruct (update_playing_shape i s G) as (st & evs0 & evs & -> & _).
       destruct (finish_static (after_loops i evs (polled i st evs0 s)))
         as (-> & -> & -> & -> & -> & -> & _).
       unfold after_loops, polled. session_red.
       rewrite coin_after_place, map_map.
       repeat split.
       apply map_ext. intro e. apply enemy_update_setup. }
  all: destruct (update_idle_shape i s ltac:(congruence)) as (st & evs0 & -> & _);
    rewrite G; unfold update_menu; session_red; rewrite ?map_map;
    repeat split.
Qed.

(** ** The invincibility countdown *)

Lemma update_vulnerable (snd_on : bool) (d : Q) (platforms : list Rect.t)
    (p : Player.t) :
  Player.invincible p = false ->
  Player.invincible (fst (Player.update snd_on d platforms p)) = false.
Proof.
  intro Hi. destruct (Player.alive p) eqn:Ha;
    [|rewrite update_dead by exact Ha; exact Hi].
  destruct (update_invincibility snd_on d platforms p Ha) as [E _].
  cbv zeta in E. rewrite E. unfold Player.tick_invincibility.
  rewrite Hi. exact Hi.
Qed.

Lemma run_player_vulnerable (snd_on : bool) (platforms : list Rect.t)
    (dts : list Q) (p : Player.t) :
  Player.invincible p = false ->
  Player.invincible (run_player snd_on platforms dts p) = false.
Proof.
  unfold run_player. revert p. induction dts as [|d rest IH]; intros p Hi; simpl.
  - exact Hi.
  - apply IH, update_vulnerable, Hi.
Qed.

(** X11.  The invincibility countdown.  A vulnerable player stays
    vulnerable under [update], and so over any run of updates: only
    [take_damage] makes a player invincible.  A living, invincible player
    is still invincible after an update whose [dt] is less than the time
    left on the countdown, and vulnerable again after one whose [dt] is at
    least the time left. *)
Theorem invincibility_countdown :
  (forall snd_on d platforms p,
     Player.invincible p = false ->
     Player.invincible (fst (Player.update snd_on d platforms p)) = false) /\
  (forall snd_on platforms dts p,
     Player.invincible p = false ->
     Player.invincible (run_player snd_on platforms dts p) = false) /\
  (forall snd_on d platforms p,
     Player.alive p = true -> Player.invincible p = true ->
     let p' := fst (Player.update snd_on d platforms p) in
     ((d < Player.invincible_timer p)%Q -> Player.invincible p' = true) /\
     ((Player.invincible_timer p <= d)%Q -> Player.invincible p' = false)).
Proof.
  split; [exact update_vulnerable|]. split; [exact run_player_vulnerable|].
  intros snd_on d platforms p Ha Hi p'.
  destruct (update_invincibility snd_on d platforms p Ha) as [E _].
  cbv zeta in E. unfold p'. rewrite E.
  unfold Player.tick_invincibility. rewrite Hi.
  destruct (Qle_bool (Player.invincible_timer p - d) 0) eqn:Q0;
    cbn [Player.invincible Player.set_invincible].
  - apply Qle_bool_iff in Q0. split; [|reflexivity].
    intro H. exfalso. Lqa.lra.
  - split; [reflexivity|]. intro H. exfalso.
    assert (Q1 : (Player.invincible_timer p - d <= 0)%Q) by Lqa.lra.
    apply Qle_bool_iff in Q1. congruence.
Qed.

Lemma invincibility_countdown_witness :
  Player.invincible
    (fst (Player.update true (1 # 60) level_platforms hurt_player)) = true /\
  Player.invincible
    (fst (Player.update true (2 # 1) level_platforms hurt_player)) = false /\
  Player.invincible
    (run_player true level_platforms [1 # 60; 1 # 60] (player started)) = false.
Proof.
  destruct invincibility_countdown as (_ & Hrun & Hstep).
  assert (Ha : Player.alive hurt_player = true) by reflexivity.
  assert (Hi : Player.invincible hurt_player = true) by reflexivity.
  pose proof (Hstep true (1 # 60) level_platforms hurt_player Ha Hi) as A.
  pose proof (Hstep true (2 # 1) level_platforms hurt_player Ha Hi) as B.
  cbv zeta in A, B.
  split; [|split].
  - apply (proj1 A). vm_compute. reflexivity.
  - apply (proj2 B). vm_compute. discriminate.
  - apply Hrun. reflexivity.
Defined.

(** ** Patrols *)

(** X12.  An enemy stays on its patrol.  For an enemy of positive speed
    that moves at that speed one way or the other, whose patrol is wider than
    its body, and whose horizontal step meets no platform: if its left edge is
    less than one step left of [patrol_left] and its right edge less than one
    step right of [patrol_right], the same holds after [update], and the
    enemy has moved by exactly its new [vx]. *)
Theorem patrol_stays_in_bounds (d : Q) (platforms : list Rect.t) (e : Enemy.t) :
  0 < Enemy.speed e ->
  Enemy.vx e = Enemy.speed e \/ Enemy.vx e = - Enemy.speed e ->
  Enemy.patrol_left e + Rect.w (Enemy.rect e) < Enemy.patrol_right e ->
  Enemy.patrol_left e - Enemy.speed e < Rect.left (Enemy.rect e) ->
  Rect.right (Enemy.rect e) < Enemy.patrol_right e + Enemy.speed e ->
  forallb
    (fun pl =>
       negb (Rect.colliderect
               (AnimatedSprite.rect
                  (AnimatedSprite.displace_x (Enemy.sprite (Enemy.steer e))))
               pl)) platforms = true ->
  let e' := Enemy.update d platforms e in
  (Enemy.vx e' = Enemy.speed e' \/ Enemy.vx e' = - Enemy.speed e') /\
  Enemy.patrol_left e' - Enemy.speed e' < Rect.left (Enemy.rect e') /\
  Rect.right (Enemy.rect e') < Enemy.patrol_right e' + Enemy.speed e' /\
  Rect.x (Enemy.rect e') = Rect.x (Enemy.rect e) + Enemy.vx e'.
Proof.
  intros Hsp Hvx Hwide Hl Hr Hfree e'.
  pose proof (enemy_update_setup d platforms e) as Hset. fold e' in Hset.
  assert (Hpl := f_equal (fun t => fst (fst (fst (fst t)))) Hset).
  assert (Hpr := f_equal (fun t => snd (fst (fst (fst t)))) Hset).
  assert (Hs := f_equal (fun t => snd (fst (fst t))) Hset).
  assert (Hw := f_equal (fun t => snd (fst t)) Hset).
  unfold enemy_setup in Hpl, Hpr, Hs, Hw. cbn [fst snd] in Hpl, Hpr, Hs, Hw.
  clear Hset.
  set (e1 := Enemy.steer e) in *.
  assert (H1 : Enemy.rect e1 = Enemy.rect e /\
               ((Rect.left (Enemy.rect e) <= Enemy.patrol_left e /\
                 Enemy.vx e1 = Enemy.speed e) \/
                (Enemy.patrol_left e < Rect.left (Enemy.rect e) /\
                 Enemy.patrol_right e <= Rect.right (Enemy.rect e) /\
                 Enemy.vx e1 = - Enemy.speed e) \/
                (Enemy.patrol_left e < Rect.left (Enemy.rect e) /\
                 Rect.right (Enemy.rect e) < Enemy.patrol_right e /\
                 Enemy.vx e1 = Enemy.vx e))).
  { unfold e1, Enemy.steer.
    destruct (Rect.left (Enemy.rect e) <=? Enemy.patrol_left e) eqn:A.
    - apply Z.leb_le in A. split; [reflexivity|]. left. split; [exact A|reflexivity].
    - apply Z.leb_gt in A.
      destruct (Rect.right (Enemy.rect e) >=? Enemy.patrol_right e) eqn:B.
      + apply Z.geb_le in B. split; [reflexivity|]. right; left.
        repeat split; assumption.
      + rewrite Z.geb_leb in B. apply Z.leb_gt in B.
        split; [reflexivity|]. right; right. repeat split; assumption. }
  destruct H1 as [Hrect Hcases].
  set (g := AnimatedSprite.apply_gravity (Enemy.sprite e1)).
  assert (Hg : AnimatedSprite.rect g = Enemy.rect e1 /\
               AnimatedSprite.vx g = Enemy.vx e1).
  { unfold g, AnimatedSprite.apply_gravity, Enemy.rect, Enemy.vx.
    destruct (negb _); [|split; reflexivity].
    destruct (Qgtb _ _); split; reflexivity. }
  destruct Hg as [Gr Gv].
  assert (Hfree' : forallb
            (fun pl => negb (Rect.colliderect
                               (AnimatedSprite.rect (AnimatedSprite.displace_x g)) pl))
            platforms = true).
  { unfold AnimatedSprite.displace_x in *.
    cbn [AnimatedSprite.rect AnimatedSprite.set_rect] in *.
    rewrite Gr, Gv. exact Hfree. }
  pose proof (move_free_x platforms g Hfree') as Hx.
  pose proof (move_drive platforms g) as (Dvx & _).
  assert (He' : Enemy.rect e' = AnimatedSprite.rect (AnimatedSprite.move platforms g) /\
                Enemy.vx e' = AnimatedSprite.vx (AnimatedSprite.move platforms g)).
  { unfold e', Enemy.update, Enemy.rect, Enemy.vx.
    cbn [Enemy.sprite Enemy.set_sprite]. fold e1. fold g.
    destruct (update_animation_body d (AnimatedSprite.move platforms g))
      as (-> & -> & _). split; reflexivity. }
  destruct He' as [Er Ev].
  assert (Hvx' : Enemy.vx e' = Enemy.vx e1) by (rewrite Ev, Dvx; exact Gv).
  assert (Hx' : Rect.x (Enemy.rect e') = Rect.x (Enemy.rect e) + Enemy.vx e1).
  { rewrite Er, Hx, Gr, Hrect, Gv. reflexivity. }
  unfold Rect.left, Rect.right in *.
  rewrite Hpl, Hpr, Hs, Hw, Hx', Hvx'.
  destruct Hcases as [(A & V)|[(A & B & V)|(A & B & V)]]; rewrite V;
    repeat split; lia.
Qed.

Lemma patrol_stays_in_bounds_witness :
  Rect.x (Enemy.rect (Enemy.update (1 # 60) level_platforms enemy_at_right_end))
  = Rect.x (Enemy.rect enemy_at_right_end) +
    Enemy.vx (Enemy.update (1 # 60) level_platforms enemy_at_right_end).
Proof.
  assert (H1 : 0 < Enemy.speed enemy_at_right_end) by reflexivity.
  assert (H2 : Enemy.vx enemy_at_right_end = Enemy.speed enemy_at_right_end \/
               Enemy.vx enemy_at_right_end = - Enemy.speed enemy_at_right_end)
    by (left; reflexivity).
  assert (H3 : Enemy.patrol_left enemy_at_right_end +
               Rect.w (Enemy.rect enemy_at_right_end) <
               Enemy.patrol_right enemy_at_right_end) by reflexivity.
  assert (H4 : Enemy.patrol_left enemy_at_right_end -
               Enemy.speed enemy_at_right_end <
               Rect.left (Enemy.rect enemy_at_right_end)) by reflexivity.
  assert (H5 : Rect.right (Enemy.rect enemy_at_right_end) <
               Enemy.patrol_right enemy_at_right_end +
               Enemy.speed enemy_at_right_end) by reflexivity.
  assert (H6 : forallb
                 (fun pl =>
                    negb (Rect.colliderect
                            (AnimatedSprite.rect
                               (AnimatedSprite.displace_x
                                  (Enemy.sprite (Enemy.steer enemy_at_right_end))))
                            pl)) level_platforms = true)
    by (vm_compute; reflexivity).
  pose proof (patrol_stays_in_bounds (1 # 60) level_platforms
                enemy_at_right_end H1 H2 H3 H4 H5 H6) as H.
  cbv zeta in H. destruct H as (_ & _ & _ & H). exact H.
Defined.

(** ** Sounds and music *)

Lemma finish_log (s : Session) :
  exists hit,
    audio_log (check_game_over (check_win (check_enemies s))) =
      audio_log s ++ hit /\
    (hit = [] \/ (hit = [SndHit] /\ sounds_enabled s = true)).
Proof.
  assert (F : forall t,
            audio_log (check_game_over (check_win t)) = audio_log t).
  { intro t. unfold check_game_over, check_win.
    destruct (_ && _); destruct (negb _); reflexivity. }
  rewrite F.
  destruct (check_enemies_shape s) as [E|(_ & _ & _ & E)]; rewrite E.
  - exists []. rewrite app_nil_r. split; [reflexivity|left; reflexivity].
  - unfold outcome. cbn [audio_log].
    destruct (sounds_enabled s).
    + exists [SndHit]. split; [reflexivity|right; split; reflexivity].
    + exists []. split; [reflexivity|left; reflexivity].
Qed.

(** X13.  The audio log only grows, and the switches are obeyed.  What a
    frame adds to the log is at most one start of the music, played only if
    the music is enabled, not yet started, and the call succeeds, followed by
    jump, coin and hit sounds, none of which is played when sounds are
    disabled or when the game is not being played. *)
Theorem sounds_respect_switch (i : tick_input) (s : Session) :
  exists music sounds,
    audio_log (update i s) = audio_log s ++ music ++ sounds /\
    (music = [] \/
     (music = [MusicPlay] /\ music_started s = false /\
      music_enabled s = true /\ music_ok i = true)) /\
    Forall (fun a => a = SndJump \/ a = SndCoin \/ a = SndHit) sounds /\
    (sounds_enabled s = false -> sounds = []) /\
    (game_state s <> Playing -> sounds = []).
Proof.
  destruct (game_state s) eqn:G.
  2: { destruct (update_playing_shape i s G)
         as (st & evs0 & evs & -> & Hm & Ha & Hq).
       destruct (finish_log (after_loops i evs (polled i st evs0 s)))
         as (hit & -> & Hh).
       exists evs0, (evs ++ hit).
       split; [unfold after_loops, polled; session_red;
               rewrite <- !app_assoc; reflexivity|].
       split; [exact Hm|]. split; [|split].
       - apply Forall_app. split.
         + eapply Forall_impl; [|exact Ha]. intros a [->| ->]; auto.
         + destruct Hh as [->|[-> _]];
             [constructor | constructor; [right; right; reflexivity | constructor]].
       - intro Hoff. rewrite (Hq Hoff).
         destruct Hh as [->|[_ Hon]]; [reflexivity|].
         change (sounds_enabled (after_loops i evs (polled i st evs0 s)))
           with (sounds_enabled s) in Hon. congruence.
       - intro N. congruence. }
  all: destruct (update_idle_shape i s ltac:(congruence)) as (st & evs0 & -> & Hm);
    exists evs0, []; rewrite G; unfold update_menu; session_red;
    rewrite app_nil_r;
    (split; [reflexivity|]); (split; [exact Hm|]);
    (split; [constructor|]); split; reflexivity.
Qed.

(** ** The state machine *)

Lemma click_buttons_state (ok : bool) (pos : Z * Z) (bs : list Button.t)
    (n : nat) (a a' : Session) :
  click_buttons ok pos n bs a = Some a' ->
  game_state a' = game_state a \/ game_state a' = Playing.
Proof.
  revert n a. induction bs as [|b rest IH]; intros n a H; simpl in H.
  - injection H as <-. left; reflexivity.
  - destruct (Button.is_clicked pos b); [|eapply IH; exact H].
    destruct (press_button ok n a) as [a1|] eqn:E; [|discriminate].
    destruct (press_button_core ok n a a1 E) as (Hg & _).
    destruct (IH _ _ H) as [H1|H1]; [|right; exact H1].
    rewrite H1, Hg. destruct n; [right|left]; reflexivity.
Qed.

(** X14.  The session is the state machine menu, playing, win or game
    over, menu.  A step of the program changes the state only along three
    kinds of edges: from the menu to playing, by a mouse click; from playing
    to win or game over, by an update; from win or game over back to the
    menu, by the SPACE key.  In the menu keys do nothing, and outside the
    menu mouse clicks do nothing. *)
Theorem state_machine_edges :
  (forall s e s', step s e = Some s' ->
     game_state s' = game_state s \/
     (game_state s = Menu /\ game_state s' = Playing /\
      exists ok pos, e = EvMouseDown ok pos) \/
     (game_state s = Playing /\
      (game_state s' = Win \/ game_state s' = GameOver) /\
      exists i, e = EvUpdate i) \/
     ((game_state s = Win \/ game_state s = GameOver) /\
      game_state s' = Menu /\ e = EvKeyDown SPACE)) /\
  (forall key s, game_state s = Menu -> on_key_down key s = s) /\
  (forall ok pos s, game_state s <> Menu -> on_mouse_down ok pos s = Some s).
Proof.
  split; [|split].
  - intros s e s' H. destruct e as [i|key|ok pos|pos]; simpl in H.
    + injection H as <-. destruct (game_state s) eqn:G.
      2: { destruct (update_playing_shape i s G) as (st & evs0 & evs & -> & _).
           set (s3 := after_loops i evs (polled i st evs0 s)).
           destruct (check_enemies_frame s3) as (_ & _ & G4 & _).
           change (game_state s3) with (game_state s) in G4. rewrite G in G4.
           unfold check_game_over, check_win.
           destruct (_ && _); destruct (negb _); cbn [game_state set_game_state
             set_game_over_message]; rewrite ?G4; auto 10;
             right; right; left; (split; [reflexivity|]);
             (split; [auto|]); exists i; reflexivity. }
      all: left;
        destruct (update_idle_shape i s ltac:(congruence)) as (st & evs0 & -> & _);
        rewrite G; unfold update_menu; session_red; exact G.
    + injection H as <-. unfold on_key_down.
      destruct (game_state s) eqn:G; destruct key; cbn [game_state set_game_state set_player];
        rewrite ?G; auto 10;
        right; right; right; auto.
    + unfold on_mouse_down in H. destruct (game_state s) eqn:G;
        try (injection H as <-; left; exact G).
      destruct (click_buttons_state _ _ _ _ _ _ H) as [E|E].
      * left. rewrite E. exact G.
      * right; left. split; [reflexivity|]. split; [exact E|].
        exists ok, pos. reflexivity.
    + injection H as <-. left. reflexivity.
  - intros key s G. unfold on_key_down. rewrite G. reflexivity.
  - intros ok pos s G. unfold on_mouse_down.
    destruct (game_state s); [congruence| | |]; reflexivity.
Qed.

Lemma state_machine_edges_witness :
  on_key_down SPACE initial = initial /\
  on_mouse_down true (400, 220) started = Some started.
Proof.
  destruct state_machine_edges as (_ & Hk & Hm).
  split.
  - apply Hk. reflexivity.
  - apply Hm. vm_compute. discriminate.
Defined.

(** ** Jumping in mid-air *)

(** Every stage of the player's update but the jump ignores the request. *)
Lemma stages_ignore_request (b : bool) (d : Q) (platforms : list Rect.t)
    (p : Player.t) :
  Player.steer (Player.tick_invincibility d (Player.set_jump_requested b p)) =
    Player.set_jump_requested b (Player.steer (Player.tick_invincibility d p)) /\
  Player.check_fall
    (Player.animate d (Player.physics platforms (Player.set_jump_requested b p))) =
    Player.set_jump_requested b
      (Player.check_fall (Player.animate d (Player.physics platforms p))).
Proof.
  split.
  - unfold Player.tick_invincibility.
    cbn [Player.invincible Player.invincible_timer Player.set_jump_requested].
    destruct (Player.invincible p); [destruct (Qle_bool _ _)|]; reflexivity.
  - unfold Player.check_fall, Player.animate, Player.physics, Player.vx,
      Player.on_ground, Player.rect.
    cbn [Player.sprite Player.set_sprite Player.set_jump_requested].
    destruct (_ || _); cbn [Player.sprite Player.set_sprite];
      destruct (_ >? _); reflexivity.
Qed.

(** X15.  There is no jump in mid-air.  For a player that is not on the
    ground, a pending jump request changes nothing of what [update] does
    except that the request itself is kept: no sound, no change of velocity
    or position. *)
Theorem air_jump_has_no_effect (snd_on : bool) (d : Q)
    (platforms : list Rect.t) (p : Player.t) (b : bool) :
  Player.on_ground p = false ->
  Player.update snd_on d platforms (Player.set_jump_requested b p) =
    (Player.set_jump_requested b
       (fst (Player.update snd_on d platforms
               (Player.set_jump_requested false p))),
     []).
Proof.
  intro Hg.
  assert (Hq : forall c,
            Player.on_ground
              (Player.set_jump_requested c
                 (Player.steer (Player.tick_invincibility d p))) = false).
  { intro c. destruct (steer_keeps (Player.tick_invincibility d p))
      as (_ & Sg & _).
    destruct (tick_invincibility_sprite d p) as (Ts & _).
    change (Player.on_ground
              (Player.set_jump_requested c
                 (Player.steer (Player.tick_invincibility d p))))
      with (Player.on_ground (Player.steer (Player.tick_invincibility d p))).
    rewrite Sg. unfold Player.on_ground in *. rewrite Ts. exact Hg. }
  unfold Player.update.
  cbn [Player.alive Player.set_jump_requested].
  destruct (Player.alive p); cbn [negb]; [|reflexivity].
  rewrite (proj1 (stages_ignore_request b d platforms p)).
  rewrite (proj1 (stages_ignore_request false d platforms p)).
  unfold Player.try_jump. rewrite (Hq b), (Hq false), !andb_false_r.
  cbn [fst].
  rewrite (proj2 (stages_ignore_request b d platforms _)).
  rewrite (proj2 (stages_ignore_request false d platforms _)).
  reflexivity.
Qed.

Lemma air_jump_has_no_effect_witness :
  Player.update true (1 # 60) level_platforms
    (Player.set_jump_requested true silent_lander) =
  (Player.set_jump_requested true
     (fst (Player.update true (1 # 60) level_platforms
             (Player.set_jump_requested false silent_lander))),
   []).
Proof. apply air_jump_has_no_effect. reflexivity. Defined.

(** ** The menu *)

Lemma collidepoint_iff (r : Rect.t) (x y : Z) :
  Rect.collidepoint r (x, y) = true <->
  Rect.x r <= x < Rect.x r + Rect.w r /\ Rect.y r <= y < Rect.y r + Rect.h r.
Proof.
  unfold Rect.collidepoint. cbn [fst snd].
  rewrite !andb_true_iff, !Z.leb_le, !Z.ltb_lt. lia.
Qed.

(** The four buttons of a reachable session are where the program put
    them. *)
Lemma reachable_buttons (s : Session) :
  reachable s ->
  exists b0 b1 b2 b3,
    buttons s = [b0; b1; b2; b3] /\
    Button.rect b0 = Rect.mk 300 200 200 50 /\
    Button.rect b1 = Rect.mk 300 280 200 50 /\
    Button.rect b2 = Rect.mk 300 360 200 50 /\
    Button.rect b3 = Rect.mk 300 440 200 50.
Proof.
  intro Hr. destruct (reachable_ok s Hr) as (_ & _ & _ & _ & Hb & _).
  destruct (buttons s) as [|b0 [|b1 [|b2 [|b3 [|b4 rest]]]]];
    try discriminate Hb.
  cbn in Hb. injection Hb as R0 R1 R2 R3.
  exists b0, b1, b2, b3. repeat split; assumption.
Qed.

(** Deciding whether a button with a known rectangle is hit. *)
Ltac decide_click R :=
  match goal with
  | |- context [Button.is_clicked (?x, ?y) ?b] =>
      match type of R with
      | Button.rect b = _ =>
          let H := fresh "Hit" in
          destruct (Button.is_clicked (x, y) b) eqn:H;
          unfold Button.is_clicked in H; rewrite R in H;
          [ apply collidepoint_iff in H; cbn in H; try lia
          | try (exfalso;
                 assert (Rect.collidepoint (Button.rect b) (x, y) = true)
                   by (rewrite R; apply collidepoint_iff; cbn; lia);
                 rewrite R in *; congruence) ]
      end
  end.

(** The Start button. *)
Lemma press_start (ok : bool) (s s1 : Session) :
  press_button ok 0 s = Some s1 ->
  game_state s1 = Playing /\ player s1 = Player.init 100 400 /\
  enemies s1 = level_enemies /\ coins s1 = level_coins /\
  platforms s1 = level_platforms /\ score s1 = 0 /\ lives s1 = 3 /\
  game_over_message s1 = EmptyString.
Proof.
  intro E. unfold press_button in E. injection E as <-. cbv zeta.
  destruct (init_level_fields s) as (Fp & Fe & Fc & Fpl & Fs & Fl & Fm & _).
  set (t := init_level s) in *. clearbody t.
  destruct t as [gs me se sc li ms mst pl en co plat bu mp al].
  cbn in Fp, Fe, Fc, Fpl, Fs, Fl, Fm. subst.
  unfold play_music. destruct (_ && _); [destruct ok|]; cbn; repeat split.
Qed.

(** X16.  The menu does what its buttons say.  In a reachable session
    showing the menu, a click inside the Start button starts a fresh level
    (playing, player at the start, the fixed layout, score 0, three lives,
    empty message); a click inside Toggle Music or Toggle Sounds flips that
    switch and leaves the game alone; a click inside Exit ends the program;
    a click outside the four buttons changes nothing. *)
Theorem menu_clicks (s : Session) (ok : bool) (x y : Z) :
  reachable s -> game_state s = Menu ->
  (300 <= x < 500 /\ 200 <= y < 250 ->
   exists s', on_mouse_down ok (x, y) s = Some s' /\
     game_state s' = Playing /\ player s' = Player.init 100 400 /\
     enemies s' = level_enemies /\ coins s' = level_coins /\
     platforms s' = level_platforms /\ score s' = 0 /\ lives s' = 3 /\
     game_over_message s' = EmptyString) /\
  (300 <= x < 500 /\ 280 <= y < 330 ->
   exists s', on_mouse_down ok (x, y) s = Some s' /\
     music_enabled s' = negb (music_enabled s) /\
     game_state s' = Menu /\ score s' = score s /\ lives s' = lives s /\
     player s' = player s /\ coins s' = coins s) /\
  (300 <= x < 500 /\ 360 <= y < 410 ->
   on_mouse_down ok (x, y) s =
     Some (set_sounds_enabled (negb (sounds_enabled s)) s)) /\
  (300 <= x < 500 /\ 440 <= y < 490 -> on_mouse_down ok (x, y) s = None) /\
  (x < 300 \/ 500 <= x \/ y < 200 \/ 250 <= y < 280 \/ 330 <= y < 360 \/
   410 <= y < 440 \/ 490 <= y ->
   on_mouse_down ok (x, y) s = Some s).
Proof.
  intros Hr G.
  destruct (reachable_buttons s Hr) as (b0 & b1 & b2 & b3 & Eb & R0 & R1 & R2 & R3).
  unfold on_mouse_down. rewrite G, Eb. cbn [click_buttons].
  split; [|split; [|split; [|split]]]; intro H.
  - decide_click R0.
    destruct (press_button ok 0 s) as [s1|] eqn:E; [|discriminate E].
    decide_click R1. decide_click R2. decide_click R3.
    exists s1. split; [reflexivity|]. exact (press_start ok s s1 E).
  - decide_click R0. decide_click R1.
    destruct (press_button ok 1 s) as [s1|] eqn:E; [|discriminate E].
    decide_click R2. decide_click R3.
    exists s1. split; [reflexivity|].
    destruct (press_button_core ok 1 s s1 E)
      as (A & B & C & D & F & K & L & M & _).
    cbv zeta in A, B, C, D, F, K, L, M.
    split; [|rewrite A, B, C, F, L; repeat split; exact G].
    unfold press_button in E. injection E as <-.
    destruct s as [gs me se sc li ms mst pl en co plat bu mp al].
    unfold play_music. cbn. destruct ok, me; reflexivity.
  - decide_click R0. decide_click R1. decide_click R2.
    cbn [press_button]. decide_click R3. reflexivity.
  - decide_click R0. decide_click R1. decide_click R2. decide_click R3.
    reflexivity.
  - decide_click R0. decide_click R1. decide_click R2. decide_click R3.
    reflexivity.
Qed.

Lemma menu_clicks_witness :
  on_mouse_down true (400, 460) initial = None /\
  on_mouse_down true (10, 10) initial = Some initial.
Proof.
  destruct (menu_clicks initial true 400 460 reach_initial eq_refl)
    as (_ & _ & _ & Hexit & _).
  destruct (menu_clicks initial true 10 10 reach_initial eq_refl)
    as (_ & _ & _ & _ & Hout).
  split; [apply Hexit; lia | apply Hout; lia].
Defined.

(** X17.  Hovering shows what a click would press.  In the menu, after
    the mouse has moved to a position and a frame has passed, a button is
    drawn hovered exactly when a click at that position would press it; the
    rectangles and labels are untouched, and outside the menu a frame leaves
    the buttons as they are. *)
Theorem hover_matches_click (i : tick_input) (pos : Z * Z) (s : Session) :
  (game_state s = Menu ->
   map Button.hovered (buttons (update i (on_mouse_move pos s))) =
     map (Button.is_clicked pos) (buttons s)) /\
  (game_state s <> Menu -> buttons (update i s) = buttons s).
Proof.
  split; intro G.
  - assert (G' : game_state (on_mouse_move pos s) <> Playing)
      by (unfold on_mouse_move; cbn [game_state set_mouse_pos]; congruence).
    destruct (update_idle_shape i (on_mouse_move pos s) G')
      as (st & evs0 & -> & _).
    change (game_state (on_mouse_move pos s)) with (game_state s). rewrite G.
    unfold update_menu, on_mouse_move. session_red.
    rewrite map_map. reflexivity.
  - destruct (game_state s) eqn:E; [congruence| | |].
    + destruct (update_playing_shape i s E) as (st & evs0 & evs & -> & _).
      destruct (finish_static (after_loops i evs (polled i st evs0 s)))
        as (_ & _ & -> & _). reflexivity.
    + destruct (update_idle_shape i s ltac:(congruence)) as (st & evs0 & -> & _).
      rewrite E. reflexivity.
    + destruct (update_idle_shape i s ltac:(congruence)) as (st & evs0 & -> & _).
      rewrite E. reflexivity.
Qed.

Lemma hover_matches_click_witness :
  map Button.hovered (buttons (update idle_frame (on_mouse_move (400, 220) initial)))
  = map (Button.is_clicked (400, 220)) (buttons initial).
Proof. apply hover_matches_click. reflexivity. Defined.

(** ** Audio failures *)

(** Whether the enemy loop costs a life is decided by the player and the
    enemies alone. *)
Lemma check_enemies_decided (s : Session) :
  (Player.alive (player s) && negb (Player.invincible (player s)) &&
   touching s = true ->
   check_enemies s =
     outcome (score s) (lives s - 1)
       (if lives s - 1 <=? 0 then lose_message else game_over_message s)
       (hurt (lives s - 1) (player s))
       (if sounds_enabled s then [SndHit] else []) s) /\
  (Player.alive (player s) && negb (Player.invincible (player s)) &&
   touching s = false -> check_enemies s = s).
Proof.
  split; intro C.
  - apply andb_true_iff in C. destruct C as [C Ht].
    apply andb_true_iff in C. destruct C as [Ha Hi].
    apply negb_true_iff in Hi.
    destruct (check_enemies_shape s) as [E|(_ & _ & _ & E)]; [|exact E].
    exfalso. pose proof (fold_hit_by_once (enemies s) s Hi Ht) as L.
    unfold check_enemies in E. rewrite Ha in E. rewrite E in L. lia.
  - destruct (check_enemies_shape s) as [E|(Ha & Hi & Ht & _)]; [exact E|].
    rewrite Ha, Hi, Ht in C. discriminate.
Qed.

Ltac session_fields :=
  cbn [game_state music_enabled sounds_enabled score lives game_over_message
       music_started player enemies coins platforms buttons mouse_pos
       audio_log fst snd].

Lemma same_game_fields (a b : Session) :
  same_game a b ->
  exists mst al,
    a = mkSession (game_state b) (music_enabled b) (sounds_enabled b) (score b)
          (lives b) (game_over_message b) mst (player b) (enemies b) (coins b)
          (platforms b) (buttons b) (mouse_pos b) al.
Proof.
  destruct a as [gs me se sc li ms mst pl en co plat bu mp al].
  unfold same_game. session_fields.
  intros (G & Me & Se & Sc & Li & Ms & Pl & En & Co & Pf & Bu & Mp). subst.
  exists mst, al. reflexivity.
Qed.

Lemma finish_same_game (a b : Session) :
  same_game a b ->
  same_game (check_game_over (check_win (check_enemies a)))
            (check_game_over (check_win (check_enemies b))).
Proof.
  intro H. destruct (same_game_fields a b H) as (mst & al & ->). clear H.
  destruct b as [gs me se sc li ms mst' pl en co plat bu mp al'].
  session_fields.
  destruct (check_enemies_decided
              (mkSession gs me se sc li ms mst pl en co plat bu mp al)) as [Ya Na].
  destruct (check_enemies_decided
              (mkSession gs me se sc li ms mst' pl en co plat bu mp al')) as [Yb Nb].
  unfold touching in Ya, Na, Yb, Nb. cbn [player enemies] in Ya, Na, Yb, Nb.
  destruct (Player.alive pl && negb (Player.invincible pl) &&
            existsb (fun e => Rect.colliderect (Player.rect pl) (Enemy.rect e)) en).
  - rewrite (Ya eq_refl), (Yb eq_refl). clear Ya Na Yb Nb. session_fields.
    unfold outcome. session_fields.
    unfold check_win. session_fields.
    destruct (all_collected co && Player.alive (hurt (li - 1) pl));
      unfold check_game_over, set_game_state, set_game_over_message;
      session_fields;
      destruct (negb (Player.alive (hurt (li - 1) pl)));
      unfold same_game; session_fields; repeat split.
  - rewrite (Na eq_refl), (Nb eq_refl). clear Ya Na Yb Nb.
    unfold check_win. session_fields.
    destruct (all_collected co && Player.alive pl);
      unfold check_game_over, set_game_state, set_game_over_message;
      session_fields;
      destruct (negb (Player.alive pl));
      unfold same_game; session_fields; repeat split.
Qed.

Lemma polled_same_game (i : tick_input) (ok st st' : bool)
    (evs evs' : list audio) (s : Session) :
  same_game (polled (with_music_ok ok i) st' evs' s) (polled i st evs s).
Proof.
  destruct s as [gs me se sc li ms mst pl en co plat bu mp al].
  unfold same_game, polled, emit, set_music, set_player, with_music_ok.
  session_fields. cbn [key_left key_a key_right key_d]. repeat split.
Qed.

Lemma after_loops_same_game (i : tick_input) (ok : bool)
    (evs evs' : list audio) (a b : Session) :
  same_game a b ->
  same_game (after_loops (with_music_ok ok i) evs' a) (after_loops i evs b).
Proof.
  intro H. destruct (same_game_fields a b H) as (mst & al & ->). clear H.
  destruct b as [gs me se sc li ms mst' pl en co plat bu mp al'].
  unfold same_game, after_loops, with_music_ok. session_fields. cbn [dt].
  repeat split.
Qed.

(** X18.  A failure to start the music never affects the game.  Two
    frames that differ only in whether [music.play] succeeds leave sessions
    that agree on everything except [music_started] and the audio log: the
    state, the counters, the message, the player, the enemies, the coins, the
    platforms, the buttons and the switches. *)
Theorem music_failure_is_harmless (i : tick_input) (ok : bool) (s : Session) :
  same_game (update (with_music_ok ok i) s) (update i s).
Proof.
  destruct (game_state s) eqn:G.
  2: { destruct (update_playing_shape i s G) as (st & evs0 & evs & -> & _).
       destruct (update_playing_shape (with_music_ok ok i) s G)
         as (st' & evs0' & evs' & -> & _).
       apply finish_same_game, after_loops_same_game, polled_same_game. }
  all: destruct (update_idle_shape i s ltac:(congruence)) as (st & evs0 & -> & _);
    destruct (update_idle_shape (with_music_ok ok i) s ltac:(congruence))
      as (st' & evs0' & -> & _);
    rewrite G; clear G;
    destruct s as [gs me se sc li ms mst pl en co plat bu mp al];
    unfold same_game, update_menu, emit, set_music, set_buttons;
    session_fields; repeat split.
Qed.

(** ** The patrols of the level *)

Section BodyKey.

Import AnimatedSprite.

Lemma body_key_eq (a b : t) :
  body_key a = body_key b ->
  rect a = rect b /\ vx a = vx b /\ vy a = vy b /\ on_ground a = on_ground b.
Proof. unfold body_key. intro H. injection H as -> -> -> ->. repeat split. Qed.

Lemma fold_body_key (f : t -> Rect.t -> t) :
  (forall a b pl, body_key a = body_key b -> body_key (f a pl) = body_key (f b pl)) ->
  forall platforms a b,
    body_key a = body_key b ->
    body_key (fold_left f platforms a) = body_key (fold_left f platforms b).
Proof.
  intros Hf platforms. induction platforms as [|pl rest IH]; intros a b H.
  - exact H.
  - simpl. apply IH, Hf, H.
Qed.

Lemma collide_x_key (a b : t) (pl : Rect.t) :
  body_key a = body_key b -> body_key (collide_x a pl) = body_key (collide_x b pl).
Proof.
  intro H. destruct (body_key_eq _ _ H) as (Hr & Hx & Hy & Hg).
  unfold collide_x. rewrite Hr, Hx.
  destruct (Rect.colliderect _ _); [|exact H].
  destruct (_ >? 0); [|destruct (_ <? 0); [|exact H]];
    unfold body_key; cbn [set_rect rect vx vy on_ground]; congruence.
Qed.

Lemma collide_y_key (a b : t) (pl : Rect.t) :
  body_key a = body_key b -> body_key (collide_y a pl) = body_key (collide_y b pl).
Proof.
  intro H. destruct (body_key_eq _ _ H) as (Hr & Hx & Hy & Hg).
  unfold collide_y. rewrite Hr, Hy.
  destruct (Rect.colliderect _ _); [|exact H].
  destruct (Qgtb _ _); [|destruct (Qltb _ _); [|exact H]];
    unfold body_key, land_on, bump_under;
    cbn [set_rect set_vy set_on_ground rect vx vy on_ground]; congruence.
Qed.

Lemma apply_gravity_key (a b : t) :
  body_key a = body_key b -> body_key (apply_gravity a) = body_key (apply_gravity b).
Proof.
  intro H. destruct (body_key_eq _ _ H) as (Hr & Hx & Hy & Hg).
  unfold apply_gravity. rewrite Hg, Hy.
  destruct (negb _); [|exact H].
  destruct (Qgtb _ _); unfold body_key; cbn [set_vy rect vx vy on_ground];
    congruence.
Qed.

Lemma move_key (platforms : list Rect.t) (a b : t) :
  body_key a = body_key b ->
  body_key (move platforms a) = body_key (move platforms b).
Proof.
  intro H. unfold move, check_collision_y, displaced, check_collision_x.
  apply fold_body_key; [exact collide_y_key|].
  assert (X : body_key (fold_left collide_x platforms (displace_x a)) =
              body_key (fold_left collide_x platforms (displace_x b))).
  { apply fold_body_key; [exact collide_x_key|].
    destruct (body_key_eq _ _ H) as (Hr & Hx & Hy & Hg).
    unfold body_key, displace_x. cbn [set_rect rect vx vy on_ground].
    congruence. }
  destruct (body_key_eq _ _ X) as (Hr & Hx & Hy & Hg).
  unfold body_key, displace_y.
  cbn [set_rect set_on_ground rect vx vy on_ground]. congruence.
Qed.

Lemma update_animation_key (d : Q) (a : t) :
  body_key (update_animation d a) = body_key a.
Proof. unfold update_animation. destruct (Qgeb _ _); reflexivity. Qed.

End BodyKey.

(** The motion of an enemy after a frame depends on its motion before, and
    on nothing else: neither on the elapsed time, nor on the animation. *)
Lemma enemy_update_motion (d d' : Q) (platforms : list Rect.t) (e e' : Enemy.t) :
  enemy_motion e = enemy_motion e' ->
  enemy_motion (Enemy.update d platforms e) =
  enemy_motion (Enemy.update d' platforms e').
Proof.
  unfold enemy_motion. intro H.
  assert (Hk : body_key (Enemy.sprite e) = body_key (Enemy.sprite e'))
    by congruence.
  assert (Hl : Enemy.patrol_left e = Enemy.patrol_left e') by congruence.
  assert (Hr : Enemy.patrol_right e = Enemy.patrol_right e') by congruence.
  assert (Hs : Enemy.speed e = Enemy.speed e') by congruence.
  clear H.
  destruct (body_key_eq _ _ Hk) as (Kr & Kx & Ky & Kg).
  assert (S1 : body_key (Enemy.sprite (Enemy.steer e)) =
               body_key (Enemy.sprite (Enemy.steer e')) /\
               Enemy.patrol_left (Enemy.steer e) = Enemy.patrol_left (Enemy.steer e') /\
               Enemy.patrol_right (Enemy.steer e) = Enemy.patrol_right (Enemy.steer e') /\
               Enemy.speed (Enemy.steer e) = Enemy.speed (Enemy.steer e')).
  { unfold Enemy.steer, Enemy.rect. rewrite Kr, Hl, Hr, Hs.
    destruct (_ <=? _); [|destruct (_ >=? _)];
      unfold body_key;
      cbn [Enemy.set_sprite Enemy.sprite Enemy.patrol_left Enemy.patrol_right
           Enemy.speed AnimatedSprite.set_facing_right AnimatedSprite.set_vx
           AnimatedSprite.rect AnimatedSprite.vx AnimatedSprite.vy
           AnimatedSprite.on_ground];
      repeat split; congruence. }
  destruct S1 as (Sk & Sl & Sr & Ss).
  unfold Enemy.update.
  cbn [Enemy.set_sprite Enemy.sprite Enemy.patrol_left Enemy.patrol_right
       Enemy.speed].
  rewrite !update_animation_key, Sl, Sr, Ss.
  rewrite (move_key platforms _ _ (apply_gravity_key _ _ Sk)). reflexivity.
Qed.

Lemma enemy_in_motion (m : motion) : enemy_motion (enemy_in m) = m.
Proof. destruct m as [[[[[[r vx] vy] g] pl] pr] sp]. reflexivity. Qed.

Lemma enemy_update_next (d : Q) (e : Enemy.t) :
  enemy_motion (Enemy.update d level_platforms e) = next_motion (enemy_motion e).
Proof.
  unfold next_motion. apply enemy_update_motion.
  symmetry. apply enemy_in_motion.
Qed.

Lemma In_motions (n : nat) (m0 m : motion) :
  In m (motions n m0) <->
  exists k, (k < n)%nat /\ m = Nat.iter k next_motion m0.
Proof.
  revert m0. induction n as [|n IH]; intro m0; simpl.
  - split; [intros []|intros (k & Hk & _); lia].
  - split.
    + intros [<-|H]; [exists 0%nat; split; [lia|reflexivity]|].
      apply IH in H. destruct H as (k & Hk & ->).
      exists (S k). split; [lia|]. symmetry. apply Nat.iter_succ_r.
    + intros (k & Hk & ->). destruct k as [|k]; [left; reflexivity|right].
      apply IH. exists k. split; [lia|]. apply Nat.iter_succ_r.
Qed.

(** A list of motions that ends by coming back into itself is closed under
    [next_motion]. *)
Lemma motions_closed (n : nat) (m0 : motion) :
  In (Nat.iter n next_motion m0) (motions n m0) ->
  forall m, In m (motions n m0) -> In (next_motion m) (motions n m0).
Proof.
  intros Hlast m Hm. apply In_motions in Hm. destruct Hm as (k & Hk & ->).
  change (next_motion (Nat.iter k next_motion m0))
    with (Nat.iter (S k) next_motion m0).
  destruct (Nat.eq_dec (S k) n) as [<-|Hne]; [exact Hlast|].
  apply In_motions. exists (S k). split; [lia|reflexivity].
Qed.

Lemma Q_eqb_eq (a b : Q) : Q_eqb a b = true -> a = b.
Proof.
  destruct a, b. unfold Q_eqb. simpl. intro H.
  apply andb_true_iff in H. destruct H as [H1 H2].
  apply Z.eqb_eq in H1. apply Pos.eqb_eq in H2. congruence.
Qed.

Lemma rect_eqb_eq (a b : Rect.t) : rect_eqb a b = true -> a = b.
Proof.
  destruct a, b. unfold rect_eqb. simpl. intro H.
  repeat (apply andb_true_iff in H; destruct H as [H ?]).
  f_equal; apply Z.eqb_eq; assumption.
Qed.

Lemma motion_eqb_eq (a b : motion) : motion_eqb a b = true -> a = b.
Proof.
  destruct a as [[[[[[r vx] vy] g] pl] pr] sp].
  destruct b as [[[[[[r' vx'] vy'] g'] pl'] pr'] sp'].
  unfold motion_eqb. intro H.
  do 6 (apply andb_true_iff in H; destruct H as [H ?]).
  apply rect_eqb_eq in H. apply Q_eqb_eq in H4. apply Bool.eqb_prop in H3.
  apply Z.eqb_eq in H0, H1, H2, H5. congruence.
Qed.

(** Each enemy of the level is back in a known motion after
    [patrol_frames] frames, so the motions listed are all it ever has. *)
Lemma patrol_motions_closed (m : motion) :
  In m patrol_motions -> In (next_motion m) patrol_motions.
Proof.
  unfold patrol_motions. intro H. apply in_flat_map in H.
  destruct H as (e & He & Hm). apply in_flat_map. exists e. split; [exact He|].
  revert Hm. apply motions_closed.
  assert (C : forallb
                (fun e => existsb
                            (motion_eqb (Nat.iter patrol_frames next_motion
                                           (enemy_motion e)))
                            (motions patrol_frames (enemy_motion e)))
                level_enemies = true) by (vm_compute; reflexivity).
  rewrite forallb_forall in C. specialize (C e He).
  apply existsb_exists in C. destruct C as (m' & Hin & Heq).
  apply motion_eqb_eq in Heq. rewrite Heq. exact Hin.
Qed.

Lemma on_patrolb_sound (e : Enemy.t) :
  on_patrolb (enemy_motion e) = true -> on_patrol e.
Proof.
  unfold on_patrolb, enemy_motion, body_key, on_patrol, Enemy.vx, Enemy.rect.
  intro H. do 3 (apply andb_true_iff in H; destruct H as [H ?]).
  apply orb_true_iff in H. rewrite !Z.eqb_eq in H.
  apply Z.leb_le in H2, H1. apply existsb_exists in H0.
  destruct H0 as (pl & Hin & Hst).
  split; [exact H|]. split; [exact H2|]. split; [exact H1|].
  exists pl. split; assumption.
Qed.

Lemma patrol_motions_on_patrol (e : Enemy.t) :
  In (enemy_motion e) patrol_motions -> on_patrol e.
Proof.
  intro H. apply on_patrolb_sound.
  assert (C : forallb on_patrolb patrol_motions = true)
    by (vm_compute; reflexivity).
  rewrite forallb_forall in C. apply C, H.
Qed.

Lemma level_enemies_motions :
  Forall (fun e => In (enemy_motion e) patrol_motions) level_enemies.
Proof.
  apply Forall_forall. intros e He. unfold patrol_motions.
  apply in_flat_map. exists e. split; [exact He|]. left. reflexivity.
Qed.

(** The enemies and the platforms after a frame. *)
Lemma update_enemies_shape (i : tick_input) (s : Session) :
  platforms (update i s) = platforms s /\
  (enemies (update i s) = enemies s \/
   enemies (update i s) =
     map (Enemy.update (dt i) (platforms s)) (enemies s)).
Proof.
  destruct (game_state s) eqn:G.
  2: { destruct (update_playing_shape i s G) as (st & evs0 & evs & -> & _).
       destruct (finish_static (after_loops i evs (polled i st evs0 s)))
         as (-> & -> & _).
       split; [reflexivity|right; reflexivity]. }
  all: destruct (update_idle_shape i s ltac:(congruence)) as (st & evs0 & -> & _);
    rewrite G; split; [reflexivity|left; reflexivity].
Qed.

Lemma patrols_ok_update (i : tick_input) (s : Session) :
  patrols_ok s -> patrols_ok (update i s).
Proof.
  intros [Hp Hm]. destruct (update_enemies_shape i s) as (Ep & [Ee|Ee]);
    unfold patrols_ok; rewrite Ep, Ee.
  - split; assumption.
  - destruct Hp as [Hnil|Hlev].
    + rewrite Hnil. split; [left; reflexivity|constructor].
    + split; [right; exact Hlev|]. rewrite Hlev.
      apply Forall_map. eapply Forall_impl; [|exact Hm].
      intros e He. cbv beta. rewrite enemy_update_next.
      apply patrol_motions_closed, He.
Qed.

Lemma patrols_ok_button (ok : bool) (n : nat) (s s' : Session) :
  patrols_ok s -> press_button ok n s = Some s' -> patrols_ok s'.
Proof.
  intros Hs E. pose proof (press_button_core ok n s s' E) as C.
  destruct n as [|n].
  - destruct (init_level_fields s) as (_ & Fe & _ & Fp & _).
    set (t := init_level s) in *. clearbody t.
    destruct t as [gs me se sc li ms mst pl en co plat bu mp al].
    cbn [enemies platforms] in Fe, Fp. subst en plat.
    cbv zeta in C. unfold set_game_state in C.
    cbn [enemies platforms] in C.
    destruct C as (_ & _ & _ & _ & _ & Ee & _ & Ep & _).
    unfold patrols_ok. rewrite Ee, Ep.
    split; [right; reflexivity|exact level_enemies_motions].
  - cbv zeta in C. destruct C as (_ & _ & _ & _ & _ & Ee & _ & Ep & _).
    unfold patrols_ok. rewrite Ee, Ep. exact Hs.
Qed.

Lemma reachable_patrols (s : Session) : reachable s -> patrols_ok s.
Proof.
  apply reachable_invariant.
  - split; [left; reflexivity|constructor].
  - exact patrols_ok_update.
  - intros key s0 H. destruct s0 as [gs me se sc li ms mst pl en co plat bu mp al].
    destruct gs, key; exact H.
  - intros ok n s0 s' H E. exact (patrols_ok_button ok n s0 s' H E).
  - intros pos s0 H. exact H.
Qed.

(** X19.  The enemies of the level never leave their platforms.  In every
    reachable session every enemy moves at its speed, one way or the other;
    its left edge is not left of [patrol_left] and its right edge at most
    one pixel right of [patrol_right]; and it is over a platform of the
    level, inside the platform's width, its feet on the platform or at most
    10 above it, never below. *)
Theorem enemies_keep_their_platforms (s : Session) :
  reachable s -> Forall on_patrol (enemies s).
Proof.
  intro Hr. destruct (reachable_patrols s Hr) as [_ Hm].
  eapply Forall_impl; [|exact Hm].
  intros e He. apply patrol_motions_on_patrol, He.
Qed.

Lemma enemies_keep_their_platforms_witness :
  Forall on_patrol (enemies just_landed).
Proof. apply enemies_keep_their_platforms. exact just_landed_reachable. Defined.

(** ** The music flag *)

Lemma music_playing_sounds (log sounds : list audio) :
  Forall is_sound sounds ->
  music_playing (log ++ sounds) = music_playing log.
Proof.
  unfold music_playing. rewrite fold_left_app.
  generalize (fold_left music_after log false).
  induction sounds as [|a rest IH]; intros b H; [reflexivity|].
  inversion H as [|? ? Ha Hrest]; subst. simpl. rewrite IH by exact Hrest.
  destruct Ha as [->|[->| ->]]; reflexivity.
Qed.

Lemma music_playing_last (log : list audio) (a : audio) :
  music_playing (log ++ [a]) = music_after (music_playing log) a.
Proof. unfold music_playing. rewrite fold_left_app. reflexivity. Qed.

(** The first statement of [update] either changes nothing or starts the
    music, and doing it twice is doing it once. *)
Lemma update_music_cases (i : tick_input) (s : Session) :
  update_music i s = s \/
  (music_started s = false /\ music_enabled s = true /\
   update_music i s = emit [MusicPlay] (set_music true true s)).
Proof.
  unfold update_music, play_music.
  destruct (music_started s) eqn:Es; [left; reflexivity|].
  destruct (music_enabled s) eqn:Ee; [|left; reflexivity].
  destruct (music_ok i); [right|left; reflexivity].
  repeat split.
Qed.

Lemma update_music_twice (i : tick_input) (s : Session) :
  update i (update_music i s) = update i s.
Proof.
  assert (E : update_music i (update_music i s) = update_music i s).
  { destruct s as [gs me se sc li ms mst pl en co plat bu mp al].
    unfold update_music, play_music. cbn [music_started music_enabled].
    destruct mst, me; cbn [negb andb]; try reflexivity.
    destruct (music_ok i); reflexivity. }
  unfold update. rewrite E. reflexivity.
Qed.

(** A frame in which the music is not started leaves the music alone and
    adds only sounds to the log. *)
Lemma update_quiet (i : tick_input) (s : Session) :
  update_music i s = s ->
  exists sounds,
    Forall is_sound sounds /\
    audio_log (update i s) = audio_log s ++ sounds /\
    music_started (update i s) = music_started s /\
    music_enabled (update i s) = music_enabled s.
Proof.
  intro E. unfold update. rewrite E. cbv zeta.
  destruct (game_state s) eqn:G; unfold poll_keys; rewrite G;
    cbn [game_state_eqb].
  2: { set (t := set_player _ s).
       change (game_state t) with (game_state s). rewrite G.
       unfold update_playing.
       destruct (loops_shape i t) as (evs & -> & Ha & _).
       destruct (finish_static (after_loops i evs t))
         as (_ & _ & _ & _ & -> & _ & -> & _).
       destruct (finish_log (after_loops i evs t)) as (hit & -> & Hh).
       exists (evs ++ hit). split; [|split; [|split; reflexivity]].
       - apply Forall_app. split.
         + eapply Forall_impl; [|exact Ha].
           intros a [->| ->]; unfold is_sound; auto.
         + destruct Hh as [->|[-> _]]; [constructor|].
           constructor; [right; right; reflexivity|constructor].
       - unfold after_loops. cbn [audio_log].
         rewrite app_assoc. reflexivity. }
  all: rewrite G; exists []; rewrite app_nil_r;
    split; [constructor|repeat split].
Qed.

Lemma music_in_tune_update (i : tick_input) (s : Session) :
  music_in_tune s -> music_in_tune (update i s).
Proof.
  intros [Hp He]. unfold music_in_tune.
  destruct (update_music_cases i s) as [E|(Es & Eo & E)].
  - destruct (update_quiet i s E) as (sounds & Hs & -> & -> & ->).
    split; [|exact He]. rewrite music_playing_sounds by exact Hs. exact Hp.
  - rewrite <- update_music_twice, E.
    set (t := emit [MusicPlay] (set_music true true s)).
    assert (Q : update_music i t = t) by reflexivity.
    destruct (update_quiet i t Q) as (sounds & Hs & -> & -> & ->).
    split; [|reflexivity].
    rewrite music_playing_sounds by exact Hs.
    unfold t, emit. cbn [audio_log]. rewrite music_playing_last. reflexivity.
Qed.

Lemma music_in_tune_button (ok : bool) (n : nat) (s s' : Session) :
  music_in_tune s -> press_button ok n s = Some s' -> music_in_tune s'.
Proof.
  intros [Hp He] E. destruct n as [|[|[|[|n]]]]; simpl in E.
  - injection E as <-. cbv zeta.
    destruct (init_level_fields s)
      as (_ & _ & _ & _ & _ & _ & _ & _ & _ & Fe & _ & Fs & _ & Fl).
    set (t := init_level s) in *. clearbody t.
    destruct t as [gs me se sc li ms mst pl en co plat bu mp al].
    cbn [music_enabled music_started audio_log] in Fe, Fs, Fl. subst me mst al.
    unfold set_game_state, play_music, music_in_tune, emit, set_music.
    cbn [music_enabled music_started audio_log game_state].
    destruct (music_enabled s) eqn:Em, (music_started s) eqn:Es;
      cbn [negb andb]; try (split; [exact Hp|exact He]).
    destruct ok; cbn [music_enabled music_started audio_log];
      [|split; [exact Hp|exact He]].
    split; [|reflexivity]. rewrite music_playing_last. reflexivity.
  - injection E as <-.
    destruct s as [gs me se sc li ms mst pl en co plat bu mp al].
    unfold music_in_tune in *.
    cbn [music_enabled music_started audio_log] in Hp, He.
    unfold play_music, emit, set_music.
    cbn [music_enabled music_started audio_log].
    destruct me; cbn [negb music_enabled music_started audio_log].
    + split; [rewrite music_playing_last; reflexivity|discriminate].
    + destruct ok; cbn [music_enabled music_started audio_log].
      * split; [rewrite music_playing_last; reflexivity|reflexivity].
      * split; [exact Hp|reflexivity].
  - injection E as <-. split; [exact Hp|exact He].
  - discriminate.
  - injection E as <-. split; [exact Hp|exact He].
Qed.

Lemma reachable_in_tune (s : Session) : reachable s -> music_in_tune s.
Proof.
  apply reachable_invariant.
  - split; [reflexivity|discriminate].
  - exact music_in_tune_update.
  - intros key s0 H.
    destruct s0 as [gs me se sc li ms mst pl en co plat bu mp al].
    destruct gs, key; exact H.
  - exact music_in_tune_button.
  - intros pos s0 H. exact H.
Qed.

(** X20.  The flag [music_started] always tells the truth.  In every
    reachable session the music is playing, after all the calls made to
    [music.play] and [music.stop], exactly when [music_started] is set; and
    it is only ever playing while the music is enabled. *)
Theorem music_flag_tells_the_truth (s : Session) :
  reachable s ->
  music_playing (audio_log s) = music_started s /\
  (music_started s = true -> music_enabled s = true).
Proof. exact (reachable_in_tune s). Qed.

Lemma music_flag_tells_the_truth_witness :
  music_playing (audio_log just_landed) = music_started just_landed /\
  (music_started just_landed = true -> music_enabled just_landed = true).
Proof. apply music_flag_tells_the_truth. exact just_landed_reachable. Defined.

(** ** Steering *)

(** The body that enters the physics step of [Player.update]. *)
Lemma steered_body (snd_on : bool) (d : Q) (p : Player.t) :
  let s1 := Player.sprite
              (fst (Player.try_jump snd_on
                      (Player.steer (Player.tick_invincibility d p)))) in
  AnimatedSprite.rect s1 = Player.rect p /\
  AnimatedSprite.vx s1 = steered_vx (Player.move_left p) (Player.move_right p) /\
  AnimatedSprite.facing_right s1 =
    steered_facing (Player.move_left p) (Player.move_right p)
      (AnimatedSprite.facing_right (Player.sprite p)).
Proof.
  destruct (tick_invincibility_sprite d p) as (Ts & Tl & Tr & _).
  unfold Player.try_jump, Player.steer, Player.rect, steered_vx, steered_facing.
  rewrite Tl, Tr, Ts.
  destruct (_ && _); simpl;
    destruct (Player.move_right p), (Player.move_left p); repeat split.
Qed.

Lemma tail_keeps_body (d : Q) (q : Player.t) :
  let q' := Player.check_fall (Player.animate d q) in
  Player.rect q' = Player.rect q /\ Player.vx q' = Player.vx q /\
  AnimatedSprite.facing_right (Player.sprite q') =
    AnimatedSprite.facing_right (Player.sprite q).
Proof.
  unfold Player.check_fall, Player.animate, AnimatedSprite.update_animation.
  destruct (_ || _); [destruct (Qgeb _ _)|];
    match goal with |- context [if ?c then _ else _] => destruct c end;
    repeat split.
Qed.

(** X21.  The held keys drive the player.  After the update of a living
    player [vx] is 4 if right is held, else -4 if left is held, else 0, and
    the player faces the way it was last driven; collisions never change
    either.  If the body moved by that [vx] overlaps no platform, the player
    has moved by exactly [vx].  In the playing state the same holds of a
    frame of the session with the keys of that frame (the arrows or A and
    D). *)
Theorem keys_drive_the_player :
  (forall snd_on d platforms p,
     Player.alive p = true ->
     let v := steered_vx (Player.move_left p) (Player.move_right p) in
     let p' := fst (Player.update snd_on d platforms p) in
     Player.vx p' = v /\
     AnimatedSprite.facing_right (Player.sprite p') =
       steered_facing (Player.move_left p) (Player.move_right p)
         (AnimatedSprite.facing_right (Player.sprite p)) /\
     (forallb
        (fun pl =>
           negb (Rect.colliderect
                   (Rect.set_x (Rect.x (Player.rect p) + v) (Player.rect p)) pl))
        platforms = true ->
      Rect.x (Player.rect p') = Rect.x (Player.rect p) + v)) /\
  (forall i s,
     game_state s = Playing -> Player.alive (player s) = true ->
     Player.vx (player (update i s)) =
       steered_vx (key_left i || key_a i) (key_right i || key_d i) /\
     AnimatedSprite.facing_right (Player.sprite (player (update i s))) =
       steered_facing (key_left i || key_a i) (key_right i || key_d i)
         (AnimatedSprite.facing_right (Player.sprite (player s)))).
Proof.
  assert (P : forall snd_on d platforms p,
     Player.alive p = true ->
     let v := steered_vx (Player.move_left p) (Player.move_right p) in
     let p' := fst (Player.update snd_on d platforms p) in
     Player.vx p' = v /\
     AnimatedSprite.facing_right (Player.sprite p') =
       steered_facing (Player.move_left p) (Player.move_right p)
         (AnimatedSprite.facing_right (Player.sprite p)) /\
     (forallb
        (fun pl =>
           negb (Rect.colliderect
                   (Rect.set_x (Rect.x (Player.rect p) + v) (Player.rect p)) pl))
        platforms = true ->
      Rect.x (Player.rect p') = Rect.x (Player.rect p) + v)).
  { intros snd_on d platforms p Ha v p'. subst v p'.
    rewrite (update_stages snd_on d platforms p Ha).
    destruct (steered_body snd_on d p) as (Sr & Sx & Sf).
    set (q := fst (Player.try_jump snd_on
                     (Player.steer (Player.tick_invincibility d p)))) in *.
    destruct (tail_keeps_body d (Player.physics platforms q)) as (Tr & Tx & Tf).
    rewrite Tr, Tx, Tf.
    unfold Player.physics, Player.vx, Player.rect.
    cbn [Player.set_sprite Player.sprite].
    pose proof (same_drive_trans _ _ _
                  (apply_gravity_drive (Player.sprite q))
                  (move_drive platforms
                     (AnimatedSprite.apply_gravity (Player.sprite q))))
      as (Dvx & Dfr & _).
    rewrite Dvx, Dfr, Sx, Sf.
    split; [reflexivity|]. split; [reflexivity|].
    intro Hfree.
    assert (G : AnimatedSprite.rect (AnimatedSprite.apply_gravity (Player.sprite q))
                = Player.rect p /\
                AnimatedSprite.vx (AnimatedSprite.apply_gravity (Player.sprite q))
                = steered_vx (Player.move_left p) (Player.move_right p)).
    { rewrite <- Sr, <- Sx. unfold AnimatedSprite.apply_gravity.
      destruct (negb _); [destruct (Qgtb _ _)|]; split; reflexivity. }
    destruct G as (Gr & Gx).
    rewrite move_free_x.
    - rewrite Gr, Gx. reflexivity.
    - unfold AnimatedSprite.displace_x.
      cbn [AnimatedSprite.set_rect AnimatedSprite.rect].
      rewrite Gr, Gx. exact Hfree. }
  split; [exact P|].
  intros i s Hp Ha.
  unfold Player.vx. rewrite (update_player_sprite i s Hp).
  set (p0 := Player.set_move (key_left i || key_a i) (key_right i || key_d i)
               (player s)).
  destruct (P (sounds_enabled s) (dt i) (platforms s) p0 Ha) as (Vx & Fr & _).
  split; [exact Vx|exact Fr].
Qed.

Lemma keys_drive_the_player_witness :
  Player.vx (fst (Player.update true (1 # 60) level_platforms walking_lander)) = 4 /\
  Rect.x (Player.rect
            (fst (Player.update true (1 # 60) level_platforms walking_lander)))
  = 104.
Proof.
  assert (Ha : Player.alive walking_lander = true) by reflexivity.
  pose proof (proj1 keys_drive_the_player true (1 # 60) level_platforms
                walking_lander Ha) as H.
  cbv zeta in H. destruct H as (V & _ & X).
  split; [exact V|]. apply X. vm_compute. reflexivity.
Defined.
